(** * FireboltDriver: a shallow embedding of
      packages/cubejs-firebolt-driver/src/FireboltDriver.ts

    The driver is modelled the way it is written:
    - JavaScript values are an inductive type [JsValue]; plain objects are
      finite maps from their own property names (stdpp's [gmap]);
    - the pure helpers ([toGenericType], [getHydratedValue], [hydrateRow],
      the name handling of [dropTable], the configuration merge of the
      constructor) are functions;
    - the asynchronous methods are programs in a state-and-exception monad
      over the driver's fields, the promise held in [this.connection] and the
      log of calls made to firebolt-sdk, which is a capability record the
      whole development is parametrised by. *)

From Stdlib Require Import ZArith Lia Ascii String.
From stdpp Require Import base option list gmap strings pretty.

Local Open Scope string_scope.
Local Open Scope list_scope.

#[local] Set Warnings "-register-all".

(** ** JavaScript values *)

Module Js.

(** The values the driver touches.  [JsInt z] is an integer held exactly:
    a Number when [z] is in the safe range (below 2^53 in magnitude), and
    beyond it a big-number object, which is what the SDK's JSON parser
    makes of a long integer.  Numbers with a fraction, and Numbers outside
    the safe range, are not represented. *)
Inductive JsValue : Type :=
  | JsUndefined
  | JsNull
  | JsBool (b : bool)
  | JsInt (z : Z)
  | JsString (s : string)
  | JsArray (items : list JsValue)
  | JsObject (props : gmap string JsValue).

(** [!!value] *)
Definition to_boolean (v : JsValue) : bool :=
  match v with
  | JsUndefined | JsNull => false
  | JsBool b => b
  | JsInt z => negb (z =? 0)%Z
  | JsString s => negb (String.eqb s "")
  | JsArray _ | JsObject _ => true
  end.

(** The digits after the first of a coefficient, without the zeros at
    their end. *)
Fixpoint strip_trailing_zeros (digits : string) : string :=
  match digits with
  | EmptyString => EmptyString
  | String c rest =>
      match strip_trailing_zeros rest with
      | EmptyString => if Ascii.eqb c "0" then EmptyString
                       else String c EmptyString
      | kept => String c kept
      end
  end.

(** Exponent notation: the first digit, the others behind a point unless
    they are all zeros, and the power of ten, as in [1.5e+21]. *)
Definition exponent_notation (z : Z) : string :=
  match pretty (Z.abs z) with
  | EmptyString => EmptyString
  | String first rest =>
      let fraction :=
        match strip_trailing_zeros rest with
        | EmptyString => EmptyString
        | kept => "." +:+ kept
        end in
      (if (z <? 0)%Z then "-" else EmptyString)
        +:+ String first fraction +:+ "e+" +:+ pretty (String.length rest)
  end.

(** The string of an integer, for a Number and for a big-number object
    alike: the decimal numeral below 10^21 in magnitude, exponent notation
    from there. *)
Definition integer_string (z : Z) : string :=
  if (Z.abs z <? 10 ^ 21)%Z then pretty z else exponent_notation z.

(** [`${value}`]: an array prints its items separated by commas, with
    nothing for [null] and [undefined]; a plain object prints as
    [[object Object]]. *)
Fixpoint template_string (v : JsValue) : string :=
  match v with
  | JsUndefined => "undefined"
  | JsNull => "null"
  | JsBool true => "true"
  | JsBool false => "false"
  | JsInt z => integer_string z
  | JsString s => s
  | JsArray items =>
      let item (x : JsValue) :=
        match x with
        | JsUndefined | JsNull => ""
        | _ => template_string x
        end in
      String.concat "," (map item items)
  | JsObject _ => "[object Object]"
  end.

(** [value !== null] *)
Definition strict_ne_null (v : JsValue) : bool :=
  match v with JsNull => false | _ => true end.

(** [obj[key]] on a plain object: an absent property reads as [undefined].
    Members inherited from [Object.prototype] are outside the model. *)
Definition get (obj : gmap string JsValue) (key : string) : JsValue :=
  default JsUndefined (obj !! key).

(** [value.key] on an arbitrary value the code expects to be an object. *)
Definition get_prop (v : JsValue) (key : string) : JsValue :=
  match v with
  | JsObject props => get props key
  | _ => JsUndefined
  end.

(** [{ ...value }] for a plain object: its own properties.  The
    configuration types admit nothing else where the constructor spreads;
    any other value spreads as nothing here. *)
Definition spread (v : JsValue) : gmap string JsValue :=
  match v with
  | JsObject props => props
  | _ => ∅
  end.

(** [a || b] *)
Definition or_else (a b : JsValue) : JsValue :=
  if to_boolean a then a else b.

(** [s.includes(c)] for a one-character needle. *)
Fixpoint includes (c : ascii) (s : string) : bool :=
  match s with
  | EmptyString => false
  | String d rest => Ascii.eqb d c || includes c rest
  end.

(** [s.split(sep)] for a one-character separator: never empty, one more
    segment than there are separators. *)
Fixpoint split (sep : ascii) (s : string) : list string :=
  match s with
  | EmptyString => [EmptyString]
  | String c rest =>
      if Ascii.eqb c sep then EmptyString :: split sep rest
      else match split sep rest with
           | seg :: segs => String c seg :: segs
           | [] => [String c EmptyString]
           end
  end.

End Js.
Export Js.

(** ** TypeMapper *)

Module TypeMapper.

(** [const FireboltTypeToGeneric: Record<string, string> = { long: 'bigint' }] *)
Definition FireboltTypeToGeneric : gmap string string :=
  {[ "long" := "bigint" ]}.

(** [columnType in FireboltTypeToGeneric], on own keys.  The operator also
    answers true for the member names of [Object.prototype]; none of them is
    matched by [COMPLEX_TYPE] below ([inherited_names_are_not_wrapped]), so
    for wrapped types the two agree. *)
Definition in_table (columnType : string) : bool :=
  bool_decide (is_Some (FireboltTypeToGeneric !! columnType)).

(** [FireboltTypeToGeneric[key]] *)
Definition table_get (key : string) : JsValue :=
  match FireboltTypeToGeneric !! key with
  | Some generic => JsString generic
  | None => JsUndefined
  end.

(** *** [const COMPLEX_TYPE = /(nullable|array)\((.+)\)/] *)

(** [.] matches every character but a line terminator.  Strings are
    sequences of 8-bit code units here, so only LF and CR occur. *)
Definition is_line_terminator (c : ascii) : bool :=
  Ascii.eqb c "010"%char || Ascii.eqb c "013"%char.

(** What is left of [s] after the literal [p], when [s] starts with it. *)
Fixpoint strip_prefix (p s : string) : option string :=
  match p, s with
  | EmptyString, _ => Some s
  | String a p', String b s' =>
      if Ascii.eqb a b then strip_prefix p' s' else None
  | String _ _, EmptyString => None
  end.

(** [(.+)\)] at the start of [s]: the capture.  [.+] is greedy, so the
    longest run of non-terminators that is still followed by a closing
    parenthesis wins. *)
Fixpoint dot_plus_rparen (s : string) : option string :=
  match s with
  | EmptyString => None
  | String c rest =>
      if is_line_terminator c then None
      else match dot_plus_rparen rest with
           | Some inner => Some (String c inner)
           | None =>
               match rest with
               | String ")"%char _ => Some (String c EmptyString)
               | _ => None
               end
           end
  end.

(** The whole pattern anchored at the start of [s]; the alternatives are
    tried in the order they are written.  The result is the pair of
    captures [(_outerType, innerType)]. *)
Definition COMPLEX_TYPE_here (s : string) : option (string * string) :=
  let alternative (kw : string) :=
    rest ← strip_prefix (kw +:+ "(") s;
    inner ← dot_plus_rparen rest;
    Some (kw, inner) in
  match alternative "nullable" with
  | Some m => Some m
  | None => alternative "array"
  end.

(** [columnType.match(COMPLEX_TYPE)]: the leftmost match. *)
Fixpoint COMPLEX_TYPE_match (s : string) : option (string * string) :=
  match COMPLEX_TYPE_here s with
  | Some m => Some m
  | None =>
      match s with
      | EmptyString => None
      | String _ rest => COMPLEX_TYPE_match rest
      end
  end.

Section ToGenericType.

(** [super.toGenericType] of [BaseDriver], which lives in another
    package: the generic mapping shared by all drivers. *)
Variable BaseDriver_toGenericType : string -> string.

Definition toGenericType (columnType : string) : JsValue :=
  if in_table columnType then table_get columnType
  else
    match COMPLEX_TYPE_match columnType with
    | Some (_outerType, innerType) =>
        if in_table columnType then table_get innerType
        else JsString (BaseDriver_toGenericType columnType)
    | None => JsString (BaseDriver_toGenericType columnType)
    end.

End ToGenericType.

End TypeMapper.

(** ** The driver *)

Module Driver.

(** *** What firebolt-sdk hands out *)

(** A connection, a statement and an engine are objects of the SDK; only
    their identity matters here. *)
Definition Connection := nat.
Definition Statement := nat.
Definition Engine := nat.
Definition RowStream := nat.

(** An error thrown by the SDK.  [status] is whatever the property
    [error.status] holds. *)
Record Error := { status : JsValue; message : string }.

(** [Meta] of the SDK: a column's name and its native type. *)
Record Meta := { name : string; type : string }.

(** A row is a plain object keyed by column name. *)
Abbreviation Row := (gmap string JsValue).

(** What [statement.fetchResult()] resolves to. *)
Record Response := { data : list Row; meta : list Meta }.

(** A column description as the driver returns it. *)
Record ColumnType := { col_name : string; col_type : JsValue }.

(** [StreamTableData] *)
Record StreamTableData := { rowStream : RowStream; types : list ColumnType }.

(** The calls the driver makes to the SDK, with their arguments. *)
Inductive Event : Type :=
  | EvConnect (connectionOptions : JsValue)
  | EvGetByName (engineName : JsValue)
  | EvStartAndWait (engine : Engine)
  | EvTestConnection (connection : Connection)
  | EvExecute (connection : Connection) (query : string)
      (parameters : option (list JsValue))
  | EvFetchResult (statement : Statement)
  | EvStreamResult (statement : Statement)
  | EvDestroy (connection : Connection).

(** The SDK as a capability: how each call settles, given everything the
    driver has asked of it so far (the call in question is the last entry
    of the log).  Any deterministic engine that answers every call is an
    instance: a promise of the SDK that never settles is not represented,
    so nothing here says that a call of the driver ends whatever the engine
    does. *)
Record Sdk := {
  sdk_connect : list Event -> Error + Connection;
  sdk_getByName : list Event -> Error + Engine;
  sdk_startAndWait : list Event -> Error + unit;
  sdk_testConnection : list Event -> Error + unit;
  sdk_execute : list Event -> Error + Statement;
  sdk_fetchResult : list Event -> Error + Response;
  sdk_streamResult : list Event -> Error + RowStream;
  sdk_metaPromise : list Event -> Error + list Meta;
  sdk_destroy : list Event -> Error + unit;
}.

(** *** The driver's state *)

Definition PromiseId := nat.

(** The promise returned by a call of [initConnection]. *)
Inductive PromiseState : Type :=
  | Pending
  | Fulfilled (connection : Connection)
  | Rejected (error : Error).

Record State := {
  config : gmap string JsValue;      (* this.config *)
  connection : option PromiseId;     (* this.connection, null as None *)
  promises : list PromiseState;      (* the promises created so far *)
  trace : list Event;                (* the SDK calls made, oldest first *)
}.

Definition set_connection_field (c : option PromiseId) (d : State) : State :=
  {| config := config d; connection := c;
     promises := promises d; trace := trace d |}.

Definition set_promises (ps : list PromiseState) (d : State) : State :=
  {| config := config d; connection := connection d;
     promises := ps; trace := trace d |}.

Definition set_trace (t : list Event) (d : State) : State :=
  {| config := config d; connection := connection d;
     promises := promises d; trace := t |}.

(** *** Asynchronous methods as state-passing programs *)

(** How an awaited method ends: it returns, it throws, or its promise never
    settles. *)
Inductive Outcome (A : Type) : Type :=
  | Ok (a : A)
  | Throw (e : Error)
  | Hang.
Arguments Ok {A} a.
Arguments Throw {A} e.
Arguments Hang {A}.

Definition M (A : Type) : Type := State -> Outcome A * State.

Definition ret {A} (a : A) : M A := fun d => (Ok a, d).

Definition throw {A} (e : Error) : M A := fun d => (Throw e, d).

Definition hang {A} : M A := fun d => (Hang, d).

Definition bind {A B} (m : M A) (k : A -> M B) : M B :=
  fun d =>
    match m d with
    | (Ok a, d') => k a d'
    | (Throw e, d') => (Throw e, d')
    | (Hang, d') => (Hang, d')
    end.

(** [try { body } catch (error) { handler }] *)
Definition try_catch {A} (body : M A) (handler : Error -> M A) : M A :=
  fun d =>
    match body d with
    | (Throw e, d') => handler e d'
    | r => r
    end.

(** stdpp's monad notations: [x ← m; k] and [m;; k]. *)
#[global] Instance M_ret : MRet M := @ret.
#[global] Instance M_bind : MBind M := fun A B k m => bind m k.

Definition read {A} (f : State -> A) : M A := fun d => (Ok (f d), d).

(** [this.connection = c] *)
Definition set_connection (c : option PromiseId) : M unit :=
  fun d => (Ok tt, set_connection_field c d).

(** The pending promise an async function returns at its first [await]. *)
Definition new_promise : M PromiseId :=
  fun d => (Ok (length (promises d)), set_promises (promises d ++ [Pending]) d).

(** A call to the SDK is logged the moment it is made. *)
Definition issue (ev : Event) : M unit :=
  fun d => (Ok tt, set_trace (trace d ++ [ev]) d).

(** [await] of a promise of the SDK: it settles as the SDK decides. *)
Definition await_sdk {A} (answer : list Event -> Error + A) : M A :=
  fun d =>
    match answer (trace d) with
    | inr a => (Ok a, d)
    | inl e => (Throw e, d)
    end.

(** [await sdk.method(args)] *)
Definition call_sdk {A} (ev : Event) (answer : list Event -> Error + A) : M A :=
  issue ev;; await_sdk answer.

(** [error.status === n] *)
Definition status_is (error : Error) (n : Z) : bool :=
  match status error with
  | JsInt z => (z =? n)%Z
  | _ => false
  end.

(** *** The methods *)

Section Methods.

(** [this.firebolt], the SDK instance made by the constructor. *)
Variable firebolt : Sdk.

(** [isNumberType] of the SDK. *)
Variable isNumberType : string -> bool.

(** [super.toGenericType]. *)
Variable BaseDriver_toGenericType : string -> string.

Definition toGenericType : string -> JsValue :=
  TypeMapper.toGenericType BaseDriver_toGenericType.

Definition ensureEngineRunning : M unit :=
  engineName ← read (fun d => get_prop (get (config d) "connection") "engineName");
  if to_boolean engineName then
    engine ← call_sdk (EvGetByName engineName) (sdk_getByName firebolt);
    call_sdk (EvStartAndWait engine) (sdk_startAndWait firebolt)
  else mret tt.

(** [initConnection] is an async function.  Calling it runs it up to its
    first [await]: the connect call is made, and the caller gets the
    promise of the function's result. *)
Definition initConnection : M PromiseId :=
  connectionOptions ← read (fun d => get (config d) "connection");
  issue (EvConnect connectionOptions);;
  new_promise.

(** The rest of [initConnection], run once the SDK settles the connect
    call. *)
Definition initConnection_resume : M Connection :=
  try_catch
    (connection ← await_sdk (sdk_connect firebolt);
     ensureEngineRunning;;
     mret connection)
    (fun e =>
       set_connection None;;
       throw e).

(** The event loop runs the function behind a pending promise to its end
    and settles the promise with the result.  A settled promise stays as
    it is. *)
Definition settle (p : PromiseId) : M unit :=
  fun d =>
    match promises d !! p with
    | Some Pending =>
        match initConnection_resume d with
        | (Ok c, d') =>
            (Ok tt, set_promises (<[p := Fulfilled c]> (promises d')) d')
        | (Throw e, d') =>
            (Ok tt, set_promises (<[p := Rejected e]> (promises d')) d')
        | (Hang, d') => (Hang, d')
        end
    | _ => (Ok tt, d)
    end.

(** [await p] for a promise of [initConnection]. *)
Definition await (p : PromiseId) : M Connection :=
  settle p;;
  st ← read (fun d => promises d !! p);
  match st with
  | Some (Fulfilled c) => mret c
  | Some (Rejected e) => throw e
  | _ => hang
  end.

(** [getConnection] up to its [await] or [return]: the promise whose
    result the caller will get. *)
Definition getConnection_call : M PromiseId :=
  cached ← read connection;
  match cached with
  | Some p => mret p
  | None =>
      p ← initConnection;
      set_connection (Some p);;
      mret p
  end.

Definition getConnection : M Connection :=
  p ← getConnection_call;
  await p.

Definition testConnection : M unit :=
  try_catch
    (connection ← getConnection;
     call_sdk (EvTestConnection connection) (sdk_testConnection firebolt))
    (fun error => throw error).

Definition getHydratedValue (value : JsValue) (meta : Meta) : JsValue :=
  if isNumberType (type meta) && strict_ne_null value
  then JsString (template_string value)
  else value.

(** [hydrateRow], for column names that a plain object does not inherit.
    Under [__proto__] the assignment of the source sets no own property,
    and under an inherited name [row[key]] reads the inherited member when
    the row has none of its own: the statements about hydration leave
    those names out. *)
Definition hydrateRow (row : Row) (meta : list Meta) : Row :=
  foldl
    (fun (hydratedRow : Row) (column : Meta) =>
       let key := name column in
       <[key := getHydratedValue (get row key) column]> hydratedRow)
    ∅ meta.

(** The [try] block of [queryResponse]. *)
Definition queryResponse_try (query : string)
    (parameters : option (list JsValue)) : M Response :=
  connection ← getConnection;
  statement ← call_sdk (EvExecute connection query parameters)
                (sdk_execute firebolt);
  response ← call_sdk (EvFetchResult statement) (sdk_fetchResult firebolt);
  mret response.

(** [queryResponse] calls itself with [retry = false]; the recursion is
    unfolded [fuel] times. *)
Fixpoint queryResponse (fuel : nat) (query : string)
    (parameters : option (list JsValue)) (retry : bool) : M Response :=
  match fuel with
  | O => hang
  | S fuel =>
      try_catch (queryResponse_try query parameters)
        (fun error =>
           if status_is error 401 && retry then
             set_connection None;;
             queryResponse fuel query parameters false
           else if status_is error 404 && retry then
             ensureEngineRunning;;
             queryResponse fuel query parameters false
           else throw error)
  end.

(** The [try] block of [streamResponse]. *)
Definition streamResponse_try (query : string)
    (parameters : list JsValue) : M StreamTableData :=
  connection ← getConnection;
  statement ← call_sdk (EvExecute connection query (Some parameters))
                (sdk_execute firebolt);
  rowStream ← call_sdk (EvStreamResult statement) (sdk_streamResult firebolt);
  meta ← await_sdk (sdk_metaPromise firebolt);
  let types :=
    map (fun m => {| col_name := name m; col_type := toGenericType (type m) |})
      meta in
  mret {| rowStream := rowStream; types := types |}.

Fixpoint streamResponse (fuel : nat) (query : string)
    (parameters : list JsValue) (retry : bool) : M StreamTableData :=
  match fuel with
  | O => hang
  | S fuel =>
      try_catch (streamResponse_try query parameters)
        (fun error =>
           if status_is error 401 && retry then
             set_connection None;;
             streamResponse fuel query parameters false
           else if status_is error 404 && retry then
             ensureEngineRunning;;
             streamResponse fuel query parameters false
           else throw error)
  end.

(** One retry at most: two unfoldings are all a call can use. *)
Definition enough_fuel : nat := 2.

Definition query (query : string) (parameters : option (list JsValue))
    : M (list Row) :=
  response ← queryResponse enough_fuel query parameters true;
  mret (data response).

Definition stream (query : string) (parameters : list JsValue)
    : M StreamTableData :=
  streamResponse enough_fuel query parameters true.

(** The statement [dropTable] builds.  The destructuring
    [const [_, name] = tableName.split('.')] reads index 1. *)
Definition dropTable_statement (tableName : string) : string :=
  let tableName :=
    if includes "." tableName then
      match split "." tableName !! 1 with
      | Some name => JsString name
      | None => JsUndefined
      end
    else JsString tableName in
  "DROP TABLE " +:+ template_string tableName.

Definition dropTable (tableName : string) : M (list Row) :=
  query (dropTable_statement tableName) (Some []).

Definition release : M unit :=
  cached ← read connection;
  match cached with
  | Some p =>
      connection ← await p;
      call_sdk (EvDestroy connection) (sdk_destroy firebolt);;
      set_connection None
  | None => mret tt
  end.

End Methods.

(** *** The remaining methods *)

(** What [downloadQueryResults] resolves to. *)
Record DownloadedResults := { rows : list Row; rows_types : list ColumnType }.

(** An entry of the result of [tableColumnTypes]: whatever the row holds
    as its column name, and the generic type. *)
Record DescribedColumn := { described_name : JsValue; described_type : JsValue }.

(** The TypeError the runtime throws when a method is called on a value
    that does not have it.  It carries no [status]; the text of its message
    is the engine's. *)
Definition type_error : Error :=
  {| status := JsUndefined; message := "TypeError" |}.

(** [array.map(f)] for a callback that may throw: the first throw, from
    left to right, ends the call. *)
Fixpoint map_or_throw {A B} (f : A -> Error + B) (l : list A)
    : Error + list B :=
  match l with
  | [] => inr []
  | x :: rest =>
      match f x with
      | inl e => inl e
      | inr y =>
          match map_or_throw f rest with
          | inl e => inl e
          | inr ys => inr (y :: ys)
          end
      end
  end.

(** The character [U+0022]. *)
Definition double_quote : string := String "034"%char EmptyString.

Section OtherMethods.

Variable firebolt : Sdk.

Variable BaseDriver_toGenericType : string -> string.

(** [fromGenericType] of [BaseDriver]. *)
Variable fromGenericType : string -> string.

Definition getDefaultConcurrency : Z := 10.

Definition quoteIdentifier (identifier : string) : string :=
  double_quote +:+ identifier +:+ double_quote.

Definition createTableSql (quotedTableName : string) (columns : list Meta)
    : string :=
  let cols :=
    String.concat ", "
      (map (fun c => quoteIdentifier (name c) +:+ " " +:+ fromGenericType (type c))
         columns) in
  "CREATE DIMENSION TABLE " +:+ quotedTableName +:+ " (" +:+ cols +:+ ")".

Definition createSchemaIfNotExists (_schemaName : string) : M unit :=
  mret tt.

Definition unload : M unit :=
  throw {| status := JsUndefined; message := "Unload is not supported" |}.

Definition isUnloadSupported : M bool :=
  mret false.

(** [data.map(({ table_name }) => ({ table_name }))] keeps one property
    of each row. *)
Definition getTablesQuery : M (list Row) :=
  data ← query firebolt "SHOW TABLES" (Some []);
  mret (map (fun row : Row => ({[ "table_name" := get row "table_name" ]} : Row))
          data).

Definition downloadQueryResults (query : string) (values : list JsValue)
    : M DownloadedResults :=
  response ← queryResponse firebolt enough_fuel query (Some values) true;
  let types :=
    map (fun m => {| col_name := name m;
                     col_type := toGenericType BaseDriver_toGenericType (type m) |})
      (meta response) in
  mret {| rows := data response; rows_types := types |}.

(** [this.toGenericType(value)] for a value that the row type promises to
    be a string.  [in] turns its operand into a property key, and only a
    string has [.match]: any other value that is not a key of the table
    ends in a TypeError. *)
Definition toGenericType_of (value : JsValue) : Error + JsValue :=
  match value with
  | JsString columnType =>
      inr (toGenericType BaseDriver_toGenericType columnType)
  | _ =>
      if TypeMapper.in_table (template_string value)
      then inr (TypeMapper.table_get (template_string value))
      else inl type_error
  end.

Definition tableColumnTypes (table : string) : M (list DescribedColumn) :=
  response ← query firebolt ("DESCRIBE " +:+ table) (Some []);
  match map_or_throw
          (fun row : Row =>
             match toGenericType_of (get row "data_type") with
             | inl e => inl e
             | inr t => inr {| described_name := get row "column_name";
                               described_type := t |}
             end)
          response with
  | inl e => throw e
  | inr columns => mret columns
  end.

End OtherMethods.

(** *** The constructor *)

Section Constructor.

(** [getEnv(name, { dataSource })] and [assertDataSource] of the shared
    package, and the version string of the SDK's package file. *)
Variable getEnv : string -> JsValue -> JsValue.
Variable assertDataSource : string -> JsValue.
Variable version : string.

(** The object assigned to [this.config].  Spreading [...config] after
    the defaults lets every own property of [config] win over them;
    [connection] is written last.  [username.includes] throws a TypeError
    when the user name is not a string: no driver is built then. *)
Definition build_config (config : gmap string JsValue)
    : option (gmap string JsValue) :=
  let dataSource :=
    or_else (get config "dataSource") (assertDataSource "default") in
  let username := getEnv "dbUser" dataSource in
  match username with
  | JsString user =>
      let auth :=
        if includes "@" user
        then JsObject {[ "username" := username;
                         "password" := getEnv "dbPass" dataSource ]}
        else JsObject {[ "client_id" := username;
                         "client_secret" := getEnv "dbPass" dataSource ]} in
      let defaults : gmap string JsValue :=
        {[ "readOnly" := JsBool true;
           "apiEndpoint" :=
             or_else (getEnv "fireboltApiEndpoint" dataSource)
                     (JsString "api.app.firebolt.io") ]} in
      let connectionDefaults : gmap string JsValue :=
        {[ "auth" := auth;
           "database" := getEnv "dbName" dataSource;
           "account" := getEnv "fireboltAccount" dataSource;
           "engineName" := getEnv "fireboltEngineName" dataSource;
           "engineEndpoint" := getEnv "fireboltEngineEndpoint" dataSource;
           "additionalParameters" :=
             JsObject {[ "userClients" :=
               JsArray [JsObject {[ "name" := JsString "CubeDev+Cube";
                                    "version" := JsString version ]}] ]} ]} in
      let connection :=
        spread (or_else (get config "connection") (JsObject ∅))
          ∪ connectionDefaults in
      Some (<["connection" := JsObject connection]> (config ∪ defaults))
  | _ => None
  end.

(** A new driver: no connection yet, nothing asked of the SDK. *)
Definition constructor (config : gmap string JsValue) : option State :=
  this_config ← build_config config;
  Some {| config := this_config; connection := None;
          promises := []; trace := [] |}.

End Constructor.

(** [readOnly()] reads the configuration only. *)
Definition readOnly (d : State) : bool :=
  to_boolean (get (config d) "readOnly").

End Driver.

(** * Auxiliary definitions used in the statements *)

(** The entry of [meta] that has the last word on the property [key] of a
    hydrated row: the last column of that name. *)
Fixpoint last_named (key : string) (meta : list Driver.Meta)
    : option Driver.Meta :=
  match meta with
  | [] => None
  | column :: rest =>
      match last_named key rest with
      | Some c => Some c
      | None => if decide (Driver.name column = key) then Some column else None
      end
  end.

(** The statements submitted to the engine, in order. *)
Definition executed (t : list Driver.Event) : list string :=
  omap (fun ev => match ev with
                  | Driver.EvExecute _ query _ => Some query
                  | _ => None
                  end) t.

(** Sample data: a numeric column holding an integer beyond the safe range
    of a double. *)
Definition is_long (t : string) : bool := String.eqb t "long".

Definition sample_column : Driver.Meta :=
  {| Driver.name := "n"; Driver.type := "long" |}.

Definition sample_row : Driver.Row := {[ "n" := JsInt 12345678901234567890 ]}.

(** A sample environment: every variable is set to the same address. *)
Definition sample_getEnv (name : string) (dataSource : JsValue) : JsValue :=
  JsString "cube@example.com".

Definition sample_assertDataSource (dataSource : string) : JsValue :=
  JsString dataSource.

(** Every call a program makes satisfies [Q]; nothing is ever removed
    from the log. *)
Definition emits {A} (Q : Driver.Event -> Prop) (m : Driver.M A) : Prop :=
  forall d, exists evs,
    Driver.trace (m d).2 = Driver.trace d ++ evs /\ Forall Q evs.

(** The connect calls in a log, by their argument. *)
Definition connects (t : list Driver.Event) : list JsValue :=
  omap (fun ev => match ev with
                  | Driver.EvConnect connectionOptions => Some connectionOptions
                  | _ => None
                  end) t.

(** What a call with retries enabled amounts to, given the result of its
    first attempt and the program [again] of the second. *)
Definition after_first_attempt {A} (firebolt : Driver.Sdk) (again : Driver.M A)
    (first : Driver.Outcome A * Driver.State)
    : Driver.Outcome A * Driver.State :=
  match first with
  | (Driver.Throw e, d1) =>
      if Driver.status_is e 401 then
        again (Driver.set_connection_field None d1)
      else if Driver.status_is e 404 then
        match Driver.ensureEngineRunning firebolt d1 with
        | (Driver.Ok _, d2) => again d2
        | (Driver.Throw e', d2) => (Driver.Throw e', d2)
        | (Driver.Hang, d2) => (Driver.Hang, d2)
        end
      else (Driver.Throw e, d1)
  | r => r
  end.

(** Sample engines.  [error_with code] is an SDK error of that status. *)
Definition error_with (code : Z) : Driver.Error :=
  {| Driver.status := JsInt code; Driver.message := "rejected" |}.

(** An engine that answers every call, except that it rejects the
    statements a predicate on the log picks, with status [code], and
    fails the engine lookups another predicate picks, and fails to destroy
    a connection when [destroy_fails]. *)
Definition sample_sdk (rejects : list Driver.Event -> bool) (code : Z)
    (lookup_fails : list Driver.Event -> bool) (destroy_fails : bool)
    : Driver.Sdk :=
  {| Driver.sdk_connect := fun t => inr (length t);
     Driver.sdk_getByName :=
       fun t => if lookup_fails t then inl (error_with 500) else inr 0;
     Driver.sdk_startAndWait := fun t => inr tt;
     Driver.sdk_testConnection := fun t => inr tt;
     Driver.sdk_execute :=
       fun t => if rejects t then inl (error_with code) else inr (length t);
     Driver.sdk_fetchResult :=
       fun t => inr {| Driver.data := []; Driver.meta := [] |};
     Driver.sdk_streamResult := fun t => inr 0;
     Driver.sdk_metaPromise := fun t => inr [];
     Driver.sdk_destroy :=
       fun t => if destroy_fails then inl (error_with 500) else inr tt |}.

(** An engine that answers every call and returns [response] for every
    statement. *)
Definition answering_sdk (response : Driver.Response) : Driver.Sdk :=
  {| Driver.sdk_connect := fun t => inr (length t);
     Driver.sdk_getByName := fun t => inr 0;
     Driver.sdk_startAndWait := fun t => inr tt;
     Driver.sdk_testConnection := fun t => inr tt;
     Driver.sdk_execute := fun t => inr (length t);
     Driver.sdk_fetchResult := fun t => inr response;
     Driver.sdk_streamResult := fun t => inr 0;
     Driver.sdk_metaPromise := fun t => inr (Driver.meta response);
     Driver.sdk_destroy := fun t => inr tt |}.

(** Sample answers: two tables, the description of a table with two
    columns, and a description whose second row has no type. *)
Definition sample_tables : Driver.Response :=
  {| Driver.data :=
       [ {[ "table_name" := JsString "orders"; "schema" := JsString "public" ]};
         {[ "table_name" := JsString "users" ]} ];
     Driver.meta := [ {| Driver.name := "table_name"; Driver.type := "text" |} ] |}.

Definition sample_description : Driver.Response :=
  {| Driver.data :=
       [ {[ "column_name" := JsString "id"; "data_type" := JsString "long" ]};
         {[ "column_name" := JsString "tags";
            "data_type" := JsString "array(text)" ]} ];
     Driver.meta := [] |}.

Definition sample_broken_description : Driver.Response :=
  {| Driver.data :=
       [ {[ "column_name" := JsString "id"; "data_type" := JsString "long" ]};
         {[ "column_name" := JsString "tags" ]} ];
     Driver.meta := [] |}.

(** Only the first statement is rejected. *)
Definition first_statement (t : list Driver.Event) : bool :=
  bool_decide (length (executed t) = 1).

(** Every call is picked. *)
Definition always (t : list Driver.Event) : bool := true.

(** No call is picked. *)
Definition never (t : list Driver.Event) : bool := false.

(** The calls made once a statement has been submitted. *)
Definition after_a_statement (t : list Driver.Event) : bool :=
  negb (bool_decide (executed t = [])).

(** The reading of the 404 rule under which a retry follows whatever the
    engine-start sequence does: after a first attempt that failed with
    status 404 the call ends the way a second attempt made right after
    [ensureEngineRunning] ends. *)
Definition always_retries_after_404 (firebolt : Driver.Sdk) (query : string)
    (parameters : option (list JsValue)) (d : Driver.State) : Prop :=
  forall e d1,
    Driver.queryResponse_try firebolt query parameters d = (Driver.Throw e, d1) ->
    Driver.status_is e 404 = true ->
    Driver.queryResponse firebolt Driver.enough_fuel query parameters true d =
      Driver.queryResponse_try firebolt query parameters
        (Driver.ensureEngineRunning firebolt d1).2.

(** A driver that has not connected yet, configured for the engine
    [my_engine]. *)
Definition new_driver : Driver.State :=
  {| Driver.config :=
       {[ "readOnly" := JsBool true;
          "connection" := JsObject {[ "engineName" := JsString "my_engine" ]} ]};
     Driver.connection := None;
     Driver.promises := [];
     Driver.trace := [] |}.

(** The predicate on calls that holds of all of them. *)
Definition any_event (ev : Driver.Event) : Prop := True.

(** A call that submits a statement submits the text [query]. *)
Definition submits (query : string) (ev : Driver.Event) : Prop :=
  match ev with
  | Driver.EvExecute _ q _ => q = query
  | _ => True
  end.

(** [n] callers enter [getConnection] one after the other, none of them
    resumed yet: the promises they wait on, in the order of the calls. *)
Fixpoint enter_all (n : nat) : Driver.M (list Driver.PromiseId) :=
  match n with
  | O => mret []
  | S n =>
      p ← Driver.getConnection_call;
      ps ← enter_all n;
      mret (p :: ps)
  end.

(** The callers are resumed in turn; each gets the outcome of the promise
    it waits on. *)
Fixpoint resume_all (firebolt : Driver.Sdk) (ps : list Driver.PromiseId)
    (d : Driver.State)
    : list (Driver.Outcome Driver.Connection) * Driver.State :=
  match ps with
  | [] => ([], d)
  | p :: ps =>
      let (o, d1) := Driver.await firebolt p d in
      let (os, d2) := resume_all firebolt ps d1 in
      (o :: os, d2)
  end.

(** The connections destroyed in a log. *)
Definition destroyed (t : list Driver.Event) : list Driver.Connection :=
  omap (fun ev => match ev with
                  | Driver.EvDestroy connection => Some connection
                  | _ => None
                  end) t.

(** A driver that has acquired its connection from the engine. *)
Definition connected_driver (firebolt : Driver.Sdk) : Driver.State :=
  (Driver.getConnection firebolt new_driver).2.

(** The reading of idempotent release under which two calls in a row never
    fail: both return and no connection is cached afterwards. *)
Definition release_twice_ok (firebolt : Driver.Sdk) (d : Driver.State) : Prop :=
  exists d1 d2,
    Driver.release firebolt d = (Driver.Ok tt, d1)
    /\ Driver.release firebolt d1 = (Driver.Ok tt, d2)
    /\ Driver.connection d2 = None.

(** The member names a plain object inherits from [Object.prototype]. *)
Definition Object_prototype_names : list string :=
  [ "constructor"; "__defineGetter__"; "__defineSetter__"; "hasOwnProperty";
    "__lookupGetter__"; "__lookupSetter__"; "isPrototypeOf";
    "propertyIsEnumerable"; "toString"; "valueOf"; "__proto__";
    "toLocaleString" ].

(** The cached promise, if any, is one of the promises created. *)
Definition well_formed (d : Driver.State) : Prop :=
  forall p, Driver.connection d = Some p -> p < length (Driver.promises d).

(** A program that, from a well-formed state, returns or throws and leaves
    a well-formed state. *)
Definition safe {A} (m : Driver.M A) : Prop :=
  forall d, well_formed d -> (m d).1 <> Driver.Hang /\ well_formed (m d).2.

(** The reading of the qualifier rule under which the statement names what
    is left of the table name once the text up to and including its first
    dot is removed. *)
Definition strips_qualifier_prefix (tableName : string) : Prop :=
  forall qualifier rest,
    tableName = qualifier +:+ "." +:+ rest ->
    includes "." qualifier = false ->
    Driver.dropTable_statement tableName = "DROP TABLE " +:+ rest.

(** A string free of line terminators. *)
Fixpoint single_line (s : string) : bool :=
  match s with
  | EmptyString => true
  | String c rest => negb (TypeMapper.is_line_terminator c) && single_line rest
  end.

(** A program adds calls of total size at most [n] to the log, [size]
    being additive over the log. *)
Definition at_most {A} (size : list Driver.Event -> nat) (n : nat)
    (m : Driver.M A) : Prop :=
  forall d, exists evs,
    Driver.trace (m d).2 = Driver.trace d ++ evs /\ size evs <= n.

(** The numbers of statements submitted and of connect calls in a log. *)
Definition statements (t : list Driver.Event) : nat := length (executed t).

Definition connections (t : list Driver.Event) : nat := length (connects t).

(** The calls to the engine-management API in a log. *)
Definition engine_calls (t : list Driver.Event) : list Driver.Event :=
  omap (fun ev => match ev with
                  | Driver.EvGetByName _ | Driver.EvStartAndWait _ => Some ev
                  | _ => None
                  end) t.

(** No engine name is configured: the property is absent, or its value is
    falsy, the empty string for one. *)
Definition no_engine_name (d : Driver.State) : Prop :=
  to_boolean (get_prop (get (Driver.config d) "connection") "engineName") = false.

(** A program that, on a driver without an engine name, leaves the
    configuration alone and makes no call to the engine-management API. *)
Definition direct_mode {A} (m : Driver.M A) : Prop :=
  forall d, no_engine_name d ->
    Driver.config (m d).2 = Driver.config d
    /\ exists evs,
         Driver.trace (m d).2 = Driver.trace d ++ evs /\ engine_calls evs = [].

(** A driver configured without an engine name. *)
Definition direct_driver : Driver.State :=
  {| Driver.config := {[ "connection" := JsObject {[ "database" := JsString "db" ]} ]};
     Driver.connection := None;
     Driver.promises := [];
     Driver.trace := [] |}.

(** Between two calls the cache is empty or holds a connection that is
    ready. *)
Definition ready_or_absent (d : Driver.State) : Prop :=
  forall p, Driver.connection d = Some p ->
    exists c, Driver.promises d !! p = Some (Driver.Fulfilled c).

(** A program that, started between two calls, returns or throws and ends
    between two calls. *)
Definition settled {A} (m : Driver.M A) : Prop :=
  forall d, ready_or_absent d ->
    (m d).1 <> Driver.Hang /\ ready_or_absent (m d).2.

(** The calls of the public interface that reach the SDK or the cache. *)
Inductive Call : Type :=
  | CallQuery (query : string) (parameters : option (list JsValue))
  | CallStream (query : string) (parameters : list JsValue)
  | CallDownloadQueryResults (query : string) (values : list JsValue)
  | CallGetTablesQuery
  | CallTableColumnTypes (table : string)
  | CallDropTable (tableName : string)
  | CallTestConnection
  | CallRelease.

(** A call, its result dropped. *)
Definition perform (firebolt : Driver.Sdk)
    (BaseDriver_toGenericType : string -> string) (call : Call)
    : Driver.M unit :=
  match call with
  | CallQuery query parameters =>
      Driver.query firebolt query parameters;; mret tt
  | CallStream query parameters =>
      Driver.stream firebolt BaseDriver_toGenericType query parameters;; mret tt
  | CallDownloadQueryResults query values =>
      Driver.downloadQueryResults firebolt BaseDriver_toGenericType query values;;
      mret tt
  | CallGetTablesQuery => Driver.getTablesQuery firebolt;; mret tt
  | CallTableColumnTypes table =>
      Driver.tableColumnTypes firebolt BaseDriver_toGenericType table;; mret tt
  | CallDropTable tableName => Driver.dropTable firebolt tableName;; mret tt
  | CallTestConnection => Driver.testConnection firebolt
  | CallRelease => Driver.release firebolt
  end.

(** Calls made one after the other, each awaited before the next, whether
    it returned or threw: how each ended, and the driver at the end. *)
Fixpoint perform_all (firebolt : Driver.Sdk)
    (BaseDriver_toGenericType : string -> string) (calls : list Call)
    (d : Driver.State) : list (Driver.Outcome unit) * Driver.State :=
  match calls with
  | [] => ([], d)
  | call :: rest =>
      let (o, d1) := perform firebolt BaseDriver_toGenericType call d in
      let (os, d2) := perform_all firebolt BaseDriver_toGenericType rest d1 in
      (o :: os, d2)
  end.

(** * Properties *)

(** ** TypeMapper *)

Section TypeMapperFacts.
Import TypeMapper.

Variable BaseDriver_toGenericType : string -> string.

Lemma in_table_false (columnType : string) :
  FireboltTypeToGeneric !! columnType = None -> in_table columnType = false.
Proof.
  intros Hnone. unfold in_table. rewrite Hnone.
  apply bool_decide_eq_false. intros [x Hx]. discriminate.
Qed.

(** Whatever the wrapper branch does, the result is decided by the first
    lookup alone. *)
Lemma toGenericType_collapse (columnType : string) :
  toGenericType BaseDriver_toGenericType columnType =
    if in_table columnType then table_get columnType
    else JsString (BaseDriver_toGenericType columnType).
Proof.
  unfold toGenericType.
  destruct (in_table columnType) eqn:Hin; [reflexivity|].
  destruct (COMPLEX_TYPE_match columnType) as [[outer inner]|]; reflexivity.
Qed.

Lemma dot_plus_rparen_nonempty (s inner : string) :
  dot_plus_rparen s = Some inner -> inner <> "".
Proof.
  destruct s as [|c rest]; simpl; [discriminate|].
  destruct (is_line_terminator c); [discriminate|].
  destruct (dot_plus_rparen rest).
  - intros [= <-]. discriminate.
  - destruct rest as [|c' rest']; [discriminate|].
    destruct (Ascii.eqb_spec c' ")"%char) as [->|Hne].
    + intros [= <-]. discriminate.
    + destruct c' as [[] [] [] [] [] [] [] []]; try discriminate.
      exfalso. apply Hne. reflexivity.
Qed.

Lemma strip_prefix_Some (p s rest : string) :
  strip_prefix p s = Some rest -> s = p +:+ rest.
Proof.
  revert s. induction p as [|a p IH]; intros s; simpl.
  - intros [= ->]. reflexivity.
  - destruct s as [|b s]; [discriminate|].
    destruct (Ascii.eqb_spec a b) as [->|]; [|discriminate].
    intros H. rewrite (IH _ H). reflexivity.
Qed.

Lemma dot_plus_rparen_Some (s inner : string) :
  dot_plus_rparen s = Some inner ->
  exists post, s = inner +:+ ")" +:+ post.
Proof.
  revert inner. induction s as [|c rest IH]; intros inner; simpl.
  - discriminate.
  - destruct (is_line_terminator c); [discriminate|].
    destruct (dot_plus_rparen rest) as [inner'|].
    + intros [= <-]. destruct (IH _ eq_refl) as [post ->].
      exists post. reflexivity.
    + destruct rest as [|c' rest']; [discriminate|].
      destruct (Ascii.eqb_spec c' ")"%char) as [->|Hne].
      * intros [= <-]. exists rest'. reflexivity.
      * destruct c' as [[] [] [] [] [] [] [] []]; try discriminate.
        exfalso. apply Hne. reflexivity.
Qed.

Lemma COMPLEX_TYPE_here_Some (s outer inner : string) :
  COMPLEX_TYPE_here s = Some (outer, inner) ->
  (outer = "nullable" \/ outer = "array")
  /\ exists post, s = outer +:+ "(" +:+ inner +:+ ")" +:+ post.
Proof.
  unfold COMPLEX_TYPE_here.
  destruct (strip_prefix ("nullable" +:+ "(") s) as [rest|] eqn:Hn;
    cbn -[strip_prefix String.append].
  - apply strip_prefix_Some in Hn.
    destruct (dot_plus_rparen rest) as [inner'|] eqn:Hd;
      cbn -[strip_prefix String.append].
    + intros [= <- <-]. split; [by left|].
      apply dot_plus_rparen_Some in Hd.
      destruct Hd as [post ->]. exists post. rewrite Hn. reflexivity.
    + subst s. cbn. discriminate.
  - destruct (strip_prefix ("array" +:+ "(") s) as [rest|] eqn:Ha;
      cbn -[strip_prefix String.append]; [|discriminate].
    destruct (dot_plus_rparen rest) as [inner'|] eqn:Hd;
      cbn -[strip_prefix String.append]; [|discriminate].
    intros [= <- <-]. split; [by right|].
    apply strip_prefix_Some in Ha. apply dot_plus_rparen_Some in Hd.
    destruct Hd as [post ->]. exists post. rewrite Ha. reflexivity.
Qed.

(** A match of [COMPLEX_TYPE] is an occurrence of a wrapped type. *)
Lemma COMPLEX_TYPE_match_Some (s outer inner : string) :
  COMPLEX_TYPE_match s = Some (outer, inner) ->
  (outer = "nullable" \/ outer = "array")
  /\ inner <> ""
  /\ exists pre post, s = pre +:+ outer +:+ "(" +:+ inner +:+ ")" +:+ post.
Proof.
  induction s as [|c rest IH]; simpl.
  - destruct (COMPLEX_TYPE_here "") as [m|] eqn:Hh; [|discriminate].
    vm_compute in Hh. discriminate.
  - destruct (COMPLEX_TYPE_here (String c rest)) as [m|] eqn:Hh.
    + intros [= ->]. destruct (COMPLEX_TYPE_here_Some _ _ _ Hh) as [Ho [post Hs]].
      split; [exact Ho|]. split.
      * unfold COMPLEX_TYPE_here in Hh.
        repeat match type of Hh with
        | context [strip_prefix ?p ?s] =>
            destruct (strip_prefix p s) eqn:?;
            cbn -[strip_prefix String.append] in Hh
        | context [dot_plus_rparen ?s] =>
            let H := fresh "Hd" in
            destruct (dot_plus_rparen s) eqn:H;
            cbn -[strip_prefix String.append] in Hh;
            try (apply dot_plus_rparen_nonempty in H)
        end; try discriminate; congruence.
      * exists "", post. exact Hs.
    + intros Hm. destruct (IH Hm) as [Ho [Hne [pre [post ->]]]].
      split; [exact Ho|]. split; [exact Hne|].
      exists (String c pre), post. reflexivity.
Qed.

Lemma inherited_names_are_not_wrapped :
  Forall (fun key => COMPLEX_TYPE_match key = None) Object_prototype_names.
Proof. repeat constructor. Qed.

(** A wrapped type is never a key of the static table. *)
Lemma wrapped_is_not_a_key (s : string) (m : string * string) :
  COMPLEX_TYPE_match s = Some m -> FireboltTypeToGeneric !! s = None.
Proof.
  intros Hm. unfold FireboltTypeToGeneric.
  destruct (decide (s = "long")) as [->|Hne].
  - vm_compute in Hm. discriminate.
  - by apply lookup_singleton_ne.
Qed.

End TypeMapperFacts.

(** C5. A type string that is not a key of the static table and matches
    the wrapper pattern (it contains [nullable(X)] or [array(X)], [X] being
    the capture) is looked up a second time under its outer, wrapped
    spelling; the table entry of the captured inner type is the result only
    if that lookup hits, and the generic base mapping is the result
    otherwise.  As the outer string is not a key, the base mapping is what
    comes out. *)
Theorem toGenericType_wrapped_outer_lookup
    (BaseDriver_toGenericType : string -> string)
    (columnType outerType innerType : string) :
  TypeMapper.FireboltTypeToGeneric !! columnType = None ->
  TypeMapper.COMPLEX_TYPE_match columnType = Some (outerType, innerType) ->
  (outerType = "nullable" \/ outerType = "array")
  /\ (exists pre post,
        columnType = pre +:+ outerType +:+ "(" +:+ innerType +:+ ")" +:+ post)
  /\ TypeMapper.toGenericType BaseDriver_toGenericType columnType =
       (if TypeMapper.in_table columnType
        then TypeMapper.table_get innerType
        else JsString (BaseDriver_toGenericType columnType))
  /\ TypeMapper.toGenericType BaseDriver_toGenericType columnType =
       JsString (BaseDriver_toGenericType columnType).
Proof.
  intros Hkey Hmatch.
  destruct (COMPLEX_TYPE_match_Some _ _ _ Hmatch) as [Houter [_ Hshape]].
  split; [exact Houter|]. split; [exact Hshape|].
  unfold TypeMapper.toGenericType.
  rewrite (in_table_false _ Hkey), Hmatch. split; reflexivity.
Qed.

Lemma toGenericType_wrapped_outer_lookup_witness :
  TypeMapper.toGenericType (fun t => "text") "nullable(long)" = JsString "text".
Proof.
  apply (toGenericType_wrapped_outer_lookup (fun t => "text")
           "nullable(long)" "nullable" "long"); reflexivity.
Defined.

(** ** RowHydrator *)

Section HydrationFacts.
Import Driver.

Variable isNumberType : string -> bool.

Lemma getHydratedValue_numeric (value : JsValue) (column : Meta) :
  isNumberType (type column) = true -> value <> JsNull ->
  getHydratedValue isNumberType value column = JsString (template_string value).
Proof.
  intros Hnum Hnn. unfold getHydratedValue. rewrite Hnum.
  destruct value; try reflexivity. contradiction.
Qed.

Lemma getHydratedValue_null (column : Meta) :
  getHydratedValue isNumberType JsNull column = JsNull.
Proof. unfold getHydratedValue. by rewrite andb_false_r. Qed.

Lemma getHydratedValue_other (value : JsValue) (column : Meta) :
  isNumberType (type column) = false ->
  getHydratedValue isNumberType value column = value.
Proof. intros Hnum. unfold getHydratedValue. by rewrite Hnum. Qed.

(** The loop of [hydrateRow], started from any object. *)
Lemma hydrateRow_loop (row acc : Row) (meta : list Meta) (key : string) :
  foldl
    (fun (hydratedRow : Row) (column : Meta) =>
       <[name column := getHydratedValue isNumberType
                          (get row (name column)) column]> hydratedRow)
    acc meta !! key =
  match last_named key meta with
  | Some column => Some (getHydratedValue isNumberType (get row key) column)
  | None => acc !! key
  end.
Proof.
  revert acc. induction meta as [|column rest IH]; intros acc; simpl.
  - reflexivity.
  - rewrite IH. destruct (last_named key rest) as [c|]; [reflexivity|].
    destruct (decide (name column = key)) as [<-|Hne].
    + by rewrite lookup_insert_eq.
    + by rewrite lookup_insert_ne.
Qed.

Lemma hydrateRow_lookup (row : Row) (meta : list Meta) (key : string) :
  hydrateRow isNumberType row meta !! key =
    (fun column => getHydratedValue isNumberType (get row key) column)
      <$> last_named key meta.
Proof.
  unfold hydrateRow. rewrite hydrateRow_loop.
  destruct (last_named key meta); [reflexivity|]. apply lookup_empty.
Qed.

Lemma last_named_None (key : string) (meta : list Meta) :
  key ∉ name <$> meta -> last_named key meta = None.
Proof.
  induction meta as [|c rest IH]; simpl; [reflexivity|].
  rewrite not_elem_of_cons. intros [Hne Hrest].
  rewrite (IH Hrest). destruct (decide (name c = key)); congruence.
Qed.

(** With distinct column names every column has the last word on its own
    property. *)
Lemma last_named_NoDup (meta : list Meta) (column : Meta) :
  NoDup (name <$> meta) -> column ∈ meta ->
  last_named (name column) meta = Some column.
Proof.
  induction meta as [|c rest IH]; simpl.
  - intros _ Hin. by apply elem_of_nil in Hin.
  - rewrite NoDup_cons. intros [Hfresh Hnd] Hin.
    apply elem_of_cons in Hin as [->|Hin].
    + rewrite (last_named_None _ _ Hfresh). by rewrite decide_True.
    + by rewrite (IH Hnd Hin).
Qed.

End HydrationFacts.

(** C6, as the code has it.  [column] is the entry of [meta] that has the
    last word on its name, which with distinct column names is any entry
    of [meta], and its name is not one a plain object inherits.  In the
    hydrated row the value under that name is the string form of the raw
    value when the column is numeric and the value is not null: for an
    integer below 10^21 in magnitude its decimal numeral, from which the
    integer can be read back, and exponent notation from 10^21 on.  A null
    stays null, and the value of a column that is not numeric is the raw
    value itself. *)
Theorem hydrateRow_numeric_to_decimal_string
    (isNumberType : string -> bool) (row : Driver.Row)
    (meta : list Driver.Meta) (column : Driver.Meta) :
  Driver.name column ∉ Object_prototype_names ->
  last_named (Driver.name column) meta = Some column ->
  let raw := get row (Driver.name column) in
  let hydrated := Driver.hydrateRow isNumberType row meta !! Driver.name column in
  hydrated = Some (Driver.getHydratedValue isNumberType raw column)
  /\ (isNumberType (Driver.type column) = true -> raw <> JsNull ->
      hydrated = Some (JsString (template_string raw)))
  /\ (forall z, isNumberType (Driver.type column) = true -> raw = JsInt z ->
      (Z.abs z < 10 ^ 21)%Z ->
      hydrated = Some (JsString (pretty z))
      /\ forall z', pretty z' = pretty z -> z' = z)
  /\ (forall z, isNumberType (Driver.type column) = true -> raw = JsInt z ->
      (10 ^ 21 <= Z.abs z)%Z ->
      hydrated = Some (JsString (exponent_notation z)))
  /\ (raw = JsNull -> hydrated = Some JsNull)
  /\ (isNumberType (Driver.type column) = false -> hydrated = Some raw).
Proof.
  intros _ Hlast raw hydrated.
  assert (hydrated = Some (Driver.getHydratedValue isNumberType raw column)) as Hh.
  { unfold hydrated. rewrite hydrateRow_lookup, Hlast. reflexivity. }
  split; [exact Hh|]. rewrite Hh.
  split; [|split; [|split; [|split]]].
  - intros Hnum Hnn. by rewrite getHydratedValue_numeric.
  - intros z Hnum Hraw Hsmall. split.
    + rewrite getHydratedValue_numeric by (rewrite ?Hraw; done).
      rewrite Hraw. cbn [template_string]. unfold integer_string.
      by rewrite (proj2 (Z.ltb_lt _ _) Hsmall).
    + intros z' Hz. by apply (inj pretty).
  - intros z Hnum Hraw Hbig.
    rewrite getHydratedValue_numeric by (rewrite ?Hraw; done).
    rewrite Hraw. cbn [template_string]. unfold integer_string.
    by rewrite (proj2 (Z.ltb_ge _ _) Hbig).
  - intros ->. by rewrite getHydratedValue_null.
  - intros Hnum. by rewrite getHydratedValue_other.
Qed.

Lemma hydrateRow_numeric_to_decimal_string_witness :
  Driver.hydrateRow is_long sample_row [sample_column] !! "n"
  = Some (JsString "12345678901234567890").
Proof.
  assert ("n" ∉ Object_prototype_names) as Hown.
  { unfold Object_prototype_names. intros H.
    repeat (apply elem_of_cons in H as [H|H]; [discriminate H|]).
    by apply elem_of_nil in H. }
  destruct (hydrateRow_numeric_to_decimal_string is_long sample_row
              [sample_column] sample_column Hown eq_refl) as (_ & _ & H & _).
  apply (H 12345678901234567890%Z); [reflexivity | reflexivity | reflexivity].
Defined.

(** Two ways for a numeric column to end up otherwise.  A column whose
    name a later column bears too: the later one, here a text column,
    overwrites the property, and the number stays a number.  An integer of
    22 digits or more: its string is in exponent notation. *)
Lemma hydrateRow_not_always_decimal_string :
  (let meta := [sample_column;
                {| Driver.name := "n"; Driver.type := "text" |}] in
   let row : Driver.Row := {[ "n" := JsInt 5 ]} in
   sample_column ∈ meta
   /\ is_long (Driver.type sample_column) = true
   /\ get row (Driver.name sample_column) = JsInt 5
   /\ Driver.hydrateRow is_long row meta !! Driver.name sample_column =
        Some (JsInt 5))
  /\
  (let row : Driver.Row := {[ "n" := JsInt (10 ^ 21) ]} in
   is_long (Driver.type sample_column) = true
   /\ get row (Driver.name sample_column) = JsInt 1000000000000000000000
   /\ Driver.hydrateRow is_long row [sample_column] !! Driver.name sample_column =
        Some (JsString "1e+21")).
Proof.
  split.
  - intros meta row. split; [by left|].
    split; [reflexivity|]. split; [reflexivity|]. by vm_compute.
  - intros row. split; [reflexivity|]. split; [reflexivity|]. by vm_compute.
Qed.

(** ** Configuration *)

(** C10. A driver built from a configuration object without a [readOnly]
    property reports [readOnly() = true], the default; built from one that
    has the property, it reports the boolean coercion of the value given. *)
Theorem readOnly_defaults_to_true
    (getEnv : string -> JsValue -> JsValue)
    (assertDataSource : string -> JsValue) (version : string)
    (config : gmap string JsValue) (d : Driver.State) :
  Driver.constructor getEnv assertDataSource version config = Some d ->
  Driver.readOnly d =
    match config !! "readOnly" with
    | None => true
    | Some value => to_boolean value
    end.
Proof.
  unfold Driver.constructor, Driver.build_config.
  destruct (getEnv "dbUser" _) as [| | | |user| |]; try discriminate.
  cbn -[String.append includes]. intros [= <-].
  unfold Driver.readOnly, get. cbn [Driver.config].
  rewrite lookup_insert_ne by discriminate.
  rewrite lookup_union.
  destruct (config !! "readOnly") as [value|]; [reflexivity|].
  rewrite lookup_insert_eq. reflexivity.
Qed.

Lemma readOnly_defaults_to_true_witness :
  exists d,
    Driver.constructor sample_getEnv sample_assertDataSource "1.0.0" ∅ = Some d
    /\ Driver.readOnly d = true.
Proof.
  eexists. split; [reflexivity|].
  rewrite (readOnly_defaults_to_true sample_getEnv sample_assertDataSource
             "1.0.0" ∅ _ eq_refl).
  reflexivity.
Defined.

(** ** The log of SDK calls *)

Lemma executed_app (a b : list Driver.Event) :
  executed (a ++ b) = executed a ++ executed b.
Proof. apply omap_app. Qed.

Lemma executed_cons (ev : Driver.Event) (evs : list Driver.Event) :
  executed (ev :: evs) =
    match ev with
    | Driver.EvExecute _ query _ => query :: executed evs
    | _ => executed evs
    end.
Proof. by destruct ev. Qed.

Lemma connects_app (a b : list Driver.Event) :
  connects (a ++ b) = connects a ++ connects b.
Proof. apply omap_app. Qed.

Section TraceFacts.
Import Driver.

Variable firebolt : Sdk.

Variable Q : Event -> Prop.

Lemma emits_silent {A} (m : M A) :
  (forall d, trace (m d).2 = trace d) -> emits Q m.
Proof.
  intros H d. exists []. rewrite H, app_nil_r. split; [reflexivity|constructor].
Qed.

Lemma emits_ret {A} (a : A) : emits Q (mret a).
Proof. by apply emits_silent. Qed.

Lemma emits_throw {A} (e : Error) : emits Q (@throw A e).
Proof. by apply emits_silent. Qed.

Lemma emits_hang {A} : emits Q (@hang A).
Proof. by apply emits_silent. Qed.

Lemma emits_read {A} (f : State -> A) : emits Q (read f).
Proof. by apply emits_silent. Qed.

Lemma emits_set_connection (c : option PromiseId) : emits Q (set_connection c).
Proof. by apply emits_silent. Qed.

Lemma emits_new_promise : emits Q new_promise.
Proof. by apply emits_silent. Qed.

Lemma emits_await_sdk {A} (answer : list Event -> Error + A) :
  emits Q (await_sdk answer).
Proof.
  apply emits_silent. intros d. unfold await_sdk.
  by destruct (answer (trace d)).
Qed.

Lemma emits_issue (ev : Event) : Q ev -> emits Q (issue ev).
Proof.
  intros Hev d. exists [ev]. split; [reflexivity|]. by repeat constructor.
Qed.

Lemma emits_bind {A B} (m : M A) (k : A -> M B) :
  emits Q m -> (forall a, emits Q (k a)) -> emits Q (m ≫= k).
Proof.
  intros Hm Hk d. unfold mbind, M_bind, bind.
  destruct (Hm d) as [evs1 [Ht1 HQ1]].
  destruct (m d) as [[a|e|] d1]; simpl in *.
  - destruct (Hk a d1) as [evs2 [Ht2 HQ2]].
    exists (evs1 ++ evs2). rewrite Ht2, Ht1, app_assoc.
    split; [reflexivity|]. by apply Forall_app.
  - by exists evs1.
  - by exists evs1.
Qed.

Lemma emits_try_catch {A} (body : M A) (handler : Error -> M A) :
  emits Q body -> (forall e, emits Q (handler e)) ->
  emits Q (try_catch body handler).
Proof.
  intros Hm Hk d. unfold try_catch.
  destruct (Hm d) as [evs1 [Ht1 HQ1]].
  destruct (body d) as [[a|e|] d1]; simpl in *.
  - by exists evs1.
  - destruct (Hk e d1) as [evs2 [Ht2 HQ2]].
    exists (evs1 ++ evs2). rewrite Ht2, Ht1, app_assoc.
    split; [reflexivity|]. by apply Forall_app.
  - by exists evs1.
Qed.

Lemma emits_call_sdk {A} (ev : Event) (answer : list Event -> Error + A) :
  Q ev -> emits Q (call_sdk ev answer).
Proof.
  intros Hev. unfold call_sdk. apply emits_bind.
  - by apply emits_issue.
  - intros _. apply emits_await_sdk.
Qed.

Hypothesis Q_getByName : forall engineName, Q (EvGetByName engineName).
Hypothesis Q_startAndWait : forall engine, Q (EvStartAndWait engine).

Lemma emits_ensureEngineRunning : emits Q (ensureEngineRunning firebolt).
Proof.
  unfold ensureEngineRunning. apply emits_bind; [apply emits_read|].
  intros engineName. destruct (to_boolean engineName); [|apply emits_ret].
  apply emits_bind; [by apply emits_call_sdk|].
  intros engine. by apply emits_call_sdk.
Qed.

Lemma emits_initConnection_resume : emits Q (initConnection_resume firebolt).
Proof.
  unfold initConnection_resume. apply emits_try_catch.
  - apply emits_bind; [apply emits_await_sdk|]. intros c.
    apply emits_bind; [apply emits_ensureEngineRunning|]. intros _.
    apply emits_ret.
  - intros e. apply emits_bind; [apply emits_set_connection|].
    intros _. apply emits_throw.
Qed.

Lemma emits_settle (p : PromiseId) : emits Q (settle firebolt p).
Proof.
  intros d. unfold settle.
  destruct (promises d !! p) as [[|c|e]|];
    try (exists []; rewrite app_nil_r; split; [reflexivity|constructor]).
  destruct (emits_initConnection_resume d) as [evs [Ht HQ]].
  destruct (initConnection_resume firebolt d) as [[c|e|] d1]; by exists evs.
Qed.

Lemma emits_await (p : PromiseId) : emits Q (await firebolt p).
Proof.
  unfold await. apply emits_bind; [apply emits_settle|]. intros _.
  apply emits_bind; [apply emits_read|].
  intros [[|c|e]|]; auto using emits_ret, emits_throw, emits_hang.
  all: apply emits_hang.
Qed.

Hypothesis Q_connect : forall connectionOptions, Q (EvConnect connectionOptions).

Lemma emits_getConnection_call : emits Q getConnection_call.
Proof.
  unfold getConnection_call. apply emits_bind; [apply emits_read|].
  intros [p|]; [apply emits_ret|].
  apply emits_bind.
  - unfold initConnection. apply emits_bind; [apply emits_read|]. intros o.
    apply emits_bind; [by apply emits_issue|]. intros _. apply emits_new_promise.
  - intros p. apply emits_bind; [apply emits_set_connection|]. intros _.
    apply emits_ret.
Qed.

Lemma emits_getConnection : emits Q (getConnection firebolt).
Proof.
  unfold getConnection. apply emits_bind; [apply emits_getConnection_call|].
  intros p. apply emits_await.
Qed.

End TraceFacts.

(** ** The retry policy *)

Section RetryFacts.
Import Driver.

Variable firebolt : Sdk.
Variable BaseDriver_toGenericType : string -> string.

Lemma status_401_not_404 (e : Error) :
  status_is e 404 = true -> status_is e 401 = false.
Proof.
  unfold status_is. destruct (status e); try discriminate.
  intros H%Z.eqb_eq. subst. reflexivity.
Qed.

(** The engine-start sequence returns or throws. *)
Lemma ensureEngineRunning_settles (d : State) :
  (ensureEngineRunning firebolt d).1 <> Hang.
Proof.
  unfold ensureEngineRunning, call_sdk, await_sdk, issue, read.
  unfold mbind, M_bind, bind, mret, M_ret, ret. simpl.
  destruct (to_boolean _); simpl; [|discriminate].
  destruct (sdk_getByName firebolt _); simpl; [discriminate|].
  destruct (sdk_startAndWait firebolt _); simpl; discriminate.
Qed.

(** With retries disabled a call is its [try] block. *)
Lemma queryResponse_final_attempt fuel query parameters (d : State) :
  queryResponse firebolt (S fuel) query parameters false d =
    queryResponse_try firebolt query parameters d.
Proof.
  simpl. unfold try_catch.
  destruct (queryResponse_try firebolt query parameters d) as [[r|e|] d1];
    try reflexivity.
  by rewrite !andb_false_r.
Qed.

Lemma streamResponse_final_attempt fuel query parameters (d : State) :
  streamResponse firebolt BaseDriver_toGenericType (S fuel) query parameters
    false d =
    streamResponse_try firebolt BaseDriver_toGenericType query parameters d.
Proof.
  simpl. unfold try_catch.
  destruct (streamResponse_try _ _ query parameters d) as [[r|e|] d1];
    try reflexivity.
  by rewrite !andb_false_r.
Qed.

Lemma queryResponse_first_attempt fuel query parameters (d : State) :
  queryResponse firebolt (S (S fuel)) query parameters true d =
    after_first_attempt firebolt (queryResponse_try firebolt query parameters)
      (queryResponse_try firebolt query parameters d).
Proof.
  change (queryResponse firebolt (S (S fuel)) query parameters true d) with
    (try_catch (queryResponse_try firebolt query parameters)
       (fun error =>
          if status_is error 401 && true then
            set_connection None;;
            queryResponse firebolt (S fuel) query parameters false
          else if status_is error 404 && true then
            ensureEngineRunning firebolt;;
            queryResponse firebolt (S fuel) query parameters false
          else throw error) d).
  unfold try_catch, after_first_attempt.
  destruct (queryResponse_try firebolt query parameters d) as [[r|e|] d1];
    try reflexivity.
  rewrite !andb_true_r.
  destruct (status_is e 401).
  { unfold mbind, M_bind, bind, set_connection.
    apply queryResponse_final_attempt. }
  destruct (status_is e 404); [|reflexivity].
  unfold mbind, M_bind, bind.
  destruct (ensureEngineRunning firebolt d1) as [[[]|e'|] d2]; try reflexivity.
  apply queryResponse_final_attempt.
Qed.

Lemma streamResponse_first_attempt fuel query parameters (d : State) :
  streamResponse firebolt BaseDriver_toGenericType (S (S fuel)) query
    parameters true d =
    after_first_attempt firebolt
      (streamResponse_try firebolt BaseDriver_toGenericType query parameters)
      (streamResponse_try firebolt BaseDriver_toGenericType query parameters d).
Proof.
  change (streamResponse firebolt BaseDriver_toGenericType (S (S fuel)) query
            parameters true d) with
    (try_catch
       (streamResponse_try firebolt BaseDriver_toGenericType query parameters)
       (fun error =>
          if status_is error 401 && true then
            set_connection None;;
            streamResponse firebolt BaseDriver_toGenericType (S fuel) query
              parameters false
          else if status_is error 404 && true then
            ensureEngineRunning firebolt;;
            streamResponse firebolt BaseDriver_toGenericType (S fuel) query
              parameters false
          else throw error) d).
  unfold try_catch, after_first_attempt.
  destruct (streamResponse_try _ _ query parameters d) as [[r|e|] d1];
    try reflexivity.
  rewrite !andb_true_r.
  destruct (status_is e 401).
  { unfold mbind, M_bind, bind, set_connection.
    apply streamResponse_final_attempt. }
  destruct (status_is e 404); [|reflexivity].
  unfold mbind, M_bind, bind.
  destruct (ensureEngineRunning firebolt d1) as [[[]|e'|] d2]; try reflexivity.
  apply streamResponse_final_attempt.
Qed.

Lemma getConnection_call_fresh (d : State) :
  connection d = None ->
  getConnection_call d =
    (Ok (length (promises d)),
     {| config := config d;
        connection := Some (length (promises d));
        promises := promises d ++ [Pending];
        trace := trace d ++ [EvConnect (get (config d) "connection")] |}).
Proof.
  intros Hnone. unfold getConnection_call, initConnection, issue, new_promise.
  unfold read, set_connection, mbind, M_bind, bind. rewrite Hnone. reflexivity.
Qed.

Lemma getConnection_call_cached (d : State) (p : PromiseId) :
  connection d = Some p -> getConnection_call d = (Ok p, d).
Proof.
  intros Hsome. unfold getConnection_call, read, mbind, M_bind, bind.
  rewrite Hsome. reflexivity.
Qed.

(** Acquisition on an empty cache starts with a connect call. *)
Lemma getConnection_fresh_connects (d : State) :
  connection d = None ->
  exists rest,
    trace (getConnection firebolt d).2 =
      trace d ++ EvConnect (get (config d) "connection") :: rest.
Proof.
  intros Hnone. unfold getConnection, mbind, M_bind, bind.
  rewrite (getConnection_call_fresh d Hnone).
  match goal with |- context [await firebolt ?p ?d'] =>
    destruct (emits_await firebolt any_event ltac:(done) ltac:(done) p d')
      as [evs [Ht _]]
  end.
  exists evs. rewrite Ht. simpl. by rewrite <- app_assoc.
Qed.

Lemma bind_first_event {A B} (m : M A) (k : A -> M B) (d : State)
    (ev : Event) :
  (exists rest, trace (m d).2 = trace d ++ ev :: rest) ->
  (forall a, emits any_event (k a)) ->
  exists rest, trace ((m ≫= k) d).2 = trace d ++ ev :: rest.
Proof.
  intros [rest Hm] Hk. unfold mbind, M_bind, bind.
  destruct (m d) as [[a|e|] d1]; simpl in *; try by exists rest.
  destruct (Hk a d1) as [evs [Ht _]].
  exists (rest ++ evs). rewrite Ht, Hm. by rewrite <- app_assoc.
Qed.

Lemma queryResponse_try_fresh_connects query parameters (d : State) :
  connection d = None ->
  exists rest,
    trace (queryResponse_try firebolt query parameters d).2 =
      trace d ++ EvConnect (get (config d) "connection") :: rest.
Proof.
  intros Hnone. unfold queryResponse_try.
  apply bind_first_event; [by apply getConnection_fresh_connects|].
  intros c. apply emits_bind; [by apply emits_call_sdk|]. intros st.
  apply emits_bind; [by apply emits_call_sdk|]. intros r. apply emits_ret.
Qed.

Lemma streamResponse_try_fresh_connects query parameters (d : State) :
  connection d = None ->
  exists rest,
    trace (streamResponse_try firebolt BaseDriver_toGenericType query
             parameters d).2 =
      trace d ++ EvConnect (get (config d) "connection") :: rest.
Proof.
  intros Hnone. unfold streamResponse_try.
  apply bind_first_event; [by apply getConnection_fresh_connects|].
  intros c. apply emits_bind; [by apply emits_call_sdk|]. intros st.
  apply emits_bind; [by apply emits_call_sdk|]. intros rs.
  apply emits_bind; [apply emits_await_sdk|]. intros ms. apply emits_ret.
Qed.

End RetryFacts.

(** C1. When the first attempt of a top-level query, buffered or streamed,
    fails with status 401, the driver clears [this.connection] and runs the
    whole sequence a second time with retries disabled: the call ends the
    way that second attempt ends.  The second attempt starts on an empty
    cache, so its first step is a new connect call.  When it fails, with
    status 401 or any other, its error is the error of the call: there is no
    third attempt. *)
Theorem retry_once_on_401
    (firebolt : Driver.Sdk) (BaseDriver_toGenericType : string -> string)
    (fuel : nat) (query : string) (parameters : option (list JsValue))
    (streamParameters : list JsValue) (d : Driver.State) :
  2 <= fuel ->
  (forall e d1,
     Driver.queryResponse_try firebolt query parameters d = (Driver.Throw e, d1) ->
     Driver.status_is e 401 = true ->
     let d1' := Driver.set_connection_field None d1 in
     let second := Driver.queryResponse_try firebolt query parameters d1' in
     Driver.connection d1' = None
     /\ Driver.queryResponse firebolt fuel query parameters true d = second
     /\ (exists connectionOptions rest,
          Driver.trace second.2 =
            Driver.trace d1 ++ Driver.EvConnect connectionOptions :: rest)
     /\ (forall e2 d2, second = (Driver.Throw e2, d2) ->
          Driver.queryResponse firebolt fuel query parameters true d =
            (Driver.Throw e2, d2)
          /\ Driver.query firebolt query parameters d = (Driver.Throw e2, d2)))
  /\
  (forall e d1,
     Driver.streamResponse_try firebolt BaseDriver_toGenericType query
       streamParameters d = (Driver.Throw e, d1) ->
     Driver.status_is e 401 = true ->
     let d1' := Driver.set_connection_field None d1 in
     let second :=
       Driver.streamResponse_try firebolt BaseDriver_toGenericType query
         streamParameters d1' in
     Driver.connection d1' = None
     /\ Driver.streamResponse firebolt BaseDriver_toGenericType fuel query
          streamParameters true d = second
     /\ Driver.stream firebolt BaseDriver_toGenericType query
          streamParameters d = second
     /\ (exists connectionOptions rest,
          Driver.trace second.2 =
            Driver.trace d1 ++ Driver.EvConnect connectionOptions :: rest)
     /\ (forall e2 d2, second = (Driver.Throw e2, d2) ->
          Driver.stream firebolt BaseDriver_toGenericType query
            streamParameters d = (Driver.Throw e2, d2))).
Proof.
  intros Hfuel. destruct fuel as [|[|fuel]]; [lia|lia|]. split.
  - intros e d1 Hfirst H401 d1' second.
    assert (forall n, Driver.queryResponse firebolt (S (S n)) query parameters
                        true d = second) as Hcall.
    { intros n. rewrite queryResponse_first_attempt, Hfirst.
      unfold after_first_attempt. by rewrite H401. }
    split; [reflexivity|]. split; [apply Hcall|]. split.
    + destruct (queryResponse_try_fresh_connects firebolt query parameters d1'
                  eq_refl) as [rest Hrest].
      by exists (get (Driver.config d1') "connection"), rest.
    + intros e2 d2 Hsecond. split; [by rewrite Hcall|].
      unfold Driver.query, Driver.enough_fuel, mbind, Driver.M_bind, Driver.bind.
      by rewrite Hcall, Hsecond.
  - intros e d1 Hfirst H401 d1' second.
    assert (forall n, Driver.streamResponse firebolt BaseDriver_toGenericType
                        (S (S n)) query streamParameters true d = second)
      as Hcall.
    { intros n. rewrite streamResponse_first_attempt, Hfirst.
      unfold after_first_attempt. by rewrite H401. }
    split; [reflexivity|]. split; [apply Hcall|].
    split; [apply Hcall|]. split.
    + destruct (streamResponse_try_fresh_connects firebolt
                  BaseDriver_toGenericType query streamParameters d1' eq_refl)
        as [rest Hrest].
      by exists (get (Driver.config d1') "connection"), rest.
    + intros e2 d2 Hsecond. unfold Driver.stream, Driver.enough_fuel.
      by rewrite Hcall.
Qed.

Lemma retry_once_on_401_witness :
  let sdk := sample_sdk first_statement 401 never false in
  let result := Driver.queryResponse sdk 2 "SELECT 1" None true new_driver in
  result.1 = Driver.Ok {| Driver.data := []; Driver.meta := [] |}
  /\ executed (Driver.trace result.2) = ["SELECT 1"; "SELECT 1"]
  /\ length (connects (Driver.trace result.2)) = 2.
Proof.
  intros sdk result. unfold result.
  destruct (retry_once_on_401 sdk (fun t => t) 2 "SELECT 1" None [] new_driver
              (le_n 2)) as [Hquery _].
  edestruct (Hquery (error_with 401)) as (_ & Hcall & _);
    [vm_compute; reflexivity | reflexivity |].
  rewrite Hcall. vm_compute. auto.
Defined.

(** C2, as the code has it.  When the first attempt of a top-level query,
    buffered or streamed, fails with status 404, the driver calls
    [ensureEngineRunning].  When that returns, the whole sequence is run a
    second time with retries disabled and the call ends the way that second
    attempt ends, so a second failure, status 404 included, is the error of
    the call.  When [ensureEngineRunning] throws, its error is the error of
    the call and no second attempt is made. *)
Theorem engine_start_then_retry_on_404
    (firebolt : Driver.Sdk) (BaseDriver_toGenericType : string -> string)
    (fuel : nat) (query : string) (parameters : option (list JsValue))
    (streamParameters : list JsValue) (d : Driver.State) :
  2 <= fuel ->
  (forall e d1,
     Driver.queryResponse_try firebolt query parameters d = (Driver.Throw e, d1) ->
     Driver.status_is e 404 = true ->
     let started := Driver.ensureEngineRunning firebolt d1 in
     started.1 <> Driver.Hang
     /\ (forall d2, started = (Driver.Ok tt, d2) ->
          let second := Driver.queryResponse_try firebolt query parameters d2 in
          Driver.queryResponse firebolt fuel query parameters true d = second
          /\ (forall e2 d3, second = (Driver.Throw e2, d3) ->
               Driver.query firebolt query parameters d = (Driver.Throw e2, d3)))
     /\ (forall e' d2, started = (Driver.Throw e', d2) ->
          Driver.queryResponse firebolt fuel query parameters true d =
            (Driver.Throw e', d2)
          /\ executed (Driver.trace d2) = executed (Driver.trace d1)))
  /\
  (forall e d1,
     Driver.streamResponse_try firebolt BaseDriver_toGenericType query
       streamParameters d = (Driver.Throw e, d1) ->
     Driver.status_is e 404 = true ->
     let started := Driver.ensureEngineRunning firebolt d1 in
     started.1 <> Driver.Hang
     /\ (forall d2, started = (Driver.Ok tt, d2) ->
          let second :=
            Driver.streamResponse_try firebolt BaseDriver_toGenericType query
              streamParameters d2 in
          Driver.streamResponse firebolt BaseDriver_toGenericType fuel query
            streamParameters true d = second
          /\ Driver.stream firebolt BaseDriver_toGenericType query
               streamParameters d = second)
     /\ (forall e' d2, started = (Driver.Throw e', d2) ->
          Driver.streamResponse firebolt BaseDriver_toGenericType fuel query
            streamParameters true d = (Driver.Throw e', d2)
          /\ executed (Driver.trace d2) = executed (Driver.trace d1))).
Proof.
  intros Hfuel. destruct fuel as [|[|fuel]]; [lia|lia|].
  assert (forall d1 e' d2,
            Driver.ensureEngineRunning firebolt d1 = (Driver.Throw e', d2) ->
            executed (Driver.trace d2) = executed (Driver.trace d1)) as Hquiet.
  { intros d1 e' d2 Hstart.
    destruct (emits_ensureEngineRunning firebolt
                (fun ev => executed [ev] = []) ltac:(done) ltac:(done) d1)
      as [evs [Ht Hevs]].
    rewrite Hstart in Ht. simpl in Ht. rewrite Ht, executed_app.
    assert (executed evs = []) as ->; [|by rewrite app_nil_r].
    clear Ht. induction Hevs as [|ev evs Hev _ IH]; [done|].
    rewrite executed_cons. destruct ev; try discriminate; exact IH. }
  split.
  - intros e d1 Hfirst H404 started.
    assert (forall n, Driver.queryResponse firebolt (S (S n)) query parameters
                        true d =
                      after_first_attempt firebolt
                        (Driver.queryResponse_try firebolt query parameters)
                        (Driver.Throw e, d1)) as Hcall.
    { intros n. by rewrite queryResponse_first_attempt, Hfirst. }
    unfold after_first_attempt in Hcall.
    rewrite (status_401_not_404 e H404), H404 in Hcall. fold started in Hcall.
    split; [apply ensureEngineRunning_settles|]. split.
    + intros d2 Hstart second. rewrite Hstart in Hcall.
      split; [apply Hcall|]. intros e2 d3 Hsecond.
      unfold Driver.query, Driver.enough_fuel, mbind, Driver.M_bind, Driver.bind.
      rewrite Hcall. fold second. by rewrite Hsecond.
    + intros e' d2 Hstart. rewrite Hstart in Hcall.
      split; [apply Hcall|]. by apply (Hquiet d1 e').
  - intros e d1 Hfirst H404 started.
    assert (forall n, Driver.streamResponse firebolt BaseDriver_toGenericType
                        (S (S n)) query streamParameters true d =
                      after_first_attempt firebolt
                        (Driver.streamResponse_try firebolt
                           BaseDriver_toGenericType query streamParameters)
                        (Driver.Throw e, d1)) as Hcall.
    { intros n. by rewrite streamResponse_first_attempt, Hfirst. }
    unfold after_first_attempt in Hcall.
    rewrite (status_401_not_404 e H404), H404 in Hcall. fold started in Hcall.
    split; [apply ensureEngineRunning_settles|]. split.
    + intros d2 Hstart second. rewrite Hstart in Hcall.
      split; apply Hcall.
    + intros e' d2 Hstart. rewrite Hstart in Hcall.
      split; [apply Hcall|]. by apply (Hquiet d1 e').
Qed.

Lemma engine_start_then_retry_on_404_witness :
  let sdk := sample_sdk first_statement 404 never false in
  let result := Driver.queryResponse sdk 2 "SELECT 1" None true new_driver in
  result.1 = Driver.Ok {| Driver.data := []; Driver.meta := [] |}
  /\ executed (Driver.trace result.2) = ["SELECT 1"; "SELECT 1"]
  /\ length (connects (Driver.trace result.2)) = 1.
Proof.
  intros sdk result. unfold result.
  destruct (engine_start_then_retry_on_404 sdk (fun t => t) 2 "SELECT 1" None
              [] new_driver (le_n 2)) as [Hquery _].
  edestruct (Hquery (error_with 404)) as (_ & Hstarted & _);
    [vm_compute; reflexivity | reflexivity |].
  edestruct Hstarted as [Hcall _]; [vm_compute; reflexivity|].
  rewrite Hcall. vm_compute. auto.
Defined.

(** An engine that cannot be looked up once a statement has failed: the
    first attempt fails with status 404, the engine-start sequence fails,
    and the call ends with that failure after a single submission of the
    statement.  No second attempt is made. *)
Lemma no_retry_when_engine_start_fails :
  let sdk := sample_sdk always 404 after_a_statement false in
  let result := Driver.queryResponse sdk 2 "SELECT 1" None true new_driver in
  (Driver.queryResponse_try sdk "SELECT 1" None new_driver).1 =
    Driver.Throw (error_with 404)
  /\ result.1 = Driver.Throw (error_with 500)
  /\ executed (Driver.trace result.2) = ["SELECT 1"]
  /\ ~ always_retries_after_404 sdk "SELECT 1" None new_driver.
Proof.
  intros sdk result.
  split; [by vm_compute|]. split; [by vm_compute|]. split; [by vm_compute|].
  intros Hclaim.
  destruct (Driver.queryResponse_try sdk "SELECT 1" None new_driver)
    as [o d1] eqn:Hfirst.
  assert (o = Driver.Throw (error_with 404)) as ->.
  { change o with (o, d1).1. rewrite <- Hfirst. by vm_compute. }
  specialize (Hclaim (error_with 404) d1 Hfirst eq_refl).
  apply (f_equal fst) in Hclaim.
  assert (d1 = (Driver.queryResponse_try sdk "SELECT 1" None new_driver).2)
    as Hd1 by (by rewrite Hfirst).
  rewrite Hd1 in Hclaim. vm_compute in Hclaim. discriminate.
Qed.

(** ** DDL helpers *)

Lemma append_empty_r (s : string) : s +:+ "" = s.
Proof.
  induction s as [|c s IH]; [reflexivity|].
  change (String c (s +:+ "") = String c s). by rewrite IH.
Qed.

Section SplitFacts.

Variable sep : ascii.

Lemma includes_app (a b : string) :
  includes sep (a +:+ b) = includes sep a || includes sep b.
Proof.
  induction a as [|c a IH]; simpl; [reflexivity|].
  rewrite IH. by rewrite orb_assoc.
Qed.

Lemma split_not_nil (s : string) : split sep s <> [].
Proof.
  induction s as [|c s IH]; simpl; [discriminate|].
  destruct (Ascii.eqb c sep); [discriminate|].
  destruct (split sep s); [contradiction|discriminate].
Qed.

Lemma split_no_sep (s : string) :
  includes sep s = false -> split sep s = [s].
Proof.
  induction s as [|c s IH]; simpl; [reflexivity|].
  destruct (Ascii.eqb c sep); [discriminate|].
  simpl. intros H. by rewrite (IH H).
Qed.

Lemma split_segment (a rest : string) :
  includes sep a = false ->
  split sep (a +:+ String sep rest) = a :: split sep rest.
Proof.
  induction a as [|c a IH]; simpl.
  - intros _. by rewrite Ascii.eqb_refl.
  - destruct (Ascii.eqb c sep); [discriminate|].
    simpl. intros H. by rewrite (IH H).
Qed.

(** A string is its first segment followed by nothing or by a separator. *)
Lemma first_segment (s : string) :
  exists name rest,
    s = name +:+ rest /\ includes sep name = false
    /\ (rest = "" \/ exists more, rest = String sep more).
Proof.
  induction s as [|c s (name & rest & -> & Hname & Hrest)].
  - exists "", "". auto.
  - destruct (Ascii.eqb_spec c sep) as [->|Hne].
    + exists "", (String sep (name +:+ rest)). eauto.
    + exists (String c name), rest. split; [reflexivity|]. split; [|exact Hrest].
      simpl. rewrite Hname. by apply Ascii.eqb_neq in Hne as ->.
Qed.

Lemma split_first_segment (name rest : string) :
  includes sep name = false ->
  (rest = "" \/ exists more, rest = String sep more) ->
  split sep (name +:+ rest) !! 0 = Some name.
Proof.
  intros Hname [->|[more ->]].
  - rewrite append_empty_r. by rewrite split_no_sep.
  - by rewrite split_segment.
Qed.

Lemma includes_true_split (s : string) :
  includes sep s = true ->
  exists qualifier rest,
    s = qualifier +:+ String sep rest /\ includes sep qualifier = false.
Proof.
  destruct (first_segment s) as (name & rest & -> & Hname & [->|[more ->]]).
  - rewrite includes_app, Hname. discriminate.
  - eauto.
Qed.

End SplitFacts.

Section DropTableFacts.
Import Driver.

Lemma dropTable_statement_qualified (qualifier name rest : string) :
  includes "." qualifier = false ->
  includes "." name = false ->
  (rest = "" \/ exists more, rest = String "." more) ->
  dropTable_statement (qualifier +:+ "." +:+ name +:+ rest) =
    "DROP TABLE " +:+ name.
Proof.
  intros Hq Hn Hrest. unfold dropTable_statement.
  change (qualifier +:+ "." +:+ name +:+ rest)
    with (qualifier +:+ String "." (name +:+ rest)).
  rewrite includes_app. simpl includes at 2.
  rewrite orb_true_r, split_segment by done.
  change ((qualifier :: split "." (name +:+ rest)) !! 1)
    with (split "." (name +:+ rest) !! 0).
  by rewrite split_first_segment.
Qed.

(** Every name with a dot: the statement names the dot-free segment that
    follows the first dot. *)
Lemma dropTable_statement_dotted (tableName : string) :
  includes "." tableName = true ->
  exists qualifier name rest,
    tableName = qualifier +:+ "." +:+ name +:+ rest
    /\ includes "." qualifier = false
    /\ includes "." name = false
    /\ (rest = "" \/ exists more, rest = "." +:+ more)
    /\ dropTable_statement tableName = "DROP TABLE " +:+ name.
Proof.
  intros Hdot.
  destruct (includes_true_split "." tableName Hdot) as (qualifier & tail & Ht & Hq).
  destruct (first_segment "." tail) as (name & rest & -> & Hname & Hrest).
  exists qualifier, name, rest. repeat split; try done.
  rewrite Ht. by apply dropTable_statement_qualified.
Qed.

Lemma dropTable_statement_plain (tableName : string) :
  includes "." tableName = false ->
  dropTable_statement tableName = "DROP TABLE " +:+ tableName.
Proof. intros H. unfold dropTable_statement. by rewrite H. Qed.

Lemma drop_statement_inj (a b : string) :
  "DROP TABLE " +:+ a = "DROP TABLE " +:+ b -> a = b.
Proof. apply (inj (String.append "DROP TABLE ")). Qed.

Variable firebolt : Sdk.

Lemma emits_queryResponse_try query parameters :
  emits (submits query) (queryResponse_try firebolt query parameters).
Proof.
  unfold queryResponse_try.
  apply emits_bind; [by apply emits_getConnection|]. intros c.
  apply emits_bind; [by apply emits_call_sdk|]. intros st.
  apply emits_bind; [by apply emits_call_sdk|]. intros r. apply emits_ret.
Qed.

Lemma emits_queryResponse fuel query parameters retry :
  emits (submits query) (queryResponse firebolt fuel query parameters retry).
Proof.
  revert retry. induction fuel as [|fuel IH]; intros retry; simpl.
  - apply emits_hang.
  - apply emits_try_catch; [apply emits_queryResponse_try|]. intros e.
    destruct (status_is e 401 && retry).
    { apply emits_bind; [apply emits_set_connection|]. intros _. apply IH. }
    destruct (status_is e 404 && retry); [|apply emits_throw].
    apply emits_bind; [by apply emits_ensureEngineRunning|]. intros _. apply IH.
Qed.

Lemma executed_submits query (evs : list Event) :
  Forall (submits query) evs ->
  executed evs = replicate (length (executed evs)) query.
Proof.
  induction 1 as [|ev evs Hev _ IH]; [reflexivity|].
  rewrite executed_cons. destruct ev; try exact IH.
  simpl in Hev. subst. simpl. by rewrite <- IH.
Qed.

(** Whatever [query] submits to the engine is the text it was given. *)
Lemma query_executes_its_text text parameters (d : State) :
  exists k,
    executed (trace (query firebolt text parameters d).2) =
      executed (trace d) ++ replicate k text.
Proof.
  assert (emits (submits text) (query firebolt text parameters)) as Hq.
  { unfold query. apply emits_bind; [apply emits_queryResponse|].
    intros r. apply emits_ret. }
  destruct (Hq d) as [evs [Ht Hevs]].
  exists (length (executed evs)). rewrite Ht, executed_app.
  by rewrite <- executed_submits.
Qed.

End DropTableFacts.

(** C7, as the code has it.  For a table name with exactly one dot,
    [schema.table] with no dot in either part, [dropTable] leaves out the
    qualifier: the statement it runs is [DROP TABLE table], never
    [DROP TABLE schema.table], and this is the text of every statement the
    call submits to the engine. *)
Theorem dropTable_strips_schema_qualifier
    (firebolt : Driver.Sdk) (schema table : string) (d : Driver.State) :
  includes "." schema = false ->
  includes "." table = false ->
  let tableName := schema +:+ "." +:+ table in
  Driver.dropTable_statement tableName = "DROP TABLE " +:+ table
  /\ Driver.dropTable_statement tableName <> "DROP TABLE " +:+ tableName
  /\ Driver.dropTable firebolt tableName d =
       Driver.query firebolt ("DROP TABLE " +:+ table) (Some []) d
  /\ exists k,
       executed (Driver.trace (Driver.dropTable firebolt tableName d).2) =
         executed (Driver.trace d) ++ replicate k ("DROP TABLE " +:+ table).
Proof.
  intros Hschema Htable tableName.
  assert (Driver.dropTable_statement tableName = "DROP TABLE " +:+ table)
    as Hstmt.
  { unfold tableName. rewrite <- (append_empty_r table) at 1.
    apply dropTable_statement_qualified; auto. }
  split; [exact Hstmt|]. split; [|split].
  - rewrite Hstmt. intros Heq%drop_statement_inj.
    apply (f_equal (includes ".")) in Heq. unfold tableName in Heq.
    rewrite Htable, includes_app in Heq. simpl in Heq.
    rewrite orb_true_r in Heq. discriminate.
  - unfold Driver.dropTable. by rewrite Hstmt.
  - unfold Driver.dropTable. rewrite Hstmt. apply query_executes_its_text.
Qed.

Lemma dropTable_strips_schema_qualifier_witness :
  Driver.dropTable_statement "schema.table" = "DROP TABLE table".
Proof.
  apply (dropTable_strips_schema_qualifier (sample_sdk never 0 never false)
           "schema" "table" new_driver); reflexivity.
Defined.

(** A name with two dots: the statement names neither what is left of the
    name once the qualifier before the first dot is removed, nor its last
    segment. *)
Lemma dropTable_three_part_name :
  includes "." "a.b.c" = true
  /\ Driver.dropTable_statement "a.b.c" = "DROP TABLE b"
  /\ Driver.dropTable_statement "a.b.c" <> "DROP TABLE b.c"
  /\ Driver.dropTable_statement "a.b.c" <> "DROP TABLE c"
  /\ ~ strips_qualifier_prefix "a.b.c".
Proof.
  split; [reflexivity|]. split; [reflexivity|].
  split; [by vm_compute|]. split; [by vm_compute|].
  intros Hclaim. specialize (Hclaim "a" "b.c" eq_refl eq_refl).
  vm_compute in Hclaim. discriminate.
Qed.

(** C9. For a table name with more than one dot [dropTable] uses the
    segment between the first dot and the second one and nothing else:
    whatever follows the second dot is dropped, so [a.b.c] gives
    [DROP TABLE b], which is not the name with its first qualifier
    removed. *)
Theorem dropTable_keeps_second_segment_only
    (firebolt : Driver.Sdk) (first second later : string) (d : Driver.State) :
  includes "." first = false ->
  includes "." second = false ->
  let tableName := first +:+ "." +:+ second +:+ "." +:+ later in
  Driver.dropTable_statement tableName = "DROP TABLE " +:+ second
  /\ Driver.dropTable_statement tableName <>
       "DROP TABLE " +:+ second +:+ "." +:+ later
  /\ Driver.dropTable firebolt tableName d =
       Driver.query firebolt ("DROP TABLE " +:+ second) (Some []) d
  /\ exists k,
       executed (Driver.trace (Driver.dropTable firebolt tableName d).2) =
         executed (Driver.trace d) ++ replicate k ("DROP TABLE " +:+ second).
Proof.
  intros Hfirst Hsecond tableName.
  assert (Driver.dropTable_statement tableName = "DROP TABLE " +:+ second)
    as Hstmt.
  { apply dropTable_statement_qualified; eauto. }
  split; [exact Hstmt|]. split; [|split].
  - rewrite Hstmt. intros Heq%drop_statement_inj.
    apply (f_equal (includes ".")) in Heq.
    rewrite Hsecond, includes_app in Heq. simpl in Heq.
    rewrite orb_true_r in Heq. discriminate.
  - unfold Driver.dropTable. by rewrite Hstmt.
  - unfold Driver.dropTable. rewrite Hstmt. apply query_executes_its_text.
Qed.

Lemma dropTable_keeps_second_segment_only_witness :
  Driver.dropTable_statement "a.b.c" = "DROP TABLE b".
Proof.
  apply (dropTable_keeps_second_segment_only (sample_sdk never 0 never false)
           "a" "b" "c" new_driver); reflexivity.
Defined.

(** ** The connection cache *)

Section ConnectionFacts.
Import Driver.

Variable firebolt : Sdk.

(** The engine-start sequence touches nothing but the log. *)
Lemma ensureEngineRunning_state (d : State) :
  (ensureEngineRunning firebolt d).2 =
    set_trace (trace (ensureEngineRunning firebolt d).2) d.
Proof.
  unfold ensureEngineRunning, call_sdk, await_sdk, issue, read.
  unfold mbind, M_bind, bind, mret, M_ret, ret. simpl.
  destruct (to_boolean _); simpl; [|by destruct d].
  destruct (sdk_getByName firebolt _); simpl; [reflexivity|].
  destruct (sdk_startAndWait firebolt _); reflexivity.
Qed.

(** How a creation ends: with the connection, the cache untouched, or with
    the error of the step that failed, the cache cleared. *)
Lemma initConnection_resume_cases (d : State) :
  match sdk_connect firebolt (trace d) with
  | inl e =>
      initConnection_resume firebolt d = (Throw e, set_connection_field None d)
  | inr c =>
      match ensureEngineRunning firebolt d with
      | (Ok _, d') => initConnection_resume firebolt d = (Ok c, d')
      | (Throw e, d') =>
          initConnection_resume firebolt d =
            (Throw e, set_connection_field None d')
      | (Hang, _) => False
      end
  end.
Proof.
  unfold initConnection_resume, try_catch, await_sdk.
  unfold mbind, M_bind, bind, mret, M_ret, ret.
  destruct (sdk_connect firebolt (trace d)) as [e|c]; [reflexivity|].
  pose proof (ensureEngineRunning_settles firebolt d) as Hs.
  destruct (ensureEngineRunning firebolt d) as [[[]|e|] d']; try reflexivity.
  by apply Hs.
Qed.

(** Awaiting a settled promise gives its value and changes nothing. *)
Lemma await_fulfilled (p : PromiseId) (c : Connection) (d : State) :
  promises d !! p = Some (Fulfilled c) -> await firebolt p d = (Ok c, d).
Proof.
  intros Hp. unfold await, settle, read, mbind, M_bind, bind. by rewrite Hp, Hp.
Qed.

Lemma await_rejected (p : PromiseId) (e : Error) (d : State) :
  promises d !! p = Some (Rejected e) -> await firebolt p d = (Throw e, d).
Proof.
  intros Hp. unfold await, settle, read, mbind, M_bind, bind. by rewrite Hp, Hp.
Qed.

(** Awaiting a pending promise runs the creation behind it. *)
Lemma await_pending (p : PromiseId) (d : State) :
  promises d !! p = Some Pending ->
  await firebolt p d =
    match initConnection_resume firebolt d with
    | (Ok c, d') =>
        (Ok c, set_promises (<[p := Fulfilled c]> (promises d')) d')
    | (Throw e, d') =>
        (Throw e, set_promises (<[p := Rejected e]> (promises d')) d')
    | (Hang, d') => (Hang, d')
    end.
Proof.
  intros Hp. unfold await, settle, read, mbind, M_bind, bind. rewrite Hp.
  pose proof (initConnection_resume_cases d) as Hcases.
  pose proof (ensureEngineRunning_state d) as Hstate.
  assert (p < length (promises d)) as Hlt by (by eapply lookup_lt_Some).
  destruct (sdk_connect firebolt (trace d)) as [e|c].
  - rewrite Hcases. simpl. rewrite list_lookup_insert_eq by done. reflexivity.
  - destruct (ensureEngineRunning firebolt d) as [[[]|e|] d']; [| |done];
      rewrite Hcases; simpl in *; rewrite Hstate; simpl;
      rewrite list_lookup_insert_eq by done; reflexivity.
Qed.

End ConnectionFacts.

(** C4. A call of [getConnection] on an empty cache starts a creation and
    caches its pending promise.  When the creation fails, in the connect
    call or in the engine check that follows it, the call throws that
    failure, [this.connection] is absent again, and the promise is rejected
    with the failure, which is what any other waiter on it gets.  The next
    acquisition starts afresh: it makes a new connect call and caches a new
    pending promise. *)
Theorem failed_creation_clears_cache
    (firebolt : Driver.Sdk) (d : Driver.State) (e : Driver.Error) :
  Driver.connection d = None ->
  let p := length (Driver.promises d) in
  let d1 := (Driver.getConnection_call d).2 in
  (Driver.sdk_connect firebolt (Driver.trace d1) = inl e
   \/ exists c,
        Driver.sdk_connect firebolt (Driver.trace d1) = inr c
        /\ (Driver.ensureEngineRunning firebolt d1).1 = Driver.Throw e) ->
  Driver.connection d1 = Some p
  /\ Driver.promises d1 !! p = Some Driver.Pending
  /\ exists d3,
       Driver.getConnection firebolt d = (Driver.Throw e, d3)
       /\ Driver.connection d3 = None
       /\ Driver.promises d3 !! p = Some (Driver.Rejected e)
       /\ Driver.await firebolt p d3 = (Driver.Throw e, d3)
       /\ exists connectionOptions d4,
            Driver.getConnection_call d3 = (Driver.Ok (S p), d4)
            /\ Driver.trace d4 =
                 Driver.trace d3 ++ [Driver.EvConnect connectionOptions]
            /\ Driver.connection d4 = Some (S p)
            /\ Driver.promises d4 !! S p = Some Driver.Pending.
Proof.
  intros Hnone p d1 Hfail.
  assert (Driver.getConnection_call d = (Driver.Ok p, d1)) as Hcall.
  { unfold d1. by rewrite (getConnection_call_fresh d Hnone). }
  assert (Driver.promises d1 = Driver.promises d ++ [Driver.Pending]) as Hps.
  { unfold d1. by rewrite (getConnection_call_fresh d Hnone). }
  assert (Driver.promises d1 !! p = Some Driver.Pending) as Hpending.
  { rewrite Hps. by apply list_lookup_middle. }
  split. { unfold d1. by rewrite (getConnection_call_fresh d Hnone). }
  split; [exact Hpending|].
  assert (exists d2,
            Driver.initConnection_resume firebolt d1 = (Driver.Throw e, d2)
            /\ Driver.connection d2 = None
            /\ Driver.promises d2 = Driver.promises d1) as (d2 & Hres & Hc2 & Hp2).
  { pose proof (initConnection_resume_cases firebolt d1) as Hcases.
    pose proof (ensureEngineRunning_state firebolt d1) as Hstate.
    destruct Hfail as [Hconn|[c [Hconn Hengine]]]; rewrite Hconn in Hcases.
    - eexists. split; [exact Hcases|]. split; reflexivity.
    - destruct (Driver.ensureEngineRunning firebolt d1) as [o d']; simpl in *.
      subst o. eexists. split; [exact Hcases|]. rewrite Hstate.
      split; reflexivity. }
  exists (Driver.set_promises
            (<[p := Driver.Rejected e]> (Driver.promises d2)) d2).
  assert (p < length (Driver.promises d2)) as Hlt.
  { rewrite Hp2, Hps, length_app. simpl. lia. }
  assert (<[p := Driver.Rejected e]> (Driver.promises d2) !! p =
            Some (Driver.Rejected e)) as Hrej.
  { by apply list_lookup_insert_eq. }
  split.
  { unfold Driver.getConnection, mbind, Driver.M_bind, Driver.bind.
    rewrite Hcall, (await_pending firebolt p d1 Hpending), Hres. reflexivity. }
  split; [exact Hc2|]. split; [exact Hrej|].
  split. { by apply await_rejected. }
  eexists _, _. split.
  { rewrite getConnection_call_fresh by exact Hc2. simpl.
    rewrite length_insert, Hp2, Hps, length_app. simpl.
    replace (length (Driver.promises d) + 1) with (S p) by (unfold p; lia).
    reflexivity. }
  simpl. split; [reflexivity|]. split; [reflexivity|].
  apply list_lookup_middle.
  rewrite length_insert, ?Hp2, ?Hps, ?length_app. simpl. unfold p. lia.
Qed.

Lemma failed_creation_clears_cache_witness :
  let sdk := sample_sdk never 0 always false in
  let result := Driver.getConnection sdk new_driver in
  result.1 = Driver.Throw (error_with 500)
  /\ Driver.connection result.2 = None.
Proof.
  intros sdk result. unfold result.
  destruct (failed_creation_clears_cache sdk new_driver (error_with 500)
              eq_refl) as (_ & _ & d3 & Hget & Hcleared & _).
  { right. eexists. split; vm_compute; reflexivity. }
  rewrite Hget. auto.
Defined.

Section ConcurrentCallers.
Import Driver.

Variable firebolt : Sdk.

Lemma enter_all_cached (n : nat) (p : PromiseId) (d : State) :
  connection d = Some p -> enter_all n d = (Ok (replicate n p), d).
Proof.
  intros Hc. induction n as [|n IH]; [reflexivity|].
  simpl. unfold mbind, M_bind, bind.
  by rewrite (getConnection_call_cached d p Hc), IH.
Qed.

Lemma resume_all_settled (n : nat) (p : PromiseId) (d : State)
    (o : Outcome Connection) :
  await firebolt p d = (o, d) ->
  resume_all firebolt (replicate n p) d = (replicate n o, d).
Proof.
  intros Ha. induction n as [|n IH]; [reflexivity|].
  simpl. by rewrite Ha, IH.
Qed.

(** A creation, once started, makes no connect call. *)
Lemma initConnection_resume_connects (d : State) :
  connects (trace (initConnection_resume firebolt d).2) = connects (trace d).
Proof.
  destruct (emits_initConnection_resume firebolt
              (fun ev => connects [ev] = []) ltac:(done) ltac:(done) d)
    as [evs [Ht Hevs]].
  rewrite Ht, connects_app.
  assert (connects evs = []) as ->; [|by rewrite app_nil_r].
  clear Ht. induction Hevs as [|ev evs Hev _ IH]; [done|].
  change (ev :: evs) with ([ev] ++ evs). by rewrite connects_app, Hev, IH.
Qed.

End ConcurrentCallers.

(** C3. Any number of callers that enter [getConnection] while no
    connection is cached, none of them resumed before the last has entered:
    the first one makes the connect call and caches the pending promise,
    every caller waits on that one promise, no second connect call is made,
    and when the callers are resumed they all get the same outcome, hence
    the same connection instance when the creation succeeds. *)
Theorem concurrent_callers_share_one_connect
    (firebolt : Driver.Sdk) (n : nat) (d : Driver.State) :
  Driver.connection d = None ->
  1 <= n ->
  let p := length (Driver.promises d) in
  exists connectionOptions d1,
    enter_all n d = (Driver.Ok (replicate n p), d1)
    /\ Driver.trace d1 =
         Driver.trace d ++ [Driver.EvConnect connectionOptions]
    /\ Driver.connection d1 = Some p
    /\ Driver.promises d1 !! p = Some Driver.Pending
    /\ exists o d2,
         resume_all firebolt (replicate n p) d1 = (replicate n o, d2)
         /\ o <> Driver.Hang
         /\ connects (Driver.trace d2) =
              connects (Driver.trace d) ++ [connectionOptions]
         /\ (forall c, o = Driver.Ok c ->
              Driver.connection d2 = Some p
              /\ Driver.promises d2 !! p = Some (Driver.Fulfilled c)).
Proof.
  intros Hnone Hn p. destruct n as [|n]; [lia|].
  pose proof (getConnection_call_fresh d Hnone) as Hfirst. fold p in Hfirst.
  set (d1 := {| Driver.config := Driver.config d;
                Driver.connection := Some p;
                Driver.promises := Driver.promises d ++ [Driver.Pending];
                Driver.trace :=
                  Driver.trace d ++
                  [Driver.EvConnect (get (Driver.config d) "connection")] |})
    in *.
  assert (Driver.promises d1 !! p = Some Driver.Pending) as Hpending.
  { by apply list_lookup_middle. }
  exists (get (Driver.config d) "connection"), d1.
  split.
  { simpl. unfold mbind, Driver.M_bind, Driver.bind.
    by rewrite Hfirst, (enter_all_cached n p d1 eq_refl). }
  split; [reflexivity|]. split; [reflexivity|]. split; [exact Hpending|].
  pose proof (await_pending firebolt p d1 Hpending) as Hawait.
  pose proof (initConnection_resume_cases firebolt d1) as Hcases.
  pose proof (initConnection_resume_connects firebolt d1) as Hconnects.
  pose proof (ensureEngineRunning_state firebolt d1) as Hstate.
  assert (p < length (Driver.promises d1)) as Hlt by (by eapply lookup_lt_Some).
  assert (connects (Driver.trace d1) =
            connects (Driver.trace d) ++ [get (Driver.config d) "connection"])
    as Hone by apply connects_app.
  destruct (Driver.initConnection_resume firebolt d1) as [[c|e|] d'] eqn:Hres.
  - assert (Driver.connection d' = Some p
            /\ Driver.promises d' = Driver.promises d1) as [Hc' Hp'].
    { destruct (Driver.sdk_connect firebolt (Driver.trace d1)); [congruence|].
      destruct (Driver.ensureEngineRunning firebolt d1) as [[[]|?|] d''];
        try congruence; [|done].
      injection Hcases as _ <-. simpl in Hstate. by rewrite Hstate. }
    assert (<[p := Driver.Fulfilled c]> (Driver.promises d') !! p =
              Some (Driver.Fulfilled c)) as Hful.
    { apply list_lookup_insert_eq. by rewrite Hp'. }
    eexists (Driver.Ok c), _. split.
    { simpl. rewrite Hawait.
      erewrite resume_all_settled; [reflexivity|]. by apply await_fulfilled. }
    split; [discriminate|]. split; [simpl in *; congruence|].
    intros c0 [= <-]. split; [exact Hc'|exact Hful].
  - assert (Driver.promises d' = Driver.promises d1) as Hp'.
    { destruct (Driver.sdk_connect firebolt (Driver.trace d1)).
      - by injection Hcases as _ ->.
      - destruct (Driver.ensureEngineRunning firebolt d1) as [[[]|?|] d''];
          try congruence; [|done].
        injection Hcases as _ ->. simpl in *. by rewrite Hstate. }
    assert (<[p := Driver.Rejected e]> (Driver.promises d') !! p =
              Some (Driver.Rejected e)) as Hrej.
    { apply list_lookup_insert_eq. by rewrite Hp'. }
    eexists (Driver.Throw e), _. split.
    { simpl. rewrite Hawait.
      erewrite resume_all_settled; [reflexivity|]. by apply await_rejected. }
    split; [discriminate|]. split; [simpl in *; congruence|].
    intros c0 [=].
  - exfalso. destruct (Driver.sdk_connect firebolt (Driver.trace d1));
      [congruence|].
    destruct (Driver.ensureEngineRunning firebolt d1) as [[[]|?|] d''];
      congruence || done.
Qed.

Lemma concurrent_callers_share_one_connect_witness :
  let sdk := sample_sdk never 0 never false in
  exists connectionOptions d1 o d2,
    enter_all 3 new_driver = (Driver.Ok [0; 0; 0], d1)
    /\ resume_all sdk [0; 0; 0] d1 = ([o; o; o], d2)
    /\ connects (Driver.trace d2) = [connectionOptions].
Proof.
  intros sdk.
  destruct (concurrent_callers_share_one_connect sdk 3 new_driver eq_refl
              ltac:(lia))
    as (opts & d1 & Henter & _ & _ & _ & o & d2 & Hresume & _ & Hconnects & _).
  exists opts, d1, o, d2. split; [exact Henter|]. split; [exact Hresume|].
  exact Hconnects.
Defined.

Section ReleaseFacts.
Import Driver.

Variable firebolt : Sdk.

Lemma destroyed_app (a b : list Event) :
  destroyed (a ++ b) = destroyed a ++ destroyed b.
Proof. apply omap_app. Qed.

Lemma release_no_connection (d : State) :
  connection d = None -> release firebolt d = (Ok tt, d).
Proof.
  intros Hnone. unfold release, read, mbind, M_bind, bind. by rewrite Hnone.
Qed.

(** With a connection cached and ready, [release] destroys it; the cache is
    cleared when that succeeds and kept when it fails. *)
Lemma release_connected (d : State) (p : PromiseId) (c : Connection) :
  connection d = Some p ->
  promises d !! p = Some (Fulfilled c) ->
  let d' := set_trace (trace d ++ [EvDestroy c]) d in
  release firebolt d =
    match sdk_destroy firebolt (trace d') with
    | inr _ => (Ok tt, set_connection_field None d')
    | inl e => (Throw e, d')
    end.
Proof.
  intros Hc Hp d'. unfold release, read, mbind, M_bind, bind. rewrite Hc.
  rewrite (await_fulfilled firebolt p c d Hp).
  unfold call_sdk, issue, await_sdk, set_connection, mbind, M_bind, bind.
  fold d'. by destruct (sdk_destroy firebolt (trace d')) as [e|[]].
Qed.

(** With a creation in flight [release] waits for it; when the creation
    fails, so does [release]. *)
Lemma release_creation_fails (d d2 : State) (p : PromiseId) (e : Error) :
  connection d = Some p ->
  promises d !! p = Some Pending ->
  initConnection_resume firebolt d = (Throw e, d2) ->
  release firebolt d =
    (Throw e, set_promises (<[p := Rejected e]> (promises d2)) d2).
Proof.
  intros Hc Hp Hres. unfold release, read, mbind, M_bind, bind. rewrite Hc.
  by rewrite (await_pending firebolt p d Hp), Hres.
Qed.

(** With a creation in flight that succeeds, [release] waits for it and
    then does what it does with a connection that is ready: one destroy
    call for the new connection, the cache cleared when that succeeds and
    kept, with the promise fulfilled, when it fails. *)
Lemma release_creation_succeeds (d d2 : State) (p : PromiseId) (c : Connection) :
  connection d = Some p ->
  promises d !! p = Some Pending ->
  initConnection_resume firebolt d = (Ok c, d2) ->
  let d3 := set_promises (<[p := Fulfilled c]> (promises d2)) d2 in
  let d' := set_trace (trace d3 ++ [EvDestroy c]) d3 in
  release firebolt d =
    match sdk_destroy firebolt (trace d') with
    | inr _ => (Ok tt, set_connection_field None d')
    | inl e => (Throw e, d')
    end
  /\ connection d' = Some p
  /\ promises d' !! p = Some (Fulfilled c)
  /\ destroyed (trace d') = destroyed (trace d) ++ [c].
Proof.
  intros Hc Hp Hres d3 d'.
  assert (p < length (promises d)) as Hlt by (by eapply lookup_lt_Some).
  assert (connection d2 = connection d /\ promises d2 = promises d) as [Hc2 Hp2].
  { pose proof (initConnection_resume_cases firebolt d) as Hcases.
    pose proof (ensureEngineRunning_state firebolt d) as Hstate.
    destruct (sdk_connect firebolt (trace d)) as [e|c0]; [congruence|].
    destruct (ensureEngineRunning firebolt d) as [[[]|e|] d0]; [|congruence|done].
    rewrite Hcases in Hres. injection Hres as _ <-.
    simpl in Hstate. rewrite Hstate. by split. }
  assert (destroyed (trace d2) = destroyed (trace d)) as Hd2.
  { destruct (emits_initConnection_resume firebolt
                (fun ev => destroyed [ev] = []) ltac:(done) ltac:(done) d)
      as [evs [Ht Hevs]].
    rewrite Hres in Ht. simpl in Ht. rewrite Ht, destroyed_app.
    assert (destroyed evs = []) as ->; [|by rewrite app_nil_r].
    clear Ht. induction Hevs as [|ev evs Hev _ IH]; [done|].
    change (ev :: evs) with ([ev] ++ evs). by rewrite destroyed_app, Hev, IH. }
  split; [|split; [|split]].
  - unfold release, read, mbind, M_bind, bind. rewrite Hc.
    rewrite (await_pending firebolt p d Hp), Hres.
    unfold call_sdk, issue, await_sdk, set_connection, mbind, M_bind, bind.
    fold d3. fold d'. by destruct (sdk_destroy firebolt (trace d')) as [e|[]].
  - simpl. by rewrite Hc2.
  - simpl. rewrite Hp2. by apply list_lookup_insert_eq.
  - simpl. by rewrite destroyed_app, Hd2.
Qed.

(** A cached promise that was rejected makes [release] throw its error. *)
Lemma release_creation_failed (d : State) (p : PromiseId) (e : Error) :
  connection d = Some p ->
  promises d !! p = Some (Rejected e) ->
  release firebolt d = (Throw e, d).
Proof.
  intros Hc Hp. unfold release, read, mbind, M_bind, bind. rewrite Hc.
  by rewrite (await_rejected firebolt p e d Hp).
Qed.

(** Waiting for the connection destroys nothing. *)
Lemma await_destroys_nothing (p : PromiseId) (d : State) :
  exists evs,
    trace (await firebolt p d).2 = trace d ++ evs /\ destroyed evs = [].
Proof.
  destruct (emits_await firebolt (fun ev => destroyed [ev] = [])
              ltac:(done) ltac:(done) p d) as [evs [Ht Hevs]].
  exists evs. split; [exact Ht|].
  clear Ht. induction Hevs as [|ev evs Hev _ IH]; [done|].
  change (ev :: evs) with ([ev] ++ evs). by rewrite destroyed_app, Hev, IH.
Qed.

Lemma release_returns (d d1 : State) :
  release firebolt d = (Ok tt, d1) -> connection d1 = None.
Proof.
  unfold release, read, mbind, M_bind, bind.
  destruct (connection d) as [p|] eqn:Hc; [|by intros [= <-]].
  destruct (await firebolt p d) as [[c|e|] d2]; try discriminate.
  unfold call_sdk, issue, await_sdk, set_connection, mbind, M_bind, bind.
  destruct (sdk_destroy firebolt _) as [e|[]]; try discriminate.
  by intros [= <-].
Qed.

Lemma release_destroys_at_most_once (d : State) :
  exists evs,
    trace (release firebolt d).2 = trace d ++ evs
    /\ length (destroyed evs) <= 1
    /\ (connection d = None -> evs = []).
Proof.
  unfold release, read, mbind, M_bind, bind.
  destruct (connection d) as [p|] eqn:Hc.
  2:{ exists []. split; [simpl; by rewrite app_nil_r|].
      split; [simpl; lia|done]. }
  destruct (await_destroys_nothing p d) as [evs [Ht Hevs]].
  destruct (await firebolt p d) as [[c|e|] d2]; simpl in Ht.
  - exists (evs ++ [EvDestroy c]). split; [|split; [|done]].
    + unfold call_sdk, issue, await_sdk, set_connection, mbind, M_bind, bind.
      simpl. destruct (sdk_destroy firebolt _) as [e|[]]; simpl;
        by rewrite Ht, app_assoc.
    + rewrite destroyed_app, Hevs. simpl. lia.
  - exists evs. rewrite Hevs. simpl. split; [done|]. split; [lia|done].
  - exists evs. rewrite Hevs. simpl. split; [done|]. split; [lia|done].
Qed.

End ReleaseFacts.

(** C8, as the code has it.  A call of [release] with no connection cached
    returns and changes nothing.  A call that returns leaves no connection
    cached, so a call right after it returns too and changes nothing.  With
    a connection cached and ready, [release] makes one destroy call for it;
    the cache is cleared when that call succeeds, and when it fails
    [release] throws its error and the connection stays cached.  With a
    creation still in flight [release] waits for it: when the creation
    succeeds, [release] makes one destroy call for the new connection, and
    that call decides as before, the connection staying cached and ready
    when it fails; when the creation fails, or has failed, [release] throws
    its error.  No call of [release] destroys more than one connection, and
    none without a cached one destroys any. *)
Theorem release_idempotent_once_returned
    (firebolt : Driver.Sdk) (d : Driver.State) :
  (Driver.connection d = None -> Driver.release firebolt d = (Driver.Ok tt, d))
  /\ (forall d1,
        Driver.release firebolt d = (Driver.Ok tt, d1) ->
        Driver.connection d1 = None
        /\ Driver.release firebolt d1 = (Driver.Ok tt, d1))
  /\ (forall p c,
        Driver.connection d = Some p ->
        Driver.promises d !! p = Some (Driver.Fulfilled c) ->
        let d' := Driver.set_trace (Driver.trace d ++ [Driver.EvDestroy c]) d in
        Driver.release firebolt d =
          match Driver.sdk_destroy firebolt (Driver.trace d') with
          | inr _ => (Driver.Ok tt, Driver.set_connection_field None d')
          | inl e => (Driver.Throw e, d')
          end)
  /\ (forall p c d2,
        Driver.connection d = Some p ->
        Driver.promises d !! p = Some Driver.Pending ->
        Driver.initConnection_resume firebolt d = (Driver.Ok c, d2) ->
        let d3 :=
          Driver.set_promises
            (<[p := Driver.Fulfilled c]> (Driver.promises d2)) d2 in
        let d' := Driver.set_trace (Driver.trace d3 ++ [Driver.EvDestroy c]) d3 in
        Driver.release firebolt d =
          match Driver.sdk_destroy firebolt (Driver.trace d') with
          | inr _ => (Driver.Ok tt, Driver.set_connection_field None d')
          | inl e => (Driver.Throw e, d')
          end
        /\ Driver.connection d' = Some p
        /\ Driver.promises d' !! p = Some (Driver.Fulfilled c)
        /\ destroyed (Driver.trace d') = destroyed (Driver.trace d) ++ [c])
  /\ (forall p e d2,
        Driver.connection d = Some p ->
        Driver.promises d !! p = Some Driver.Pending ->
        Driver.initConnection_resume firebolt d = (Driver.Throw e, d2) ->
        Driver.release firebolt d =
          (Driver.Throw e,
           Driver.set_promises
             (<[p := Driver.Rejected e]> (Driver.promises d2)) d2))
  /\ (forall p e,
        Driver.connection d = Some p ->
        Driver.promises d !! p = Some (Driver.Rejected e) ->
        Driver.release firebolt d = (Driver.Throw e, d))
  /\ (exists evs,
        Driver.trace (Driver.release firebolt d).2 = Driver.trace d ++ evs
        /\ length (destroyed evs) <= 1
        /\ (Driver.connection d = None -> evs = [])).
Proof.
  split; [apply release_no_connection|].
  split; [|split; [|split; [|split; [|split]]]].
  - intros d1 Hret. pose proof (release_returns firebolt d d1 Hret) as Hnone.
    split; [exact Hnone|]. by apply release_no_connection.
  - intros p c. apply release_connected.
  - intros p c d2. apply release_creation_succeeds.
  - intros p e d2. apply release_creation_fails.
  - intros p e. apply release_creation_failed.
  - apply release_destroys_at_most_once.
Qed.

Lemma release_idempotent_once_returned_witness :
  let sdk := sample_sdk never 0 never false in
  (exists d1,
     Driver.release sdk (connected_driver sdk) = (Driver.Ok tt, d1)
     /\ Driver.connection d1 = None
     /\ Driver.release sdk d1 = (Driver.Ok tt, d1)
     /\ destroyed (Driver.trace d1) = [1])
  /\ (let d := (Driver.getConnection_call new_driver).2 in
      exists d1,
        Driver.promises d !! 0 = Some Driver.Pending
        /\ Driver.release sdk d = (Driver.Ok tt, d1)
        /\ Driver.connection d1 = None
        /\ destroyed (Driver.trace d1) = [1]).
Proof.
  intros sdk. split.
  - destruct (release_idempotent_once_returned sdk (connected_driver sdk))
      as (_ & Htwice & _).
    eexists. split; [vm_compute; reflexivity|].
    edestruct Htwice as [Hnone Hagain]; [vm_compute; reflexivity|].
    split; [exact Hnone|]. split; [exact Hagain|]. by vm_compute.
  - intros d.
    destruct (release_idempotent_once_returned sdk d)
      as (_ & _ & _ & Hflight & _).
    edestruct (Hflight 0) as (Hrelease & _);
      [reflexivity | reflexivity | vm_compute; reflexivity |].
    eexists. split; [reflexivity|].
    split; [rewrite Hrelease; vm_compute; reflexivity|].
    split; by vm_compute.
Defined.

(** Two ways for [release] to throw.  An engine that fails to destroy
    connections: on a driver whose connection is cached [release] throws,
    and the connection is still cached afterwards.  A creation in flight
    that fails: [release], waiting for it, throws its error.  Either way two
    calls in a row do not both return. *)
Lemma release_fails_when_destroy_fails :
  (let sdk := sample_sdk never 0 never true in
   let d := connected_driver sdk in
   Driver.connection d = Some 0
   /\ Driver.promises d !! 0 = Some (Driver.Fulfilled 1)
   /\ (Driver.release sdk d).1 = Driver.Throw (error_with 500)
   /\ Driver.connection (Driver.release sdk d).2 = Some 0
   /\ ~ release_twice_ok sdk d)
  /\
  (let sdk := sample_sdk never 0 always false in
   let d := (Driver.getConnection_call new_driver).2 in
   Driver.connection d = Some 0
   /\ Driver.promises d !! 0 = Some Driver.Pending
   /\ (Driver.release sdk d).1 = Driver.Throw (error_with 500)
   /\ ~ release_twice_ok sdk d).
Proof.
  split.
  - intros sdk d.
    split; [by vm_compute|]. split; [by vm_compute|].
    split; [by vm_compute|]. split; [by vm_compute|].
    intros (d1 & d2 & Hfirst & _).
    apply (f_equal fst) in Hfirst. vm_compute in Hfirst. discriminate.
  - intros sdk d.
    split; [by vm_compute|]. split; [by vm_compute|]. split; [by vm_compute|].
    intros (d1 & d2 & Hfirst & _).
    apply (f_equal fst) in Hfirst. vm_compute in Hfirst. discriminate.
Qed.

(** ** Every call settles *)

Section Settling.
Import Driver.

Variable firebolt : Sdk.
Variable BaseDriver_toGenericType : string -> string.

Lemma safe_unchanged {A} (m : M A) :
  (forall d, (m d).1 <> Hang /\ (m d).2 = d) -> safe m.
Proof. intros H d Hwf. destruct (H d) as [Ho ->]. by split. Qed.

Lemma safe_ret {A} (a : A) : safe (mret a).
Proof. apply safe_unchanged. by split. Qed.

Lemma safe_throw {A} (e : Error) : safe (@throw A e).
Proof. apply safe_unchanged. by split. Qed.

Lemma safe_read {A} (f : State -> A) : safe (read f).
Proof. apply safe_unchanged. by split. Qed.

Lemma safe_await_sdk {A} (answer : list Event -> Error + A) :
  safe (await_sdk answer).
Proof.
  apply safe_unchanged. intros d. unfold await_sdk.
  by destruct (answer (trace d)).
Qed.

Lemma safe_issue (ev : Event) : safe (issue ev).
Proof. intros d Hwf. split; [discriminate|exact Hwf]. Qed.

Lemma safe_clear_connection : safe (set_connection None).
Proof. intros d Hwf. split; [discriminate|]. intros p [=]. Qed.

Lemma safe_bind {A B} (m : M A) (k : A -> M B) :
  safe m -> (forall a, safe (k a)) -> safe (m ≫= k).
Proof.
  intros Hm Hk d Hwf. unfold mbind, M_bind, bind.
  destruct (Hm d Hwf) as [Ho Hwf1].
  destruct (m d) as [[a|e|] d1]; simpl in *; [|by split|done].
  by apply Hk.
Qed.

Lemma safe_try_catch {A} (body : M A) (handler : Error -> M A) :
  safe body -> (forall e, safe (handler e)) -> safe (try_catch body handler).
Proof.
  intros Hm Hk d Hwf. unfold try_catch.
  destruct (Hm d Hwf) as [Ho Hwf1].
  destruct (body d) as [[a|e|] d1]; simpl in *; [by split| |done].
  by apply Hk.
Qed.

Lemma safe_call_sdk {A} (ev : Event) (answer : list Event -> Error + A) :
  safe (call_sdk ev answer).
Proof.
  unfold call_sdk. apply safe_bind; [apply safe_issue|].
  intros _. apply safe_await_sdk.
Qed.

Lemma safe_ensureEngineRunning : safe (ensureEngineRunning firebolt).
Proof.
  unfold ensureEngineRunning. apply safe_bind; [apply safe_read|].
  intros engineName. destruct (to_boolean engineName); [|apply safe_ret].
  apply safe_bind; [apply safe_call_sdk|]. intros engine. apply safe_call_sdk.
Qed.

Lemma safe_initConnection_resume : safe (initConnection_resume firebolt).
Proof.
  unfold initConnection_resume. apply safe_try_catch.
  - apply safe_bind; [apply safe_await_sdk|]. intros c.
    apply safe_bind; [apply safe_ensureEngineRunning|]. intros _.
    apply safe_ret.
  - intros e. apply safe_bind; [apply safe_clear_connection|].
    intros _. apply safe_throw.
Qed.

Lemma safe_getConnection_call : safe getConnection_call.
Proof.
  intros d Hwf. destruct (connection d) as [p|] eqn:Hc.
  - rewrite (getConnection_call_cached d p Hc). by split.
  - rewrite (getConnection_call_fresh d Hc). split; [discriminate|].
    intros p [= <-]. simpl. rewrite length_app. simpl. lia.
Qed.

(** Waiting for the cached promise settles. *)
Lemma getConnection_settles : safe (getConnection firebolt).
Proof.
  intros d Hwf. unfold getConnection, mbind, M_bind, bind.
  destruct (safe_getConnection_call d Hwf) as [_ Hwf1].
  assert (exists p d1, getConnection_call d = (Ok p, d1)
                       /\ connection d1 = Some p) as (p & d1 & Hcall & Hc1).
  { destruct (connection d) as [p|] eqn:Hc.
    - rewrite (getConnection_call_cached d p Hc). eauto.
    - rewrite (getConnection_call_fresh d Hc). eauto. }
  rewrite Hcall in *. simpl in Hwf1. specialize (Hwf1 p Hc1).
  destruct (promises d1 !! p) as [[|c|e]|] eqn:Hp.
  - rewrite (await_pending firebolt p d1 Hp).
    destruct (safe_initConnection_resume d1) as [Ho Hwf2].
    { intros q Hq. rewrite Hc1 in Hq. by injection Hq as <-. }
    destruct (initConnection_resume firebolt d1) as [[c|e|] d2]; simpl in *;
      [| |done]; (split; [discriminate|]); intros q Hq; simpl in *;
      rewrite length_insert; by apply Hwf2.
  - rewrite (await_fulfilled firebolt p c d1 Hp). split; [discriminate|].
    intros q Hq. simpl in Hq. rewrite Hc1 in Hq. by injection Hq as <-.
  - rewrite (await_rejected firebolt p e d1 Hp). split; [discriminate|].
    intros q Hq. simpl in Hq. rewrite Hc1 in Hq. by injection Hq as <-.
  - apply lookup_ge_None in Hp. lia.
Qed.

Lemma queryResponse_try_settles query parameters :
  safe (queryResponse_try firebolt query parameters).
Proof.
  unfold queryResponse_try.
  apply safe_bind; [apply getConnection_settles|]. intros c.
  apply safe_bind; [apply safe_call_sdk|]. intros st.
  apply safe_bind; [apply safe_call_sdk|]. intros r. apply safe_ret.
Qed.

Lemma streamResponse_try_settles query parameters :
  safe (streamResponse_try firebolt BaseDriver_toGenericType query parameters).
Proof.
  unfold streamResponse_try.
  apply safe_bind; [apply getConnection_settles|]. intros c.
  apply safe_bind; [apply safe_call_sdk|]. intros st.
  apply safe_bind; [apply safe_call_sdk|]. intros rs.
  apply safe_bind; [apply safe_await_sdk|]. intros ms. apply safe_ret.
Qed.

(** Two unfoldings are enough: more fuel changes nothing. *)
Lemma queryResponse_enough_fuel fuel query parameters retry (d : State) :
  2 <= fuel ->
  queryResponse firebolt fuel query parameters retry d =
    queryResponse firebolt enough_fuel query parameters retry d.
Proof.
  intros Hfuel. destruct fuel as [|[|fuel]]; [lia|lia|]. unfold enough_fuel.
  destruct retry.
  - by rewrite !queryResponse_first_attempt.
  - by rewrite !queryResponse_final_attempt.
Qed.

Lemma streamResponse_enough_fuel fuel query parameters retry (d : State) :
  2 <= fuel ->
  streamResponse firebolt BaseDriver_toGenericType fuel query parameters
    retry d =
    streamResponse firebolt BaseDriver_toGenericType enough_fuel query
      parameters retry d.
Proof.
  intros Hfuel. destruct fuel as [|[|fuel]]; [lia|lia|]. unfold enough_fuel.
  destruct retry.
  - by rewrite !streamResponse_first_attempt.
  - by rewrite !streamResponse_final_attempt.
Qed.

(** A query on a well-formed driver returns or throws. *)
Lemma queryResponse_settles fuel query parameters retry :
  2 <= fuel -> safe (queryResponse firebolt fuel query parameters retry).
Proof.
  intros Hfuel d Hwf. rewrite (queryResponse_enough_fuel _ _ _ _ _ Hfuel).
  unfold enough_fuel.
  assert (safe (queryResponse firebolt 1 query parameters false)) as Hfinal.
  { intros d' Hwf'. rewrite queryResponse_final_attempt.
    by apply queryResponse_try_settles. }
  change (queryResponse firebolt 2 query parameters retry) with
    (try_catch (queryResponse_try firebolt query parameters)
       (fun error =>
          if status_is error 401 && retry then
            set_connection None;;
            queryResponse firebolt 1 query parameters false
          else if status_is error 404 && retry then
            ensureEngineRunning firebolt;;
            queryResponse firebolt 1 query parameters false
          else throw error)).
  apply safe_try_catch; [apply queryResponse_try_settles| |exact Hwf].
  intros e. destruct (status_is e 401 && retry).
  { apply safe_bind; [apply safe_clear_connection|]. by intros _. }
  destruct (status_is e 404 && retry); [|apply safe_throw].
  apply safe_bind; [apply safe_ensureEngineRunning|]. by intros _.
Qed.

Lemma streamResponse_settles fuel query parameters retry :
  2 <= fuel ->
  safe (streamResponse firebolt BaseDriver_toGenericType fuel query parameters
          retry).
Proof.
  intros Hfuel d Hwf. rewrite (streamResponse_enough_fuel _ _ _ _ _ Hfuel).
  unfold enough_fuel.
  assert (safe (streamResponse firebolt BaseDriver_toGenericType 1 query
                  parameters false)) as Hfinal.
  { intros d' Hwf'. rewrite streamResponse_final_attempt.
    by apply streamResponse_try_settles. }
  change (streamResponse firebolt BaseDriver_toGenericType 2 query parameters
            retry) with
    (try_catch
       (streamResponse_try firebolt BaseDriver_toGenericType query parameters)
       (fun error =>
          if status_is error 401 && retry then
            set_connection None;;
            streamResponse firebolt BaseDriver_toGenericType 1 query
              parameters false
          else if status_is error 404 && retry then
            ensureEngineRunning firebolt;;
            streamResponse firebolt BaseDriver_toGenericType 1 query
              parameters false
          else throw error)).
  apply safe_try_catch; [apply streamResponse_try_settles| |exact Hwf].
  intros e. destruct (status_is e 401 && retry).
  { apply safe_bind; [apply safe_clear_connection|]. by intros _. }
  destruct (status_is e 404 && retry); [|apply safe_throw].
  apply safe_bind; [apply safe_ensureEngineRunning|]. by intros _.
Qed.

(** A driver fresh from the constructor is well formed. *)
Lemma constructor_well_formed
    (getEnv : string -> JsValue -> JsValue)
    (assertDataSource : string -> JsValue) (version : string)
    (config : gmap string JsValue) (d : State) :
  constructor getEnv assertDataSource version config = Some d ->
  well_formed d.
Proof.
  unfold constructor. destruct (build_config _ _ _ _); [|discriminate].
  intros [= <-] p [=].
Qed.

End Settling.

(** * Further properties of the driver *)

(** ** More on the type mapper *)

Section MoreTypeMapperFacts.
Import TypeMapper.

Variable BaseDriver_toGenericType : string -> string.

Lemma strip_prefix_app (p s : string) : strip_prefix p (p +:+ s) = Some s.
Proof.
  induction p as [|c p IH]; [reflexivity|].
  change (String c p +:+ s) with (String c (p +:+ s)). simpl.
  by rewrite Ascii.eqb_refl.
Qed.

Lemma dot_plus_rparen_closing (post : string) :
  dot_plus_rparen (String ")" post) = None ->
  forall c, is_line_terminator c = false ->
  dot_plus_rparen (String c (String ")" post)) = Some (String c "").
Proof.
  intros Hnone c Hc. cbn [dot_plus_rparen]. rewrite Hc.
  cbn [dot_plus_rparen] in Hnone. by rewrite Hnone.
Qed.

(** [(.+)\)] against a single-line text followed by one closing
    parenthesis takes the whole text. *)
Lemma dot_plus_rparen_whole (x : string) :
  x <> "" -> single_line x = true ->
  dot_plus_rparen (x +:+ ")") = Some x.
Proof.
  induction x as [|c x IH]; [done|]. intros _ Hline.
  simpl in Hline. apply andb_true_iff in Hline as [Hc Hx].
  apply negb_true_iff in Hc.
  change (String c x +:+ ")") with (String c (x +:+ ")")).
  destruct x as [|c' x'].
  - apply dot_plus_rparen_closing; [reflexivity|exact Hc].
  - cbn [dot_plus_rparen]. rewrite Hc.
    change (String c' (x' +:+ ")")) with (String c' x' +:+ ")").
    by rewrite IH.
Qed.

(** A match at the start of the string is the leftmost one. *)
Lemma COMPLEX_TYPE_match_here (s : string) (m : string * string) :
  COMPLEX_TYPE_here s = Some m -> COMPLEX_TYPE_match s = Some m.
Proof. intros Hm. destruct s; cbn [COMPLEX_TYPE_match]; by rewrite Hm. Qed.

End MoreTypeMapperFacts.

(** X1. [toGenericType] maps the native type [long] to [bigint] and every
    other string that is not a member name of [Object.prototype], wrapped
    types included, to what the base mapping gives.  The inherited names
    are left out: for them the operator [in] answers true in the source and
    the result is the inherited member. *)
Theorem toGenericType_only_long_is_special
    (BaseDriver_toGenericType : string -> string) (columnType : string) :
  columnType ∉ Object_prototype_names ->
  TypeMapper.toGenericType BaseDriver_toGenericType columnType =
    if decide (columnType = "long") then JsString "bigint"
    else JsString (BaseDriver_toGenericType columnType).
Proof.
  intros _.
  rewrite toGenericType_collapse. unfold TypeMapper.in_table, TypeMapper.table_get.
  unfold TypeMapper.FireboltTypeToGeneric.
  destruct (decide (columnType = "long")) as [->|Hne].
  - reflexivity.
  - rewrite lookup_singleton_ne by done.
    rewrite bool_decide_eq_false_2; [reflexivity|]. by intros [x Hx].
Qed.

Lemma toGenericType_only_long_is_special_witness :
  ("nullable(long)" ∉ Object_prototype_names)
  /\ TypeMapper.toGenericType (fun t => "base:" +:+ t) "nullable(long)" =
       JsString "base:nullable(long)".
Proof.
  assert ("nullable(long)" ∉ Object_prototype_names) as Hnew.
  { unfold Object_prototype_names. intros H.
    repeat (apply elem_of_cons in H as [H|H]; [discriminate H|]).
    by apply elem_of_nil in H. }
  split; [exact Hnew|].
  exact (toGenericType_only_long_is_special (fun t => "base:" +:+ t)
           "nullable(long)" Hnew).
Defined.

(** X2. The pattern [COMPLEX_TYPE] captures the inner type of a wrapped
    type: on [nullable(X)] and on [array(X)], [X] not empty and without a
    line break, the match gives the wrapper keyword and [X] itself, also
    when [X] is wrapped in turn. *)
Theorem COMPLEX_TYPE_captures_inner_type (keyword inner : string) :
  keyword = "nullable" \/ keyword = "array" ->
  inner <> "" ->
  single_line inner = true ->
  TypeMapper.COMPLEX_TYPE_match (keyword +:+ "(" +:+ inner +:+ ")") =
    Some (keyword, inner).
Proof.
  intros Hkw Hne Hline.
  assert (TypeMapper.COMPLEX_TYPE_here (keyword +:+ "(" +:+ inner +:+ ")") =
            Some (keyword, inner)) as Hhere.
  { unfold TypeMapper.COMPLEX_TYPE_here.
    destruct Hkw as [-> | ->].
    - change ("nullable" +:+ "(" +:+ inner +:+ ")")
        with (("nullable" +:+ "(") +:+ inner +:+ ")").
      rewrite strip_prefix_app. cbn [mbind option_bind].
      by rewrite dot_plus_rparen_whole.
    - change ("array" +:+ "(" +:+ inner +:+ ")")
        with (("array" +:+ "(") +:+ inner +:+ ")").
      rewrite strip_prefix_app.
      change (TypeMapper.strip_prefix ("nullable" +:+ "(")
                (("array" +:+ "(") +:+ inner +:+ ")")) with (@None string).
      cbn [mbind option_bind]. by rewrite dot_plus_rparen_whole. }
  by apply COMPLEX_TYPE_match_here.
Qed.

Lemma COMPLEX_TYPE_captures_inner_type_witness :
  TypeMapper.COMPLEX_TYPE_match "array(nullable(long))" =
    Some ("array", "nullable(long)").
Proof.
  apply (COMPLEX_TYPE_captures_inner_type "array" "nullable(long)");
    [by right | discriminate | reflexivity].
Defined.

(** ** More on row hydration *)

Section MoreHydrationFacts.
Import Driver.

Variable isNumberType : string -> bool.

Lemma last_named_is_Some (key : string) (meta : list Meta) :
  is_Some (last_named key meta) <-> key ∈ name <$> meta.
Proof.
  induction meta as [|c rest IH]; simpl.
  - split; [by intros [x Hx]|by intros H%elem_of_nil].
  - rewrite elem_of_cons, <- IH.
    destruct (last_named key rest) as [c'|].
    + split; [intros _; right; by eexists|by eexists].
    + destruct (decide (name c = key)) as [Heq|Hne].
      * split; [by left|by eexists].
      * split; [by intros [x Hx]|]. intros [Heq|[x Hx]]; [congruence|done].
Qed.

(** Hydrating a value twice is hydrating it once. *)
Lemma getHydratedValue_idempotent (value : JsValue) (column : Meta) :
  getHydratedValue isNumberType
    (getHydratedValue isNumberType value column) column =
    getHydratedValue isNumberType value column.
Proof.
  unfold getHydratedValue.
  destruct (isNumberType (type column)); [|reflexivity].
  by destruct value.
Qed.

End MoreHydrationFacts.

(** X3. A hydrated row has exactly the column names of the metadata as its
    own properties: what the raw row holds under other names is dropped,
    and a column the raw row lacks is present all the same.  The name
    [__proto__] is left out: assigning to it on a plain object sets no own
    property. *)
Theorem hydrateRow_keys_are_the_columns
    (isNumberType : string -> bool) (row : Driver.Row)
    (meta : list Driver.Meta) (key : string) :
  key <> "__proto__" ->
  is_Some (Driver.hydrateRow isNumberType row meta !! key)
  <-> key ∈ Driver.name <$> meta.
Proof.
  intros _.
  by rewrite hydrateRow_lookup, fmap_is_Some, last_named_is_Some.
Qed.

Lemma hydrateRow_keys_are_the_columns_witness :
  "n" <> "__proto__"
  /\ (is_Some (Driver.hydrateRow is_long sample_row [sample_column] !! "n")
      <-> "n" ∈ Driver.name <$> [sample_column]).
Proof.
  split; [discriminate|].
  apply (hydrateRow_keys_are_the_columns is_long sample_row [sample_column] "n").
  discriminate.
Defined.

(** X4. Hydration is idempotent: when no column bears a name that a plain
    object inherits, hydrating a hydrated row with the same metadata
    changes nothing. *)
Theorem hydrateRow_idempotent
    (isNumberType : string -> bool) (row : Driver.Row)
    (meta : list Driver.Meta) :
  Forall (fun column => Driver.name column ∉ Object_prototype_names) meta ->
  Driver.hydrateRow isNumberType (Driver.hydrateRow isNumberType row meta) meta
  = Driver.hydrateRow isNumberType row meta.
Proof.
  intros _.
  apply map_eq. intros key. rewrite !hydrateRow_lookup.
  destruct (last_named key meta) as [column|] eqn:Hlast; [|reflexivity].
  simpl. f_equal. unfold get at 1. rewrite hydrateRow_lookup, Hlast. simpl.
  apply getHydratedValue_idempotent.
Qed.

Lemma hydrateRow_idempotent_witness :
  Driver.hydrateRow is_long
    (Driver.hydrateRow is_long sample_row [sample_column]) [sample_column]
  = {[ "n" := JsString "12345678901234567890" ]}.
Proof.
  rewrite (hydrateRow_idempotent is_long sample_row [sample_column]).
  - by vm_compute.
  - constructor; [|constructor]. unfold Object_prototype_names. intros H.
    repeat (apply elem_of_cons in H as [H|H]; [discriminate H|]).
    by apply elem_of_nil in H.
Defined.

(** X5. A property that the raw row lacks, under a name that a plain
    object does not inherit either, reads as [undefined], which is not
    null.  So the hydrated row holds the string [undefined] under that
    name when the last column of the name is numeric, [undefined] itself
    when that column is not numeric, and nothing when no column has the
    name. *)
Theorem hydrateRow_missing_value
    (isNumberType : string -> bool) (row : Driver.Row)
    (meta : list Driver.Meta) (key : string) :
  key ∉ Object_prototype_names ->
  row !! key = None ->
  Driver.hydrateRow isNumberType row meta !! key =
    (fun column =>
       if isNumberType (Driver.type column)
       then JsString "undefined" else JsUndefined)
      <$> last_named key meta.
Proof.
  intros _ Hmiss. rewrite hydrateRow_lookup.
  destruct (last_named key meta) as [column|]; [|reflexivity]. simpl.
  unfold Driver.getHydratedValue, get. rewrite Hmiss. simpl.
  by destruct (isNumberType (Driver.type column)).
Qed.

Lemma hydrateRow_missing_value_witness :
  Driver.hydrateRow is_long ∅
    [ {| Driver.name := "n"; Driver.type := "text" |}; sample_column ] !! "n" =
    Some (JsString "undefined")
  /\ Driver.hydrateRow is_long ∅
       [ sample_column; {| Driver.name := "n"; Driver.type := "text" |} ] !! "n" =
       Some JsUndefined.
Proof.
  assert ("n" ∉ Object_prototype_names) as Hown.
  { unfold Object_prototype_names. intros H.
    repeat (apply elem_of_cons in H as [H|H]; [discriminate H|]).
    by apply elem_of_nil in H. }
  split.
  - rewrite (hydrateRow_missing_value is_long ∅ _ "n" Hown); reflexivity.
  - rewrite (hydrateRow_missing_value is_long ∅ _ "n" Hown); reflexivity.
Defined.

(** ** More on the DDL helpers *)

Lemma append_assoc (a b c : string) : (a +:+ b) +:+ c = a +:+ b +:+ c.
Proof.
  induction a as [|x a IH]; [reflexivity|].
  change (String x ((a +:+ b) +:+ c) = String x (a +:+ b +:+ c)).
  by rewrite IH.
Qed.

Lemma append_inj_r (a b c : string) : a +:+ c = b +:+ c -> a = b.
Proof.
  intros Heq.
  assert (forall s t, String.length (s +:+ t) = String.length s + String.length t)
    as Hlen.
  { intros s t. induction s as [|x s IH]; [reflexivity|].
    change (S (String.length (s +:+ t)) = S (String.length s + String.length t)).
    by rewrite IH. }
  revert b Heq. induction a as [|x a IH]; intros [|y b] Heq.
  - reflexivity.
  - apply (f_equal String.length) in Heq.
    rewrite !Hlen in Heq. simpl in Heq. lia.
  - apply (f_equal String.length) in Heq.
    rewrite !Hlen in Heq. simpl in Heq. lia.
  - change (String x (a +:+ c) = String y (b +:+ c)) in Heq.
    injection Heq as -> Heq. by rewrite (IH b Heq).
Qed.

(** X6. [quoteIdentifier] puts its argument between two double quotes and
    does nothing else: different identifiers get different quoted forms,
    and a double quote inside the identifier is kept as it is, so one
    column whose name holds a quote can yield the very column list of
    two. *)
Theorem quoteIdentifier_does_not_escape
    (fromGenericType : string -> string) (quotedTableName : string)
    (a b ta tb : string) :
  (forall x y, Driver.quoteIdentifier x = Driver.quoteIdentifier y -> x = y)
  /\ Driver.quoteIdentifier (a +:+ Driver.double_quote +:+ b) =
       Driver.double_quote +:+ a +:+ Driver.double_quote +:+ b
         +:+ Driver.double_quote
  /\ Driver.createTableSql fromGenericType quotedTableName
       [ {| Driver.name :=
              a +:+ Driver.double_quote +:+ " " +:+ fromGenericType ta
                +:+ ", " +:+ Driver.double_quote +:+ b;
            Driver.type := tb |} ] =
     Driver.createTableSql fromGenericType quotedTableName
       [ {| Driver.name := a; Driver.type := ta |};
         {| Driver.name := b; Driver.type := tb |} ].
Proof.
  split; [|split].
  - intros x y Heq. unfold Driver.quoteIdentifier in Heq.
    apply (inj (String.append Driver.double_quote)) in Heq.
    by apply append_inj_r in Heq.
  - unfold Driver.quoteIdentifier. by rewrite !append_assoc.
  - unfold Driver.createTableSql, Driver.quoteIdentifier.
    cbn [map String.concat Driver.name Driver.type].
    by rewrite !append_assoc.
Qed.

(** X7. Whatever the table name, the table [dropTable] names in its
    statement contains no dot: it is the name itself when that has no dot,
    and the segment after the first dot otherwise, which is empty for a
    name that ends in its first dot. *)
Theorem dropTable_never_names_a_qualified_table
    (firebolt : Driver.Sdk) (tableName : string) (d : Driver.State) :
  exists name,
    includes "." name = false
    /\ Driver.dropTable_statement tableName = "DROP TABLE " +:+ name
    /\ Driver.dropTable firebolt tableName d =
         Driver.query firebolt ("DROP TABLE " +:+ name) (Some []) d
    /\ (includes "." tableName = false -> name = tableName)
    /\ (forall qualifier,
          includes "." qualifier = false ->
          tableName = qualifier +:+ "." -> name = "").
Proof.
  destruct (includes "." tableName) eqn:Hdot.
  - destruct (dropTable_statement_dotted tableName Hdot)
      as (qualifier & name & rest & Ht & Hq & Hname & Hrest & Hstmt).
    exists name. split; [exact Hname|]. split; [exact Hstmt|].
    split; [unfold Driver.dropTable; by rewrite Hstmt|].
    split; [discriminate|].
    intros q Hq' Hshape.
    assert (Driver.dropTable_statement tableName = "DROP TABLE " +:+ "") as Hempty.
    { rewrite Hshape.
      change (q +:+ ".") with (q +:+ "." +:+ "" +:+ "").
      apply dropTable_statement_qualified; auto. }
    rewrite Hstmt in Hempty. by apply drop_statement_inj in Hempty.
  - exists tableName. split; [exact Hdot|].
    split; [by apply dropTable_statement_plain|].
    split.
    { unfold Driver.dropTable. by rewrite dropTable_statement_plain. }
    split; [done|].
    intros q _ Hshape. rewrite Hshape, includes_app in Hdot. simpl in Hdot.
    by rewrite orb_true_r in Hdot.
Qed.

(** ** More on the configuration *)

Section MoreConfigFacts.
Import Driver.

Variable getEnv : string -> JsValue -> JsValue.
Variable assertDataSource : string -> JsValue.
Variable version : string.

(** The object [build_config] makes, for a user name that is a string. *)
Lemma build_config_Some (config cfg : gmap string JsValue) :
  build_config getEnv assertDataSource version config = Some cfg ->
  let dataSource :=
    or_else (get config "dataSource") (assertDataSource "default") in
  exists user connection,
    getEnv "dbUser" dataSource = JsString user
    /\ cfg !! "connection" = Some (JsObject connection)
    /\ (forall key, key <> "connection" ->
          cfg !! key =
            (config ∪ {[ "readOnly" := JsBool true;
                         "apiEndpoint" :=
                           or_else (getEnv "fireboltApiEndpoint" dataSource)
                             (JsString "api.app.firebolt.io") ]}) !! key)
    /\ (forall key,
          connection !! key =
            (spread (or_else (get config "connection") (JsObject ∅))
             ∪ {[ "auth" :=
                    if includes "@" user
                    then JsObject {[ "username" := JsString user;
                                     "password" := getEnv "dbPass" dataSource ]}
                    else JsObject {[ "client_id" := JsString user;
                                     "client_secret" := getEnv "dbPass" dataSource ]};
                  "database" := getEnv "dbName" dataSource;
                  "account" := getEnv "fireboltAccount" dataSource;
                  "engineName" := getEnv "fireboltEngineName" dataSource;
                  "engineEndpoint" := getEnv "fireboltEngineEndpoint" dataSource;
                  "additionalParameters" :=
                    JsObject {[ "userClients" :=
                      JsArray [JsObject {[ "name" := JsString "CubeDev+Cube";
                                           "version" := JsString version ]}] ]} ]})
            !! key).
Proof.
  intros Hcfg dataSource. unfold build_config in Hcfg. fold dataSource in Hcfg.
  destruct (getEnv "dbUser" dataSource) as [| | | |user| |] eqn:Huser;
    try discriminate.
  injection Hcfg as <-. eexists user, _. split; [reflexivity|].
  split; [apply lookup_insert_eq|]. split.
  - intros key Hkey. by rewrite lookup_insert_ne.
  - intros key. reflexivity.
Qed.

End MoreConfigFacts.

(** X8. Precedence in the driver's configuration.  An own property of the
    caller's object, whatever its value, wins over the default
    ([readOnly], [apiEndpoint]) and passes through unchanged otherwise; the
    API endpoint defaults to the environment's value and, when that is
    unset or empty, to [api.app.firebolt.io]; the caller's [connection]
    property itself is always replaced by the merged connection options. *)
Theorem config_caller_properties_win
    (getEnv : string -> JsValue -> JsValue)
    (assertDataSource : string -> JsValue) (version : string)
    (config cfg : gmap string JsValue) :
  Driver.build_config getEnv assertDataSource version config = Some cfg ->
  let dataSource :=
    or_else (get config "dataSource") (assertDataSource "default") in
  (forall key value,
     key <> "connection" -> config !! key = Some value ->
     cfg !! key = Some value)
  /\ (forall key,
        key <> "connection" -> key <> "readOnly" -> key <> "apiEndpoint" ->
        cfg !! key = config !! key)
  /\ (config !! "apiEndpoint" = None ->
      get cfg "apiEndpoint" =
        if to_boolean (getEnv "fireboltApiEndpoint" dataSource)
        then getEnv "fireboltApiEndpoint" dataSource
        else JsString "api.app.firebolt.io")
  /\ (exists connection, cfg !! "connection" = Some (JsObject connection)).
Proof.
  intros Hcfg dataSource.
  destruct (build_config_Some getEnv assertDataSource version config cfg Hcfg)
    as (user & connection & _ & Hconn & Htop & _).
  fold dataSource in Htop.
  split; [|split; [|split]].
  - intros key value Hkey Hsome. rewrite (Htop key Hkey).
    by apply lookup_union_Some_l.
  - intros key Hc Hr Ha. rewrite (Htop key Hc).
    destruct (config !! key) as [value|] eqn:Hk.
    + by apply lookup_union_Some_l.
    + rewrite lookup_union_r by done.
      rewrite lookup_insert_ne by done. by rewrite lookup_singleton_ne.
  - intros Hnone. unfold get. rewrite (Htop "apiEndpoint") by done.
    rewrite lookup_union_r by done.
    rewrite lookup_insert_ne by done. rewrite lookup_singleton_eq. reflexivity.
  - by exists connection.
Qed.

Lemma config_caller_properties_win_witness :
  exists cfg,
    Driver.build_config sample_getEnv sample_assertDataSource "1.0.0"
      {[ "readOnly" := JsBool false ]} = Some cfg
    /\ cfg !! "readOnly" = Some (JsBool false).
Proof.
  eexists. split; [reflexivity|].
  destruct (config_caller_properties_win sample_getEnv sample_assertDataSource
              "1.0.0" {[ "readOnly" := JsBool false ]} _ eq_refl)
    as (Hwin & _).
  apply Hwin; [discriminate|reflexivity].
Defined.

(** X9. The connection options handed to the SDK.  Every own property of
    the caller's [connection] object wins over the value taken from the
    environment.  Where the caller gives none, the database, account and
    engine name are the environment's, and the credentials are a user name
    and password when the configured user contains an [@], a client id and
    secret otherwise. *)
Theorem connection_options_from_environment
    (getEnv : string -> JsValue -> JsValue)
    (assertDataSource : string -> JsValue) (version : string)
    (config cfg : gmap string JsValue) :
  Driver.build_config getEnv assertDataSource version config = Some cfg ->
  let dataSource :=
    or_else (get config "dataSource") (assertDataSource "default") in
  let given := spread (or_else (get config "connection") (JsObject ∅)) in
  let options := get cfg "connection" in
  (forall key value, given !! key = Some value -> get_prop options key = value)
  /\ (given !! "database" = None ->
      get_prop options "database" = getEnv "dbName" dataSource)
  /\ (given !! "account" = None ->
      get_prop options "account" = getEnv "fireboltAccount" dataSource)
  /\ (given !! "engineName" = None ->
      get_prop options "engineName" = getEnv "fireboltEngineName" dataSource)
  /\ (given !! "auth" = None ->
      exists user,
        getEnv "dbUser" dataSource = JsString user
        /\ get_prop options "auth" =
             JsObject
               (if includes "@" user
                then {[ "username" := JsString user;
                        "password" := getEnv "dbPass" dataSource ]}
                else {[ "client_id" := JsString user;
                        "client_secret" := getEnv "dbPass" dataSource ]})).
Proof.
  intros Hcfg dataSource given options.
  destruct (build_config_Some getEnv assertDataSource version config cfg Hcfg)
    as (user & connection & Huser & Hconn & _ & Hkeys).
  fold dataSource in Huser, Hkeys. fold given in Hkeys.
  assert (forall key, get_prop options key = default JsUndefined (connection !! key))
    as Hget.
  { intros key. unfold options, get. by rewrite Hconn. }
  split; [|split; [|split; [|split]]].
  - intros key value Hgiven. rewrite Hget, Hkeys.
    by rewrite (lookup_union_Some_l _ _ _ _ Hgiven).
  - intros Hnone. rewrite Hget, Hkeys, lookup_union_r by done.
    rewrite lookup_insert_ne by done. by rewrite lookup_insert_eq.
  - intros Hnone. rewrite Hget, Hkeys, lookup_union_r by done.
    do 2 (rewrite lookup_insert_ne by done). by rewrite lookup_insert_eq.
  - intros Hnone. rewrite Hget, Hkeys, lookup_union_r by done.
    do 3 (rewrite lookup_insert_ne by done). by rewrite lookup_insert_eq.
  - intros Hnone. exists user. split; [exact Huser|].
    rewrite Hget, Hkeys, lookup_union_r by done. rewrite lookup_insert_eq.
    by destruct (includes "@" user).
Qed.

Lemma connection_options_from_environment_witness :
  exists cfg,
    Driver.build_config sample_getEnv sample_assertDataSource "1.0.0"
      {[ "connection" := JsObject {[ "database" := JsString "mine" ]} ]}
      = Some cfg
    /\ get_prop (get cfg "connection") "database" = JsString "mine".
Proof.
  eexists. split; [reflexivity|].
  destruct (connection_options_from_environment sample_getEnv
              sample_assertDataSource "1.0.0"
              {[ "connection" := JsObject {[ "database" := JsString "mine" ]} ]}
              _ eq_refl) as (Hwin & _).
  apply Hwin. reflexivity.
Defined.

(** ** Counting calls *)

Lemma statements_app (a b : list Driver.Event) :
  statements (a ++ b) = statements a + statements b.
Proof. unfold statements. by rewrite executed_app, length_app. Qed.

Lemma connections_app (a b : list Driver.Event) :
  connections (a ++ b) = connections a + connections b.
Proof. unfold connections. by rewrite connects_app, length_app. Qed.

Section CountingFacts.
Import Driver.

Variable firebolt : Sdk.
Variable BaseDriver_toGenericType : string -> string.

Variable size : list Event -> nat.
Hypothesis size_app : forall a b, size (a ++ b) = size a + size b.

Lemma size_nil : size [] = 0.
Proof. pose proof (size_app [] []) as H. simpl in H. lia. Qed.

Lemma at_most_silent {A} (m : M A) (n : nat) :
  (forall d, trace (m d).2 = trace d) -> at_most size n m.
Proof.
  intros H d. exists []. rewrite H, app_nil_r, size_nil. split; [done|lia].
Qed.

Lemma at_most_weaken {A} (m : M A) (n n' : nat) :
  n <= n' -> at_most size n m -> at_most size n' m.
Proof.
  intros Hle Hm d. destruct (Hm d) as [evs [Ht Hs]].
  exists evs. split; [exact Ht|lia].
Qed.

Lemma at_most_bind {A B} (m : M A) (k : A -> M B) (n1 n2 : nat) :
  at_most size n1 m -> (forall a, at_most size n2 (k a)) ->
  at_most size (n1 + n2) (m ≫= k).
Proof.
  intros Hm Hk d. unfold mbind, M_bind, bind.
  destruct (Hm d) as [evs1 [Ht1 Hs1]].
  destruct (m d) as [[a|e|] d1]; simpl in *.
  - destruct (Hk a d1) as [evs2 [Ht2 Hs2]].
    exists (evs1 ++ evs2). rewrite Ht2, Ht1, app_assoc, size_app.
    split; [reflexivity|lia].
  - exists evs1. split; [exact Ht1|lia].
  - exists evs1. split; [exact Ht1|lia].
Qed.

Lemma at_most_try_catch {A} (body : M A) (handler : Error -> M A)
    (n1 n2 : nat) :
  at_most size n1 body -> (forall e, at_most size n2 (handler e)) ->
  at_most size (n1 + n2) (try_catch body handler).
Proof.
  intros Hm Hk d. unfold try_catch.
  destruct (Hm d) as [evs1 [Ht1 Hs1]].
  destruct (body d) as [[a|e|] d1]; simpl in *.
  - exists evs1. split; [exact Ht1|lia].
  - destruct (Hk e d1) as [evs2 [Ht2 Hs2]].
    exists (evs1 ++ evs2). rewrite Ht2, Ht1, app_assoc, size_app.
    split; [reflexivity|lia].
  - exists evs1. split; [exact Ht1|lia].
Qed.

Lemma at_most_call_sdk {A} (ev : Event) (answer : list Event -> Error + A)
    (n : nat) :
  size [ev] <= n -> at_most size n (call_sdk ev answer).
Proof.
  intros Hev d. exists [ev]. split; [|exact Hev].
  unfold call_sdk, issue, await_sdk, mbind, M_bind, bind. simpl.
  by destruct (answer _).
Qed.

Hypothesis size_getByName : forall engineName, size [EvGetByName engineName] = 0.
Hypothesis size_startAndWait : forall engine, size [EvStartAndWait engine] = 0.

Lemma at_most_ensureEngineRunning : at_most size 0 (ensureEngineRunning firebolt).
Proof.
  unfold ensureEngineRunning.
  apply (at_most_bind _ _ 0 0); [by apply at_most_silent|].
  intros engineName. destruct (to_boolean engineName);
    [|by apply at_most_silent].
  apply (at_most_bind _ _ 0 0).
  - apply at_most_call_sdk. by rewrite size_getByName.
  - intros engine. apply at_most_call_sdk. by rewrite size_startAndWait.
Qed.

Lemma at_most_await (p : PromiseId) : at_most size 0 (await firebolt p).
Proof.
  intros d.
  destruct (emits_await firebolt (fun ev => size [ev] = 0)
              size_getByName size_startAndWait p d) as [evs [Ht Hevs]].
  exists evs. split; [exact Ht|].
  clear Ht. induction Hevs as [|ev evs Hev _ IH]; [by rewrite size_nil|].
  change (ev :: evs) with ([ev] ++ evs). rewrite size_app. lia.
Qed.

Variable connect_size execute_size : nat.
Hypothesis size_connect :
  forall connectionOptions, size [EvConnect connectionOptions] <= connect_size.
Hypothesis size_execute :
  forall c query parameters, size [EvExecute c query parameters] <= execute_size.
Hypothesis size_fetchResult : forall st, size [EvFetchResult st] = 0.
Hypothesis size_streamResult : forall st, size [EvStreamResult st] = 0.

(** An acquisition makes at most one connect call. *)
Lemma at_most_getConnection : at_most size connect_size (getConnection firebolt).
Proof.
  unfold getConnection.
  replace connect_size with (connect_size + 0) by lia.
  apply at_most_bind; [|apply at_most_await].
  intros d. destruct (connection d) as [p|] eqn:Hc.
  - rewrite (getConnection_call_cached d p Hc). exists [].
    rewrite size_nil, app_nil_r. split; [done|lia].
  - rewrite (getConnection_call_fresh d Hc). eexists. split; [reflexivity|].
    apply size_connect.
Qed.

Lemma at_most_queryResponse_try query parameters :
  at_most size (connect_size + execute_size)
    (queryResponse_try firebolt query parameters).
Proof.
  unfold queryResponse_try.
  apply at_most_bind; [apply at_most_getConnection|]. intros c.
  replace execute_size with (execute_size + 0) by lia.
  apply at_most_bind; [by apply at_most_call_sdk|]. intros st.
  replace 0 with (0 + 0) by lia.
  apply at_most_bind.
  - apply at_most_call_sdk. by rewrite size_fetchResult.
  - intros r. by apply at_most_silent.
Qed.

Lemma at_most_streamResponse_try query parameters :
  at_most size (connect_size + execute_size)
    (streamResponse_try firebolt BaseDriver_toGenericType query parameters).
Proof.
  unfold streamResponse_try.
  apply at_most_bind; [apply at_most_getConnection|]. intros c.
  replace execute_size with (execute_size + 0) by lia.
  apply at_most_bind; [by apply at_most_call_sdk|]. intros st.
  replace 0 with (0 + 0) by lia.
  apply at_most_bind.
  - apply at_most_call_sdk. by rewrite size_streamResult.
  - intros rs. replace 0 with (0 + 0) by lia.
    apply at_most_bind.
    + apply at_most_silent. intros d. unfold await_sdk.
      by destruct (sdk_metaPromise firebolt (trace d)).
    + intros ms. by apply at_most_silent.
Qed.

(** The number of attempts a call may make: a second one only with the
    retry enabled. *)
Lemma at_most_queryResponse fuel query parameters (retry : bool) :
  at_most size ((if retry then 2 else 1) * (connect_size + execute_size))
    (queryResponse firebolt fuel query parameters retry).
Proof.
  assert (forall fuel' : nat,
            at_most size (connect_size + execute_size)
              (queryResponse firebolt fuel' query parameters false)) as Hlast.
  { intros [|fuel']; [by apply at_most_silent|]. cbn [queryResponse].
    replace (connect_size + execute_size)
      with (connect_size + execute_size + 0) at 1 by lia.
    apply at_most_try_catch; [apply at_most_queryResponse_try|]. intros e.
    rewrite !andb_false_r. by apply at_most_silent. }
  destruct retry; [|rewrite Nat.mul_1_l; apply Hlast].
  destruct fuel as [|fuel]; [by apply at_most_silent|]. cbn [queryResponse].
  replace (2 * (connect_size + execute_size))
    with (connect_size + execute_size + (connect_size + execute_size)) by lia.
  apply at_most_try_catch; [apply at_most_queryResponse_try|]. intros e.
  rewrite !andb_true_r.
  destruct (status_is e 401).
  { replace (connect_size + execute_size)
      with (0 + (connect_size + execute_size)) by lia.
    apply at_most_bind; [by apply at_most_silent|]. intros _. apply Hlast. }
  destruct (status_is e 404).
  { replace (connect_size + execute_size)
      with (0 + (connect_size + execute_size)) by lia.
    apply at_most_bind; [apply at_most_ensureEngineRunning|]. intros _.
    apply Hlast. }
  apply at_most_silent. reflexivity.
Qed.

Lemma at_most_streamResponse fuel query parameters (retry : bool) :
  at_most size ((if retry then 2 else 1) * (connect_size + execute_size))
    (streamResponse firebolt BaseDriver_toGenericType fuel query parameters
       retry).
Proof.
  assert (forall fuel' : nat,
            at_most size (connect_size + execute_size)
              (streamResponse firebolt BaseDriver_toGenericType fuel' query
                 parameters false)) as Hlast.
  { intros [|fuel']; [by apply at_most_silent|]. cbn [streamResponse].
    replace (connect_size + execute_size)
      with (connect_size + execute_size + 0) at 1 by lia.
    apply at_most_try_catch; [apply at_most_streamResponse_try|]. intros e.
    rewrite !andb_false_r. by apply at_most_silent. }
  destruct retry; [|rewrite Nat.mul_1_l; apply Hlast].
  destruct fuel as [|fuel]; [by apply at_most_silent|]. cbn [streamResponse].
  replace (2 * (connect_size + execute_size))
    with (connect_size + execute_size + (connect_size + execute_size)) by lia.
  apply at_most_try_catch; [apply at_most_streamResponse_try|]. intros e.
  rewrite !andb_true_r.
  destruct (status_is e 401).
  { replace (connect_size + execute_size)
      with (0 + (connect_size + execute_size)) by lia.
    apply at_most_bind; [by apply at_most_silent|]. intros _. apply Hlast. }
  destruct (status_is e 404).
  { replace (connect_size + execute_size)
      with (0 + (connect_size + execute_size)) by lia.
    apply at_most_bind; [apply at_most_ensureEngineRunning|]. intros _.
    apply Hlast. }
  apply at_most_silent. reflexivity.
Qed.

End CountingFacts.

Lemma emits_streamResponse (firebolt : Driver.Sdk)
    (BaseDriver_toGenericType : string -> string) fuel query parameters retry :
  emits (submits query)
    (Driver.streamResponse firebolt BaseDriver_toGenericType fuel query
       parameters retry).
Proof.
  revert retry. induction fuel as [|fuel IH]; intros retry; simpl.
  - apply emits_hang.
  - apply emits_try_catch.
    + unfold Driver.streamResponse_try.
      apply emits_bind; [by apply emits_getConnection|]. intros c.
      apply emits_bind; [by apply emits_call_sdk|]. intros st.
      apply emits_bind; [by apply emits_call_sdk|]. intros rs.
      apply emits_bind; [apply emits_await_sdk|]. intros ms. apply emits_ret.
    + intros e. destruct (Driver.status_is e 401 && retry).
      { apply emits_bind; [apply emits_set_connection|]. intros _. apply IH. }
      destruct (Driver.status_is e 404 && retry); [|apply emits_throw].
      apply emits_bind; [by apply emits_ensureEngineRunning|]. intros _.
      apply IH.
Qed.

(** What a call that makes [n] attempts at most adds to the log. *)
Lemma two_attempts_at_most {A} (m : Driver.M A) (query : string) (n : nat)
    (d : Driver.State) :
  emits (submits query) m ->
  at_most statements n m ->
  at_most connections n m ->
  exists evs,
    Driver.trace (m d).2 = Driver.trace d ++ evs
    /\ statements evs <= n
    /\ connections evs <= n
    /\ executed evs = replicate (statements evs) query.
Proof.
  intros Hq Hs Hc.
  destruct (Hq d) as [evs [Ht Hsub]].
  destruct (Hs d) as [evs1 [Ht1 Hs1]].
  destruct (Hc d) as [evs2 [Ht2 Hc2]].
  rewrite Ht in Ht1, Ht2.
  apply app_inv_head in Ht1 as <-. apply app_inv_head in Ht2 as <-.
  exists evs. split; [exact Ht|]. split; [exact Hs1|]. split; [exact Hc2|].
  by apply executed_submits.
Qed.

(** X10. The retry is bounded by the flag, not by the depth of the
    recursion: however often the recursion is unfolded and whatever the
    engine answers, [queryResponse] and [streamResponse] submit their
    statement at most twice with the retry enabled and at most once
    without it, submit no other statement, and make as many connect calls
    at most.  So a call of [query] or of [stream] submits its statement at
    most twice and connects at most twice. *)
Theorem at_most_one_retry
    (firebolt : Driver.Sdk) (BaseDriver_toGenericType : string -> string)
    (fuel : nat) (retry : bool)
    (query : string) (parameters : option (list JsValue))
    (streamParameters : list JsValue) (d : Driver.State) :
  let attempts := if retry then 2 else 1 in
  (exists evs,
     Driver.trace
       (Driver.queryResponse firebolt fuel query parameters retry d).2 =
       Driver.trace d ++ evs
     /\ statements evs <= attempts
     /\ connections evs <= attempts
     /\ executed evs = replicate (statements evs) query)
  /\
  (exists evs,
     Driver.trace
       (Driver.streamResponse firebolt BaseDriver_toGenericType fuel query
          streamParameters retry d).2 = Driver.trace d ++ evs
     /\ statements evs <= attempts
     /\ connections evs <= attempts
     /\ executed evs = replicate (statements evs) query)
  /\
  (exists evs,
     Driver.trace (Driver.query firebolt query parameters d).2 =
       Driver.trace d ++ evs
     /\ statements evs <= 2
     /\ connections evs <= 2
     /\ executed evs = replicate (statements evs) query)
  /\
  (exists evs,
     Driver.trace
       (Driver.stream firebolt BaseDriver_toGenericType query
          streamParameters d).2 = Driver.trace d ++ evs
     /\ statements evs <= 2
     /\ connections evs <= 2
     /\ executed evs = replicate (statements evs) query).
Proof.
  intros attempts.
  assert (forall (fuel' : nat) (retry' : bool),
            at_most statements (if retry' then 2 else 1)
              (Driver.queryResponse firebolt fuel' query parameters retry'))
    as Hqs.
  { intros fuel' retry'.
    replace (if retry' then 2 else 1)
      with ((if retry' then 2 else 1) * (0 + 1)) by lia.
    by apply (at_most_queryResponse firebolt statements statements_app). }
  assert (forall (fuel' : nat) (retry' : bool),
            at_most connections (if retry' then 2 else 1)
              (Driver.queryResponse firebolt fuel' query parameters retry'))
    as Hqc.
  { intros fuel' retry'.
    replace (if retry' then 2 else 1)
      with ((if retry' then 2 else 1) * (1 + 0)) by lia.
    by apply (at_most_queryResponse firebolt connections connections_app). }
  assert (forall (fuel' : nat) (retry' : bool),
            at_most statements (if retry' then 2 else 1)
              (Driver.streamResponse firebolt BaseDriver_toGenericType fuel'
                 query streamParameters retry')) as Hss.
  { intros fuel' retry'.
    replace (if retry' then 2 else 1)
      with ((if retry' then 2 else 1) * (0 + 1)) by lia.
    by apply (at_most_streamResponse firebolt BaseDriver_toGenericType
                statements statements_app). }
  assert (forall (fuel' : nat) (retry' : bool),
            at_most connections (if retry' then 2 else 1)
              (Driver.streamResponse firebolt BaseDriver_toGenericType fuel'
                 query streamParameters retry')) as Hsc.
  { intros fuel' retry'.
    replace (if retry' then 2 else 1)
      with ((if retry' then 2 else 1) * (1 + 0)) by lia.
    by apply (at_most_streamResponse firebolt BaseDriver_toGenericType
                connections connections_app). }
  split; [|split; [|split]].
  - apply two_attempts_at_most; [apply emits_queryResponse|apply Hqs|apply Hqc].
  - apply two_attempts_at_most; [apply emits_streamResponse|apply Hss|apply Hsc].
  - apply two_attempts_at_most.
    + unfold Driver.query. apply emits_bind; [apply emits_queryResponse|].
      intros r. apply emits_ret.
    + unfold Driver.query. replace 2 with (2 + 0) by lia.
      apply (at_most_bind statements statements_app); [apply (Hqs _ true)|].
      intros r. by apply (at_most_silent statements statements_app).
    + unfold Driver.query. replace 2 with (2 + 0) by lia.
      apply (at_most_bind connections connections_app); [apply (Hqc _ true)|].
      intros r. by apply (at_most_silent connections connections_app).
  - apply two_attempts_at_most;
      [apply emits_streamResponse|apply (Hss _ true)|apply (Hsc _ true)].
Qed.

(** ** More on the connection cache *)

Section MoreConnectionFacts.
Import Driver.

Variable firebolt : Sdk.

(** A creation that succeeds touches the log only. *)
Lemma initConnection_resume_Ok (d d' : State) (c : Connection) :
  initConnection_resume firebolt d = (Ok c, d') ->
  d' = set_trace (trace d') d.
Proof.
  intros Hres.
  pose proof (initConnection_resume_cases firebolt d) as Hcases.
  pose proof (ensureEngineRunning_state firebolt d) as Hstate.
  destruct (sdk_connect firebolt (trace d)); [congruence|].
  destruct (ensureEngineRunning firebolt d) as [[[]|?|] d'']; [| |done].
  - rewrite Hres in Hcases. injection Hcases as _ ->. exact Hstate.
  - congruence.
Qed.

Lemma await_pending_Ok (p : PromiseId) (d d1 : State) (c : Connection) :
  promises d !! p = Some Pending ->
  await firebolt p d = (Ok c, d1) ->
  connection d1 = connection d
  /\ promises d1 = <[p := Fulfilled c]> (promises d).
Proof.
  intros Hp. rewrite (await_pending firebolt p d Hp).
  destruct (initConnection_resume firebolt d) as [[c'|e|] d'] eqn:Hres;
    [|discriminate|discriminate].
  intros [= -> <-]. apply initConnection_resume_Ok in Hres.
  rewrite Hres. by split.
Qed.

(** After a successful acquisition the connection is cached and ready. *)
Lemma getConnection_Ok (d d1 : State) (c : Connection) :
  getConnection firebolt d = (Ok c, d1) ->
  exists p, connection d1 = Some p /\ promises d1 !! p = Some (Fulfilled c).
Proof.
  unfold getConnection, mbind, M_bind, bind.
  destruct (connection d) as [p|] eqn:Hc.
  - rewrite (getConnection_call_cached d p Hc).
    destruct (promises d !! p) as [[|c'|e]|] eqn:Hp.
    + intros Ha. destruct (await_pending_Ok p d d1 c Hp Ha) as [Hc1 Hp1].
      exists p. split; [congruence|]. rewrite Hp1.
      apply list_lookup_insert_eq. by eapply lookup_lt_Some.
    + rewrite (await_fulfilled firebolt p c' d Hp). intros [= -> <-]. eauto.
    + rewrite (await_rejected firebolt p e d Hp). discriminate.
    + unfold await, settle, read, hang, mbind, M_bind, bind. rewrite Hp.
      simpl. rewrite Hp. discriminate.
  - rewrite (getConnection_call_fresh d Hc).
    set (p := length (promises d)).
    match goal with |- await firebolt p ?d' = _ -> _ => set (d0 := d') end.
    assert (promises d0 !! p = Some Pending) as Hp
      by (by apply list_lookup_middle).
    intros Ha. destruct (await_pending_Ok p d0 d1 c Hp Ha) as [Hc1 Hp1].
    exists p. split; [by rewrite Hc1|]. rewrite Hp1.
    apply list_lookup_insert_eq. by eapply lookup_lt_Some.
Qed.

(** With the connection cached and ready, an acquisition is a cache hit. *)
Lemma getConnection_ready (d : State) (p : PromiseId) (c : Connection) :
  connection d = Some p -> promises d !! p = Some (Fulfilled c) ->
  getConnection firebolt d = (Ok c, d).
Proof.
  intros Hc Hp. unfold getConnection, mbind, M_bind, bind.
  rewrite (getConnection_call_cached d p Hc).
  by apply await_fulfilled.
Qed.

End MoreConnectionFacts.

(** X11. Once an acquisition has succeeded, every further acquisition
    returns the same connection, asks nothing of the SDK and leaves the
    driver as it is. *)
Theorem getConnection_cache_hit
    (firebolt : Driver.Sdk) (d d1 : Driver.State) (c : Driver.Connection) :
  Driver.getConnection firebolt d = (Driver.Ok c, d1) ->
  Driver.getConnection firebolt d1 = (Driver.Ok c, d1).
Proof.
  intros Hget. destruct (getConnection_Ok firebolt d d1 c Hget) as (p & Hc & Hp).
  by apply (getConnection_ready firebolt d1 p c).
Qed.

Lemma getConnection_cache_hit_witness :
  let sdk := sample_sdk never 0 never false in
  Driver.getConnection sdk (connected_driver sdk) =
    (Driver.Ok 1, connected_driver sdk).
Proof.
  intros sdk.
  apply (getConnection_cache_hit sdk new_driver). by vm_compute.
Defined.

(** ** More on the retry policy *)

(** X12. A call ends with its first attempt unless that attempt throws an
    error of status 401 or 404: a result is returned as it is, and any
    other error, one without a status included, reaches the caller
    unchanged, with nothing further asked of the SDK. *)
Theorem only_401_and_404_are_retried
    (firebolt : Driver.Sdk) (BaseDriver_toGenericType : string -> string)
    (fuel : nat) (retry : bool) (query : string)
    (parameters : option (list JsValue)) (streamParameters : list JsValue)
    (d : Driver.State) :
  1 <= fuel ->
  (forall o d1,
     Driver.queryResponse_try firebolt query parameters d = (o, d1) ->
     (forall e, o = Driver.Throw e ->
        Driver.status_is e 401 = false /\ Driver.status_is e 404 = false) ->
     Driver.queryResponse firebolt fuel query parameters retry d = (o, d1))
  /\
  (forall o d1,
     Driver.streamResponse_try firebolt BaseDriver_toGenericType query
       streamParameters d = (o, d1) ->
     (forall e, o = Driver.Throw e ->
        Driver.status_is e 401 = false /\ Driver.status_is e 404 = false) ->
     Driver.streamResponse firebolt BaseDriver_toGenericType fuel query
       streamParameters retry d = (o, d1)).
Proof.
  intros Hfuel. destruct fuel as [|fuel]; [lia|]. split.
  - intros o d1 Htry Hstatus. cbn [Driver.queryResponse].
    unfold Driver.try_catch. rewrite Htry.
    destruct o as [r|e|]; try reflexivity.
    destruct (Hstatus e eq_refl) as [-> ->]. reflexivity.
  - intros o d1 Htry Hstatus. cbn [Driver.streamResponse].
    unfold Driver.try_catch. rewrite Htry.
    destruct o as [r|e|]; try reflexivity.
    destruct (Hstatus e eq_refl) as [-> ->]. reflexivity.
Qed.

Lemma only_401_and_404_are_retried_witness :
  let sdk := sample_sdk always 500 never false in
  let result := Driver.queryResponse sdk 2 "SELECT 1" None true new_driver in
  result.1 = Driver.Throw (error_with 500)
  /\ executed (Driver.trace result.2) = ["SELECT 1"].
Proof.
  intros sdk result. unfold result.
  destruct (only_401_and_404_are_retried sdk (fun t => t) 2 true "SELECT 1"
              None [] new_driver ltac:(lia)) as [Hquery _].
  edestruct (Hquery (Driver.Throw (error_with 500))) as [];
    [vm_compute; reflexivity | intros e [= <-]; by vm_compute |].
  by vm_compute.
Defined.

Section MoreRetryFacts.
Import Driver.

Variable firebolt : Sdk.

(** The engine-start sequence makes no connect call and submits nothing. *)
Lemma ensureEngineRunning_quiet (d : State) :
  connects (trace (ensureEngineRunning firebolt d).2) = connects (trace d)
  /\ executed (trace (ensureEngineRunning firebolt d).2) = executed (trace d).
Proof.
  destruct (emits_ensureEngineRunning firebolt
              (fun ev => connects [ev] = [] /\ executed [ev] = [])
              ltac:(done) ltac:(done) d) as [evs [Ht Hevs]].
  rewrite Ht, connects_app, executed_app.
  assert (connects evs = [] /\ executed evs = []) as [-> ->];
    [|by rewrite !app_nil_r].
  clear Ht. induction Hevs as [|ev evs [Hc He] _ [IHc IHe]]; [done|].
  change (ev :: evs) with ([ev] ++ evs).
  by rewrite connects_app, executed_app, Hc, He, IHc, IHe.
Qed.

(** An attempt made with the connection cached and ready starts by
    submitting the statement on that connection, and makes no connect
    call. *)
Lemma queryResponse_try_ready query parameters (d : State) (p : PromiseId)
    (c : Connection) :
  connection d = Some p -> promises d !! p = Some (Fulfilled c) ->
  exists rest,
    trace (queryResponse_try firebolt query parameters d).2 =
      trace d ++ EvExecute c query parameters :: rest
    /\ connects rest = [].
Proof.
  intros Hc Hp. unfold queryResponse_try, mbind, M_bind, bind.
  rewrite (getConnection_ready firebolt d p c Hc Hp).
  unfold call_sdk, issue, await_sdk, mbind, M_bind, bind. simpl.
  destruct (sdk_execute firebolt _) as [e|st]; simpl.
  - exists []. by split.
  - destruct (sdk_fetchResult firebolt _) as [e|r]; simpl;
      exists [EvFetchResult st]; by rewrite <- app_assoc.
Qed.

(** What an attempt leaves of an acquisition that succeeded. *)
Lemma queryResponse_try_after_acquisition query parameters
    (d d0 : State) (c : Connection) :
  getConnection firebolt d = (Ok c, d0) ->
  let d1 := (queryResponse_try firebolt query parameters d).2 in
  connection d1 = connection d0
  /\ promises d1 = promises d0
  /\ connects (trace d1) = connects (trace d0).
Proof.
  intros Hget. unfold queryResponse_try, mbind, M_bind, bind. rewrite Hget.
  unfold call_sdk, issue, await_sdk, mbind, M_bind, bind. simpl.
  destruct (sdk_execute firebolt _) as [e|st]; simpl.
  - by rewrite connects_app, app_nil_r.
  - destruct (sdk_fetchResult firebolt _) as [e|r]; simpl;
      by rewrite !connects_app, !app_nil_r.
Qed.

End MoreRetryFacts.

(** X13. The retry after status 404 keeps the connection.  When the
    connection was acquired, the attempt failed with status 404 and the
    engine-start sequence returned, the second attempt submits the
    statement on the very connection of the first and no connect call is
    made after the acquisition. *)
Theorem retry_on_404_reuses_connection
    (firebolt : Driver.Sdk) (query : string)
    (parameters : option (list JsValue))
    (d d0 d1 d2 : Driver.State) (c : Driver.Connection) (e : Driver.Error) :
  Driver.getConnection firebolt d = (Driver.Ok c, d0) ->
  Driver.queryResponse_try firebolt query parameters d = (Driver.Throw e, d1) ->
  Driver.status_is e 404 = true ->
  Driver.ensureEngineRunning firebolt d1 = (Driver.Ok tt, d2) ->
  let final :=
    (Driver.queryResponse firebolt Driver.enough_fuel query parameters true d).2 in
  (exists rest,
     Driver.trace final =
       Driver.trace d2 ++ Driver.EvExecute c query parameters :: rest)
  /\ connects (Driver.trace final) = connects (Driver.trace d0).
Proof.
  intros Hget Hfirst H404 Hstart final.
  pose proof (queryResponse_try_after_acquisition firebolt query parameters
                d d0 c Hget) as (Hc1 & Hp1 & Hn1).
  rewrite Hfirst in Hc1, Hp1, Hn1. simpl in Hc1, Hp1, Hn1.
  destruct (getConnection_Ok firebolt d d0 c Hget) as (p & Hc0 & Hp0).
  pose proof (ensureEngineRunning_state firebolt d1) as Hstate.
  pose proof (ensureEngineRunning_quiet firebolt d1) as [Hquiet _].
  rewrite Hstart in Hstate, Hquiet. simpl in Hstate, Hquiet.
  assert (Driver.connection d2 = Some p) as Hc2.
  { rewrite Hstate. simpl. congruence. }
  assert (Driver.promises d2 !! p = Some (Driver.Fulfilled c)) as Hp2.
  { rewrite Hstate. simpl. congruence. }
  destruct (queryResponse_try_ready firebolt query parameters d2 p c Hc2 Hp2)
    as (rest & Hrest & Hnone).
  assert (final = (Driver.queryResponse_try firebolt query parameters d2).2)
    as ->.
  { unfold final, Driver.enough_fuel.
    rewrite queryResponse_first_attempt, Hfirst. unfold after_first_attempt.
    by rewrite (status_401_not_404 e H404), H404, Hstart. }
  split; [by exists rest|].
  rewrite Hrest, connects_app. change (connects (_ :: rest)) with (connects rest).
  rewrite Hnone, app_nil_r. congruence.
Qed.

Lemma retry_on_404_reuses_connection_witness :
  let sdk := sample_sdk first_statement 404 never false in
  let final := (Driver.queryResponse sdk 2 "SELECT 1" None true new_driver).2 in
  connects (Driver.trace final) = connects (Driver.trace (connected_driver sdk)).
Proof.
  intros sdk final.
  edestruct (retry_on_404_reuses_connection sdk "SELECT 1" None new_driver)
    as [_ Hsame];
    [by vm_compute | by vm_compute | reflexivity | by vm_compute |].
  exact Hsame.
Defined.

(** ** The life of a connection *)

(** X14. Acquire, release, acquire.  After a successful acquisition a
    release whose destroy call succeeds destroys the very connection
    acquired, with that one call, and empties the cache; the next
    acquisition starts with a new connect call. *)
Theorem release_then_reconnect
    (firebolt : Driver.Sdk) (d d1 : Driver.State) (c : Driver.Connection) :
  Driver.getConnection firebolt d = (Driver.Ok c, d1) ->
  let d2 := Driver.set_trace (Driver.trace d1 ++ [Driver.EvDestroy c]) d1 in
  Driver.sdk_destroy firebolt (Driver.trace d2) = inr tt ->
  let released := Driver.set_connection_field None d2 in
  Driver.release firebolt d1 = (Driver.Ok tt, released)
  /\ exists connectionOptions rest,
       Driver.trace (Driver.getConnection firebolt released).2 =
         Driver.trace d1 ++
           Driver.EvDestroy c :: Driver.EvConnect connectionOptions :: rest.
Proof.
  intros Hget d2 Hdestroy released.
  destruct (getConnection_Ok firebolt d d1 c Hget) as (p & Hc & Hp).
  split.
  - rewrite (release_connected firebolt d1 p c Hc Hp). fold d2.
    by rewrite Hdestroy.
  - destruct (getConnection_fresh_connects firebolt released eq_refl)
      as [rest Hrest].
    exists (get (Driver.config released) "connection"), rest.
    rewrite Hrest. simpl. by rewrite <- app_assoc.
Qed.

Lemma release_then_reconnect_witness :
  let sdk := sample_sdk never 0 never false in
  (Driver.release sdk (connected_driver sdk)).1 = Driver.Ok tt
  /\ destroyed (Driver.trace (Driver.release sdk (connected_driver sdk)).2) = [1].
Proof.
  intros sdk.
  edestruct (release_then_reconnect sdk new_driver) as [Hrelease _];
    [by vm_compute | by vm_compute |].
  unfold connected_driver.
  match type of Hrelease with Driver.release _ ?x = _ =>
    change (Driver.getConnection sdk new_driver).2 with x end.
  rewrite Hrelease. by vm_compute.
Defined.

Section TestConnectionFacts.
Import Driver.

Variable firebolt : Sdk.

Lemma destroyed_none (evs : list Event) :
  Forall (fun ev => destroyed [ev] = []) evs -> destroyed evs = [].
Proof.
  induction 1 as [|ev evs Hev _ IH]; [done|].
  change (ev :: evs) with ([ev] ++ evs). by rewrite destroyed_app, Hev, IH.
Qed.

Lemma executed_none (evs : list Event) :
  Forall (fun ev => executed [ev] = []) evs -> executed evs = [].
Proof.
  induction 1 as [|ev evs Hev _ IH]; [done|].
  change (ev :: evs) with ([ev] ++ evs). by rewrite executed_app, Hev, IH.
Qed.

End TestConnectionFacts.

(** X15. [testConnection] has no retry of its own.  The failure of the
    acquisition, status 401 or 404 included, is its failure; with the
    connection acquired it makes one call, the connection's own check, and
    ends as that call ends.  It submits no statement, destroys nothing and
    makes at most one connect call. *)
Theorem testConnection_does_not_retry
    (firebolt : Driver.Sdk) (d : Driver.State) :
  (forall e d1,
     Driver.getConnection firebolt d = (Driver.Throw e, d1) ->
     Driver.testConnection firebolt d = (Driver.Throw e, d1))
  /\ (forall c d1,
        Driver.getConnection firebolt d = (Driver.Ok c, d1) ->
        let t := Driver.trace d1 ++ [Driver.EvTestConnection c] in
        Driver.testConnection firebolt d =
          (match Driver.sdk_testConnection firebolt t with
           | inl e => Driver.Throw e
           | inr _ => Driver.Ok tt
           end, Driver.set_trace t d1))
  /\ (exists evs,
        Driver.trace (Driver.testConnection firebolt d).2 = Driver.trace d ++ evs
        /\ executed evs = []
        /\ destroyed evs = []
        /\ connections evs <= 1).
Proof.
  split; [|split].
  - intros e d1 Hget.
    unfold Driver.testConnection, Driver.try_catch, mbind, Driver.M_bind,
      Driver.bind. by rewrite Hget.
  - intros c d1 Hget t.
    unfold Driver.testConnection, Driver.try_catch, mbind, Driver.M_bind,
      Driver.bind. rewrite Hget.
    unfold Driver.call_sdk, Driver.issue, Driver.await_sdk, mbind,
      Driver.M_bind, Driver.bind. simpl. fold t.
    by destruct (Driver.sdk_testConnection firebolt t) as [e|[]].
  - assert (emits (fun ev => executed [ev] = [] /\ destroyed [ev] = [])
              (Driver.testConnection firebolt)) as Hquiet.
    { unfold Driver.testConnection. apply emits_try_catch.
      - apply emits_bind; [by apply emits_getConnection|].
        intros c. by apply emits_call_sdk.
      - intros e. apply emits_throw. }
    assert (at_most connections 1 (Driver.testConnection firebolt)) as Hone.
    { unfold Driver.testConnection. replace 1 with (1 + 0 + 0) by lia.
      apply (at_most_try_catch connections connections_app).
      - apply (at_most_bind connections connections_app).
        + by apply (at_most_getConnection firebolt connections connections_app).
        + intros c. by apply (at_most_call_sdk connections).
      - intros e. by apply (at_most_silent connections connections_app). }
    destruct (Hquiet d) as [evs [Ht Hevs]].
    destruct (Hone d) as [evs' [Ht' Hc]].
    rewrite Ht in Ht'. apply app_inv_head in Ht' as <-.
    exists evs. split; [exact Ht|].
    split; [apply executed_none; eapply Forall_impl; [exact Hevs|]; by intros ? []|].
    split; [apply destroyed_none; eapply Forall_impl; [exact Hevs|]; by intros ? []|].
    exact Hc.
Qed.

Lemma testConnection_does_not_retry_witness :
  let sdk := sample_sdk never 0 always false in
  (Driver.testConnection sdk new_driver).1 = Driver.Throw (error_with 500).
Proof.
  intros sdk.
  destruct (testConnection_does_not_retry sdk new_driver) as [Hfail _].
  erewrite Hfail; [reflexivity|]. by vm_compute.
Defined.

(** ** Drivers without an engine name *)

Lemma engine_calls_app (a b : list Driver.Event) :
  engine_calls (a ++ b) = engine_calls a ++ engine_calls b.
Proof. apply omap_app. Qed.

Section DirectMode.
Import Driver.

Variable firebolt : Sdk.
Variable BaseDriver_toGenericType : string -> string.

Lemma direct_mode_silent {A} (m : M A) :
  (forall d, config (m d).2 = config d /\ trace (m d).2 = trace d) ->
  direct_mode m.
Proof.
  intros H d _. destruct (H d) as [Hc Ht]. split; [exact Hc|].
  exists []. by rewrite Ht, app_nil_r.
Qed.

Lemma direct_mode_bind {A B} (m : M A) (k : A -> M B) :
  direct_mode m -> (forall a, direct_mode (k a)) -> direct_mode (m ≫= k).
Proof.
  intros Hm Hk d Hd. unfold mbind, M_bind, bind.
  destruct (Hm d Hd) as [Hc1 [evs1 [Ht1 He1]]].
  destruct (m d) as [[a|e|] d1]; simpl in *; [|by eauto|by eauto].
  assert (no_engine_name d1) as Hd1.
  { unfold no_engine_name. by rewrite Hc1. }
  destruct (Hk a d1 Hd1) as [Hc2 [evs2 [Ht2 He2]]].
  split; [congruence|]. exists (evs1 ++ evs2).
  rewrite Ht2, Ht1, app_assoc, engine_calls_app, He1, He2. by split.
Qed.

Lemma direct_mode_try_catch {A} (body : M A) (handler : Error -> M A) :
  direct_mode body -> (forall e, direct_mode (handler e)) ->
  direct_mode (try_catch body handler).
Proof.
  intros Hm Hk d Hd. unfold try_catch.
  destruct (Hm d Hd) as [Hc1 [evs1 [Ht1 He1]]].
  destruct (body d) as [[a|e|] d1]; simpl in *; [by eauto| |by eauto].
  assert (no_engine_name d1) as Hd1.
  { unfold no_engine_name. by rewrite Hc1. }
  destruct (Hk e d1 Hd1) as [Hc2 [evs2 [Ht2 He2]]].
  split; [congruence|]. exists (evs1 ++ evs2).
  rewrite Ht2, Ht1, app_assoc, engine_calls_app, He1, He2. by split.
Qed.

Lemma direct_mode_call_sdk {A} (ev : Event) (answer : list Event -> Error + A) :
  engine_calls [ev] = [] -> direct_mode (call_sdk ev answer).
Proof.
  intros Hev d _. unfold call_sdk, issue, await_sdk, mbind, M_bind, bind.
  simpl. destruct (answer _); simpl; (split; [done|]); by exists [ev].
Qed.

Lemma direct_mode_await_sdk {A} (answer : list Event -> Error + A) :
  direct_mode (await_sdk answer).
Proof.
  apply direct_mode_silent. intros d. unfold await_sdk.
  by destruct (answer (trace d)).
Qed.

(** Without an engine name the engine-start sequence does nothing. *)
Lemma ensureEngineRunning_without_name (d : State) :
  no_engine_name d -> ensureEngineRunning firebolt d = (Ok tt, d).
Proof.
  intros Hd. unfold ensureEngineRunning, read, mbind, M_bind, bind.
  unfold no_engine_name in Hd. by rewrite Hd.
Qed.

Lemma direct_mode_ensureEngineRunning : direct_mode (ensureEngineRunning firebolt).
Proof.
  intros d Hd. rewrite (ensureEngineRunning_without_name d Hd).
  split; [done|]. exists []. by rewrite app_nil_r.
Qed.

Lemma direct_mode_initConnection_resume :
  direct_mode (initConnection_resume firebolt).
Proof.
  unfold initConnection_resume. apply direct_mode_try_catch.
  - apply direct_mode_bind; [apply direct_mode_await_sdk|]. intros c.
    apply direct_mode_bind; [apply direct_mode_ensureEngineRunning|].
    intros _. by apply direct_mode_silent.
  - intros e. apply direct_mode_bind; [by apply direct_mode_silent|].
    intros _. by apply direct_mode_silent.
Qed.

Lemma direct_mode_await (p : PromiseId) : direct_mode (await firebolt p).
Proof.
  unfold await. apply direct_mode_bind.
  - intros d Hd. unfold settle.
    destruct (promises d !! p) as [[|c|e]|];
      try (split; [done|]; exists []; by rewrite app_nil_r).
    destruct (direct_mode_initConnection_resume d Hd) as [Hc [evs [Ht He]]].
    destruct (initConnection_resume firebolt d) as [[c|e|] d1];
      (split; [exact Hc|]); by exists evs.
  - intros _. apply direct_mode_bind; [by apply direct_mode_silent|].
    intros [[|c|e]|]; by apply direct_mode_silent.
Qed.

Lemma direct_mode_getConnection : direct_mode (getConnection firebolt).
Proof.
  unfold getConnection. apply direct_mode_bind; [|apply direct_mode_await].
  intros d _. destruct (connection d) as [p|] eqn:Hc.
  - rewrite (getConnection_call_cached d p Hc). split; [done|].
    exists []. by rewrite app_nil_r.
  - rewrite (getConnection_call_fresh d Hc). split; [done|]. by eexists [_].
Qed.

Lemma direct_mode_queryResponse fuel query parameters retry :
  direct_mode (queryResponse firebolt fuel query parameters retry).
Proof.
  revert retry. induction fuel as [|fuel IH]; intros retry.
  - by apply direct_mode_silent.
  - cbn [queryResponse]. apply direct_mode_try_catch.
    + unfold queryResponse_try.
      apply direct_mode_bind; [apply direct_mode_getConnection|]. intros c.
      apply direct_mode_bind; [by apply direct_mode_call_sdk|]. intros st.
      apply direct_mode_bind; [by apply direct_mode_call_sdk|]. intros r.
      by apply direct_mode_silent.
    + intros e. destruct (status_is e 401 && retry).
      { apply direct_mode_bind; [by apply direct_mode_silent|]. by intros _. }
      destruct (status_is e 404 && retry); [|by apply direct_mode_silent].
      apply direct_mode_bind; [apply direct_mode_ensureEngineRunning|].
      by intros _.
Qed.

Lemma direct_mode_streamResponse fuel query parameters retry :
  direct_mode
    (streamResponse firebolt BaseDriver_toGenericType fuel query parameters
       retry).
Proof.
  revert retry. induction fuel as [|fuel IH]; intros retry.
  - by apply direct_mode_silent.
  - cbn [streamResponse]. apply direct_mode_try_catch.
    + unfold streamResponse_try.
      apply direct_mode_bind; [apply direct_mode_getConnection|]. intros c.
      apply direct_mode_bind; [by apply direct_mode_call_sdk|]. intros st.
      apply direct_mode_bind; [by apply direct_mode_call_sdk|]. intros rs.
      apply direct_mode_bind; [apply direct_mode_await_sdk|]. intros ms.
      by apply direct_mode_silent.
    + intros e. destruct (status_is e 401 && retry).
      { apply direct_mode_bind; [by apply direct_mode_silent|]. by intros _. }
      destruct (status_is e 404 && retry); [|by apply direct_mode_silent].
      apply direct_mode_bind; [apply direct_mode_ensureEngineRunning|].
      by intros _.
Qed.

End DirectMode.

(** X16. A driver without an engine name, the property absent or empty,
    never calls the engine-management API: neither connecting, nor
    querying or streaming with their retries, nor testing the connection
    looks an engine up or starts one, and the engine-start sequence itself
    returns at once. *)
Theorem no_engine_name_no_engine_calls
    (firebolt : Driver.Sdk) (BaseDriver_toGenericType : string -> string)
    (query : string) (parameters : option (list JsValue))
    (streamParameters : list JsValue) (d : Driver.State) :
  no_engine_name d ->
  Driver.ensureEngineRunning firebolt d = (Driver.Ok tt, d)
  /\ engine_calls (Driver.trace (Driver.getConnection firebolt d).2) =
       engine_calls (Driver.trace d)
  /\ engine_calls (Driver.trace (Driver.query firebolt query parameters d).2) =
       engine_calls (Driver.trace d)
  /\ engine_calls
       (Driver.trace
          (Driver.stream firebolt BaseDriver_toGenericType query
             streamParameters d).2) = engine_calls (Driver.trace d)
  /\ engine_calls (Driver.trace (Driver.testConnection firebolt d).2) =
       engine_calls (Driver.trace d).
Proof.
  intros Hd.
  assert (forall A (m : Driver.M A), direct_mode m ->
            engine_calls (Driver.trace (m d).2) = engine_calls (Driver.trace d))
    as Huse.
  { intros A m Hm. destruct (Hm d Hd) as [_ [evs [Ht He]]].
    by rewrite Ht, engine_calls_app, He, app_nil_r. }
  split; [by apply ensureEngineRunning_without_name|].
  split; [apply Huse, direct_mode_getConnection|].
  split.
  { apply Huse. unfold Driver.query.
    apply direct_mode_bind; [apply direct_mode_queryResponse|].
    intros r. by apply direct_mode_silent. }
  split; [apply Huse, direct_mode_streamResponse|].
  apply Huse. unfold Driver.testConnection. apply direct_mode_try_catch.
  - apply direct_mode_bind; [apply direct_mode_getConnection|].
    intros c. by apply direct_mode_call_sdk.
  - intros e. by apply direct_mode_silent.
Qed.

Lemma no_engine_name_no_engine_calls_witness :
  let sdk := sample_sdk first_statement 404 never false in
  engine_calls (Driver.trace (Driver.query sdk "SELECT 1" None direct_driver).2)
    = [].
Proof.
  intros sdk.
  destruct (no_engine_name_no_engine_calls sdk (fun t => t) "SELECT 1" None []
              direct_driver eq_refl) as (_ & _ & Hquery & _).
  exact Hquery.
Defined.

(** ** Between two calls *)

Section BetweenCalls.
Import Driver.

Variable firebolt : Sdk.
Variable BaseDriver_toGenericType : string -> string.

Lemma settled_unchanged {A} (m : M A) :
  (forall d, (m d).1 <> Hang
             /\ connection (m d).2 = connection d
             /\ promises (m d).2 = promises d) ->
  settled m.
Proof.
  intros H d Hd. destruct (H d) as (Ho & Hc & Hp). split; [exact Ho|].
  intros p Hcp. rewrite Hp. apply Hd. congruence.
Qed.

Lemma settled_ret {A} (a : A) : settled (mret a).
Proof. by apply settled_unchanged. Qed.

Lemma settled_throw {A} (e : Error) : settled (@throw A e).
Proof. by apply settled_unchanged. Qed.

Lemma settled_await_sdk {A} (answer : list Event -> Error + A) :
  settled (await_sdk answer).
Proof.
  apply settled_unchanged. intros d. unfold await_sdk.
  by destruct (answer (trace d)).
Qed.

Lemma settled_call_sdk {A} (ev : Event) (answer : list Event -> Error + A) :
  settled (call_sdk ev answer).
Proof.
  apply settled_unchanged. intros d.
  unfold call_sdk, issue, await_sdk, mbind, M_bind, bind. simpl.
  by destruct (answer _).
Qed.

Lemma settled_clear_connection : settled (set_connection None).
Proof. intros d Hd. split; [discriminate|]. intros p [=]. Qed.

Lemma settled_ensureEngineRunning : settled (ensureEngineRunning firebolt).
Proof.
  apply settled_unchanged. intros d.
  split; [apply ensureEngineRunning_settles|].
  by rewrite (ensureEngineRunning_state firebolt d).
Qed.

Lemma settled_bind {A B} (m : M A) (k : A -> M B) :
  settled m -> (forall a, settled (k a)) -> settled (m ≫= k).
Proof.
  intros Hm Hk d Hd. unfold mbind, M_bind, bind.
  destruct (Hm d Hd) as [Ho Hd1].
  destruct (m d) as [[a|e|] d1]; simpl in *; [|by split|done].
  by apply Hk.
Qed.

Lemma settled_try_catch {A} (body : M A) (handler : Error -> M A) :
  settled body -> (forall e, settled (handler e)) ->
  settled (try_catch body handler).
Proof.
  intros Hm Hk d Hd. unfold try_catch.
  destruct (Hm d Hd) as [Ho Hd1].
  destruct (body d) as [[a|e|] d1]; simpl in *; [by split| |done].
  by apply Hk.
Qed.

(** An acquisition ends with the connection ready in the cache, or with
    the cache empty. *)
Lemma settled_getConnection : settled (getConnection firebolt).
Proof.
  intros d Hd.
  destruct (getConnection firebolt d) as [[c|e|] d1] eqn:Hget; simpl.
  - split; [discriminate|].
    destruct (getConnection_Ok firebolt d d1 c Hget) as (p & Hc & Hp).
    intros q Hq. rewrite Hc in Hq. injection Hq as <-. by exists c.
  - split; [discriminate|]. revert Hget.
    unfold getConnection, mbind, M_bind, bind.
    destruct (connection d) as [p|] eqn:Hc.
    + rewrite (getConnection_call_cached d p Hc).
      destruct (Hd p Hc) as [c Hp].
      rewrite (await_fulfilled firebolt p c d Hp). discriminate.
    + rewrite (getConnection_call_fresh d Hc).
      match goal with |- await firebolt ?p ?d' = _ -> _ => set (d0 := d') end.
      assert (promises d0 !! length (promises d) = Some Pending) as Hp
        by (by apply list_lookup_middle).
      rewrite (await_pending firebolt _ d0 Hp).
      pose proof (initConnection_resume_cases firebolt d0) as Hcases.
      pose proof (ensureEngineRunning_state firebolt d0) as Hstate.
      destruct (sdk_connect firebolt (trace d0)) as [e'|c].
      * rewrite Hcases. intros [= _ <-]. intros q [=].
      * destruct (ensureEngineRunning firebolt d0) as [[[]|e'|] d'];
          [| |done]; rewrite Hcases; [discriminate|].
        intros [= _ <-]. intros q [=].
  - exfalso. revert Hget.
    unfold getConnection, mbind, M_bind, bind.
    destruct (connection d) as [p|] eqn:Hc.
    + rewrite (getConnection_call_cached d p Hc).
      destruct (Hd p Hc) as [c Hp].
      rewrite (await_fulfilled firebolt p c d Hp). discriminate.
    + rewrite (getConnection_call_fresh d Hc).
      match goal with |- await firebolt ?p ?d' = _ -> _ => set (d0 := d') end.
      assert (promises d0 !! length (promises d) = Some Pending) as Hp
        by (by apply list_lookup_middle).
      rewrite (await_pending firebolt _ d0 Hp).
      pose proof (initConnection_resume_cases firebolt d0) as Hcases.
      destruct (sdk_connect firebolt (trace d0)) as [e'|c].
      * rewrite Hcases. discriminate.
      * destruct (ensureEngineRunning firebolt d0) as [[[]|e'|] d'];
          [| |done]; rewrite Hcases; discriminate.
Qed.

Lemma settled_queryResponse_try query parameters :
  settled (queryResponse_try firebolt query parameters).
Proof.
  unfold queryResponse_try.
  apply settled_bind; [apply settled_getConnection|]. intros c.
  apply settled_bind; [apply settled_call_sdk|]. intros st.
  apply settled_bind; [apply settled_call_sdk|]. intros r. apply settled_ret.
Qed.

Lemma settled_streamResponse_try query parameters :
  settled (streamResponse_try firebolt BaseDriver_toGenericType query parameters).
Proof.
  unfold streamResponse_try.
  apply settled_bind; [apply settled_getConnection|]. intros c.
  apply settled_bind; [apply settled_call_sdk|]. intros st.
  apply settled_bind; [apply settled_call_sdk|]. intros rs.
  apply settled_bind; [apply settled_await_sdk|]. intros ms. apply settled_ret.
Qed.

Lemma settled_queryResponse query parameters :
  settled (queryResponse firebolt enough_fuel query parameters true).
Proof.
  assert (settled (queryResponse firebolt 1 query parameters false)) as Hfinal.
  { intros d Hd. rewrite queryResponse_final_attempt.
    by apply settled_queryResponse_try. }
  change (queryResponse firebolt enough_fuel query parameters true) with
    (try_catch (queryResponse_try firebolt query parameters)
       (fun error =>
          if status_is error 401 && true then
            set_connection None;;
            queryResponse firebolt 1 query parameters false
          else if status_is error 404 && true then
            ensureEngineRunning firebolt;;
            queryResponse firebolt 1 query parameters false
          else throw error)).
  apply settled_try_catch; [apply settled_queryResponse_try|].
  intros e. destruct (status_is e 401 && true).
  { apply settled_bind; [apply settled_clear_connection|]. by intros _. }
  destruct (status_is e 404 && true); [|apply settled_throw].
  apply settled_bind; [apply settled_ensureEngineRunning|]. by intros _.
Qed.

Lemma settled_streamResponse query parameters :
  settled (streamResponse firebolt BaseDriver_toGenericType enough_fuel query
             parameters true).
Proof.
  assert (settled (streamResponse firebolt BaseDriver_toGenericType 1 query
                     parameters false)) as Hfinal.
  { intros d Hd. rewrite streamResponse_final_attempt.
    by apply settled_streamResponse_try. }
  change (streamResponse firebolt BaseDriver_toGenericType enough_fuel query
            parameters true) with
    (try_catch
       (streamResponse_try firebolt BaseDriver_toGenericType query parameters)
       (fun error =>
          if status_is error 401 && true then
            set_connection None;;
            streamResponse firebolt BaseDriver_toGenericType 1 query
              parameters false
          else if status_is error 404 && true then
            ensureEngineRunning firebolt;;
            streamResponse firebolt BaseDriver_toGenericType 1 query
              parameters false
          else throw error)).
  apply settled_try_catch; [apply settled_streamResponse_try|].
  intros e. destruct (status_is e 401 && true).
  { apply settled_bind; [apply settled_clear_connection|]. by intros _. }
  destruct (status_is e 404 && true); [|apply settled_throw].
  apply settled_bind; [apply settled_ensureEngineRunning|]. by intros _.
Qed.

Lemma settled_query query parameters :
  settled (Driver.query firebolt query parameters).
Proof.
  unfold Driver.query. apply settled_bind; [apply settled_queryResponse|].
  intros r. apply settled_ret.
Qed.

Lemma settled_release : settled (release firebolt).
Proof.
  intros d Hd. destruct (connection d) as [p|] eqn:Hc.
  - destruct (Hd p Hc) as [c Hp].
    rewrite (release_connected firebolt d p c Hc Hp).
    destruct (sdk_destroy firebolt _) as [e|[]]; simpl.
    + split; [discriminate|]. intros q Hq. simpl in *. by apply Hd.
    + split; [discriminate|]. intros q [=].
  - rewrite (release_no_connection firebolt d Hc). by split.
Qed.

Lemma settled_perform (call : Call) :
  settled (perform firebolt BaseDriver_toGenericType call).
Proof.
  destruct call; cbn [perform].
  - apply settled_bind; [apply settled_query|]. intros _. apply settled_ret.
  - apply settled_bind; [apply settled_streamResponse|]. intros _.
    apply settled_ret.
  - apply settled_bind; [|intros _; apply settled_ret].
    unfold downloadQueryResults.
    apply settled_bind; [apply settled_queryResponse|]. intros r.
    apply settled_ret.
  - apply settled_bind; [|intros _; apply settled_ret].
    unfold getTablesQuery. apply settled_bind; [apply settled_query|].
    intros r. apply settled_ret.
  - apply settled_bind; [|intros _; apply settled_ret].
    unfold tableColumnTypes. apply settled_bind; [apply settled_query|].
    intros r. destruct (map_or_throw _ r); [apply settled_throw|apply settled_ret].
  - apply settled_bind; [|intros _; apply settled_ret].
    unfold dropTable. apply settled_query.
  - unfold testConnection. apply settled_try_catch.
    + apply settled_bind; [apply settled_getConnection|]. intros c.
      apply settled_call_sdk.
    + intros e. apply settled_throw.
  - apply settled_release.
Qed.

End BetweenCalls.

(** X17. Whatever calls are made on a driver one after the other, each
    awaited before the next, and however an engine that answers every call
    answers them, between two calls [this.connection] is null or a promise
    fulfilled with a connection, never one that was rejected or is still
    pending; a new driver starts that way.  So a failed creation is never
    met again by a later call. *)
Theorem cache_is_ready_or_absent_between_calls
    (firebolt : Driver.Sdk) (BaseDriver_toGenericType : string -> string)
    (calls : list Call) (d : Driver.State) :
  ready_or_absent d ->
  let result := perform_all firebolt BaseDriver_toGenericType calls d in
  ready_or_absent result.2
  /\ (forall getEnv assertDataSource version config d0,
        Driver.constructor getEnv assertDataSource version config = Some d0 ->
        ready_or_absent d0).
Proof.
  intros Hd result. split.
  - unfold result. clear result. revert d Hd.
    induction calls as [|call rest IH]; intros d Hd; simpl; [exact Hd|].
    destruct (settled_perform firebolt BaseDriver_toGenericType call d Hd)
      as [_ Hd1].
    destruct (perform firebolt BaseDriver_toGenericType call d) as [o d1].
    specialize (IH d1 Hd1).
    destruct (perform_all firebolt BaseDriver_toGenericType rest d1)
      as [os d2].
    exact IH.
  - intros getEnv assertDataSource version config d0.
    unfold Driver.constructor. destruct (Driver.build_config _ _ _ _);
      [|discriminate].
    intros [= <-] p [=].
Qed.

Lemma cache_is_ready_or_absent_between_calls_witness :
  let sdk := sample_sdk first_statement 401 never false in
  let calls :=
    [CallQuery "SELECT 1" None; CallTestConnection; CallRelease;
     CallDropTable "public.orders"] in
  let result := perform_all sdk (fun t => t) calls new_driver in
  ready_or_absent result.2
  /\ Driver.connection result.2 = Some 2
  /\ Driver.promises result.2 =
       [Driver.Fulfilled 1; Driver.Fulfilled 5; Driver.Fulfilled 12].
Proof.
  intros sdk calls result.
  destruct (cache_is_ready_or_absent_between_calls sdk (fun t => t) calls
              new_driver) as (Hready & _).
  { intros p [=]. }
  split; [exact Hready|]. split; by vm_compute.
Defined.

Section AfterSuccess.
Import Driver.

Variable firebolt : Sdk.

(** An attempt that returns leaves the connection cached and ready. *)
Lemma queryResponse_try_Ok query parameters (d d1 : State) (r : Response) :
  queryResponse_try firebolt query parameters d = (Ok r, d1) ->
  exists p c, connection d1 = Some p /\ promises d1 !! p = Some (Fulfilled c).
Proof.
  intros Htry.
  destruct (getConnection firebolt d) as [[c|e|] d0] eqn:Hget.
  - pose proof (queryResponse_try_after_acquisition firebolt query parameters
                  d d0 c Hget) as (Hc & Hp & _).
    rewrite Htry in Hc, Hp. simpl in Hc, Hp.
    destruct (getConnection_Ok firebolt d d0 c Hget) as (p & Hc0 & Hp0).
    exists p, c. split; congruence.
  - unfold queryResponse_try, mbind, M_bind, bind in Htry.
    rewrite Hget in Htry. discriminate.
  - unfold queryResponse_try, mbind, M_bind, bind in Htry.
    rewrite Hget in Htry. discriminate.
Qed.

End AfterSuccess.

(** X18. A query that returns leaves its connection in the cache: the next
    acquisition is a cache hit, and the first attempt of the next query
    goes straight to submitting its statement on that connection, without
    a connect call. *)
Theorem successful_query_keeps_connection
    (firebolt : Driver.Sdk) (query next : string)
    (parameters nextParameters : option (list JsValue))
    (d d1 : Driver.State) (rows : list Driver.Row) :
  Driver.query firebolt query parameters d = (Driver.Ok rows, d1) ->
  exists c,
    Driver.getConnection firebolt d1 = (Driver.Ok c, d1)
    /\ exists rest,
         Driver.trace
           (Driver.queryResponse_try firebolt next nextParameters d1).2 =
           Driver.trace d1 ++ Driver.EvExecute c next nextParameters :: rest
         /\ connects rest = [].
Proof.
  intros Hquery.
  assert (exists d' r,
            Driver.queryResponse_try firebolt query parameters d' =
              (Driver.Ok r, d1)) as (d' & r & Htry).
  { revert Hquery.
    unfold Driver.query, Driver.enough_fuel, mbind, Driver.M_bind, Driver.bind.
    rewrite queryResponse_first_attempt. unfold after_first_attempt.
    destruct (Driver.queryResponse_try firebolt query parameters d)
      as [[r|e|] d0] eqn:Hfirst.
    - intros [= _ <-]. eauto.
    - destruct (Driver.status_is e 401).
      { destruct (Driver.queryResponse_try firebolt query parameters
                    (Driver.set_connection_field None d0))
          as [[r|e'|] d2] eqn:Hsecond; [|discriminate|discriminate].
        intros [= _ <-]. eauto. }
      destruct (Driver.status_is e 404); [|discriminate].
      destruct (Driver.ensureEngineRunning firebolt d0) as [[[]|e'|] d2];
        [|discriminate|discriminate].
      destruct (Driver.queryResponse_try firebolt query parameters d2)
        as [[r|e'|] d3] eqn:Hsecond; [|discriminate|discriminate].
      intros [= _ <-]. eauto.
    - discriminate. }
  destruct (queryResponse_try_Ok firebolt query parameters d' d1 r Htry)
    as (p & c & Hc & Hp).
  exists c. split; [by apply (getConnection_ready firebolt d1 p c)|].
  by apply (queryResponse_try_ready firebolt next nextParameters d1 p c).
Qed.

Lemma successful_query_keeps_connection_witness :
  let sdk := sample_sdk never 0 never false in
  exists c,
    Driver.getConnection sdk (Driver.query sdk "SELECT 1" None new_driver).2 =
      (Driver.Ok c, (Driver.query sdk "SELECT 1" None new_driver).2).
Proof.
  intros sdk.
  edestruct (successful_query_keeps_connection sdk "SELECT 1" "SELECT 2" None
               None new_driver) as (c & Hhit & _);
    [vm_compute; reflexivity|].
  exists c.
  match type of Hhit with Driver.getConnection _ ?x = _ =>
    change (Driver.query sdk "SELECT 1" None new_driver).2 with x end.
  exact Hhit.
Defined.

(** ** The introspection helpers *)

Section HelperFacts.
Import Driver.

Lemma map_or_throw_all {A B} (f : A -> Error + B) (g : A -> B) (l : list A) :
  Forall (fun x => f x = inr (g x)) l -> map_or_throw f l = inr (map g l).
Proof.
  induction 1 as [|x l Hx _ IH]; [reflexivity|].
  simpl. by rewrite Hx, IH.
Qed.

Lemma map_or_throw_some {A B} (f : A -> Error + B) (e : Error) (l : list A) :
  (forall x e', f x = inl e' -> e' = e) ->
  Exists (fun x => f x = inl e) l -> map_or_throw f l = inl e.
Proof.
  intros Hone. induction 1 as [x l Hx|x l _ IH]; simpl.
  - by rewrite Hx.
  - destruct (f x) as [e'|y] eqn:Hfx; [by rewrite (Hone x e' Hfx)|].
    by rewrite IH.
Qed.

End HelperFacts.

(** X19. [getTablesQuery] submits the statement [SHOW TABLES] and no other;
    of each row the engine returns it keeps the property [table_name]
    alone, as many rows as returned and in their order; a failure of the
    query is its failure. *)
Theorem getTablesQuery_keeps_table_name_only
    (firebolt : Driver.Sdk) (d : Driver.State) :
  (forall rows d1,
     Driver.query firebolt "SHOW TABLES" (Some []) d = (Driver.Ok rows, d1) ->
     exists tables,
       Driver.getTablesQuery firebolt d = (Driver.Ok tables, d1)
       /\ length tables = length rows
       /\ forall i row, rows !! i = Some row ->
            exists table,
              tables !! i = Some table
              /\ table !! "table_name" = Some (get row "table_name")
              /\ forall key, key <> "table_name" -> table !! key = None)
  /\ (forall e d1,
        Driver.query firebolt "SHOW TABLES" (Some []) d = (Driver.Throw e, d1) ->
        Driver.getTablesQuery firebolt d = (Driver.Throw e, d1))
  /\ (exists k,
        executed (Driver.trace (Driver.getTablesQuery firebolt d).2) =
          executed (Driver.trace d) ++ replicate k "SHOW TABLES").
Proof.
  split; [|split].
  - intros rows d1 Hquery. eexists. split.
    { unfold Driver.getTablesQuery, mbind, Driver.M_bind, Driver.bind.
      rewrite Hquery. reflexivity. }
    split; [by rewrite length_map|].
    intros i row Hrow. eexists. split.
    { rewrite list_lookup_fmap, Hrow. reflexivity. }
    split; [apply lookup_singleton_eq|].
    intros key Hkey. by apply lookup_singleton_ne.
  - intros e d1 Hquery.
    unfold Driver.getTablesQuery, mbind, Driver.M_bind, Driver.bind.
    by rewrite Hquery.
  - destruct (query_executes_its_text firebolt "SHOW TABLES" (Some []) d)
      as [k Hk].
    exists k. rewrite <- Hk.
    unfold Driver.getTablesQuery, mbind, Driver.M_bind, Driver.bind.
    by destruct (Driver.query firebolt "SHOW TABLES" (Some []) d) as [[r|e|] d1].
Qed.

Lemma getTablesQuery_keeps_table_name_only_witness :
  let sdk := answering_sdk sample_tables in
  exists tables d1,
    Driver.getTablesQuery sdk new_driver = (Driver.Ok tables, d1)
    /\ length tables = 2
    /\ exists table,
         tables !! 0 = Some table
         /\ table !! "table_name" = Some (JsString "orders")
         /\ table !! "schema" = None.
Proof.
  intros sdk.
  destruct (getTablesQuery_keeps_table_name_only sdk new_driver) as (Hok & _).
  destruct (Hok (Driver.data sample_tables)
              (Driver.query sdk "SHOW TABLES" (Some []) new_driver).2)
    as (tables & Hget & Hlen & Hrows).
  { vm_compute. reflexivity. }
  exists tables. eexists. split; [exact Hget|]. split; [exact Hlen|].
  destruct (Hrows 0
              {[ "table_name" := JsString "orders";
                 "schema" := JsString "public" ]} eq_refl)
    as (table & Htable & Hname & Hother).
  exists table. split; [exact Htable|]. split.
  - rewrite Hname. vm_compute. reflexivity.
  - apply Hother. discriminate.
Defined.

(** X21. [tableColumnTypes] submits [DESCRIBE] followed by the table name
    exactly as given, and no other statement.  When every row of the answer
    holds a string as its [data_type], the result has one entry per row, in
    order, with the row's [column_name] and the generic type of its
    [data_type]; when some row has no [data_type], the call throws a
    TypeError although the query returned. *)
Theorem tableColumnTypes_maps_described_rows
    (firebolt : Driver.Sdk) (BaseDriver_toGenericType : string -> string)
    (table : string) (d d1 : Driver.State) (rows : list Driver.Row) :
  Driver.query firebolt ("DESCRIBE " +:+ table) (Some []) d = (Driver.Ok rows, d1) ->
  (Forall (fun row : Driver.Row =>
             exists t, row !! "data_type" = Some (JsString t)) rows ->
   exists columns,
     Driver.tableColumnTypes firebolt BaseDriver_toGenericType table d =
       (Driver.Ok columns, d1)
     /\ length columns = length rows
     /\ forall i row t,
          rows !! i = Some row -> row !! "data_type" = Some (JsString t) ->
          columns !! i =
            Some {| Driver.described_name := get row "column_name";
                    Driver.described_type :=
                      TypeMapper.toGenericType BaseDriver_toGenericType t |})
  /\ (Exists (fun row : Driver.Row => row !! "data_type" = None) rows ->
      Driver.tableColumnTypes firebolt BaseDriver_toGenericType table d =
        (Driver.Throw Driver.type_error, d1))
  /\ (exists k,
        executed
          (Driver.trace
             (Driver.tableColumnTypes firebolt BaseDriver_toGenericType table
                d).2) =
          executed (Driver.trace d) ++ replicate k ("DESCRIBE " +:+ table)).
Proof.
  intros Hquery.
  set (entry := fun row : Driver.Row =>
         match Driver.toGenericType_of BaseDriver_toGenericType
                 (get row "data_type") with
         | inl e => inl e
         | inr t => inr {| Driver.described_name := get row "column_name";
                           Driver.described_type := t |}
         end).
  assert (forall o,
            Driver.map_or_throw entry rows = o ->
            Driver.tableColumnTypes firebolt BaseDriver_toGenericType table d =
              (match o with
               | inl e => Driver.Throw e
               | inr columns => Driver.Ok columns
               end, d1)) as Hrun.
  { intros o <-.
    unfold Driver.tableColumnTypes, mbind, Driver.M_bind, Driver.bind.
    rewrite Hquery. fold entry. by destruct (Driver.map_or_throw entry rows). }
  split; [|split].
  - intros Hall.
    set (g := fun row : Driver.Row =>
           {| Driver.described_name := get row "column_name";
              Driver.described_type :=
                match get row "data_type" with
                | JsString t => TypeMapper.toGenericType BaseDriver_toGenericType t
                | _ => JsUndefined
                end |}).
    assert (Driver.map_or_throw entry rows = inr (map g rows)) as Hmap.
    { apply map_or_throw_all. eapply Forall_impl; [exact Hall|].
      intros row [t Ht]. unfold entry, g, get. by rewrite Ht. }
    exists (map g rows). split; [by rewrite (Hrun _ Hmap)|].
    split; [by rewrite length_map|].
    intros i row t Hrow Ht. rewrite list_lookup_fmap, Hrow. simpl.
    unfold g, get. by rewrite Ht.
  - intros Hsome. apply (Hrun (inl Driver.type_error)).
    apply map_or_throw_some.
    + intros row e'. unfold entry, Driver.toGenericType_of.
      destruct (get row "data_type"); try discriminate;
        destruct (TypeMapper.in_table _); try discriminate; by intros [= <-].
    + eapply Exists_impl; [exact Hsome|].
      intros row Hnone. unfold entry, get. by rewrite Hnone.
  - destruct (query_executes_its_text firebolt ("DESCRIBE " +:+ table)
                (Some []) d) as [k Hk].
    exists k. rewrite <- Hk, Hquery.
    by rewrite (Hrun _ eq_refl).
Qed.

Lemma tableColumnTypes_maps_described_rows_witness :
  (let sdk := answering_sdk sample_description in
   exists columns d1,
     Driver.tableColumnTypes sdk (fun t => "text") "orders" new_driver =
       (Driver.Ok columns, d1)
     /\ length columns = 2
     /\ columns !! 0 =
          Some {| Driver.described_name := JsString "id";
                  Driver.described_type := JsString "bigint" |}
     /\ columns !! 1 =
          Some {| Driver.described_name := JsString "tags";
                  Driver.described_type := JsString "text" |})
  /\
  (let sdk := answering_sdk sample_broken_description in
   (Driver.tableColumnTypes sdk (fun t => "text") "orders" new_driver).1 =
     Driver.Throw Driver.type_error).
Proof.
  split.
  - intros sdk.
    destruct (tableColumnTypes_maps_described_rows sdk (fun t => "text")
                "orders" new_driver
                (Driver.query sdk "DESCRIBE orders" (Some []) new_driver).2
                (Driver.data sample_description)) as (Hall & _).
    { vm_compute. reflexivity. }
    destruct Hall as (columns & Hrun & Hlen & Hrows).
    { repeat constructor; eexists; vm_compute; reflexivity. }
    exists columns. eexists. split; [exact Hrun|]. split; [exact Hlen|].
    split.
    + rewrite (Hrows 0
                 {[ "column_name" := JsString "id";
                    "data_type" := JsString "long" ]} "long" eq_refl);
        vm_compute; reflexivity.
    + rewrite (Hrows 1
                 {[ "column_name" := JsString "tags";
                    "data_type" := JsString "array(text)" ]} "array(text)"
                 eq_refl); vm_compute; reflexivity.
  - intros sdk.
    destruct (tableColumnTypes_maps_described_rows sdk (fun t => "text")
                "orders" new_driver
                (Driver.query sdk "DESCRIBE orders" (Some []) new_driver).2
                (Driver.data sample_broken_description)) as (_ & Hsome & _).
    { vm_compute. reflexivity. }
    rewrite Hsome; [reflexivity|].
    apply Exists_cons_tl, Exists_cons_hd. vm_compute. reflexivity.
Defined.

(** X22. Queries never destroy a connection.  Neither [query] nor [stream]
    makes a destroy call, whatever the engine answers and whichever retry
    is taken: the connection that the retry after status 401 replaces is
    dropped from the cache without being closed. *)
Theorem queries_never_destroy_a_connection
    (firebolt : Driver.Sdk) (BaseDriver_toGenericType : string -> string)
    (query : string) (parameters : option (list JsValue))
    (streamParameters : list JsValue) (d : Driver.State) :
  destroyed (Driver.trace (Driver.query firebolt query parameters d).2) =
    destroyed (Driver.trace d)
  /\ destroyed
       (Driver.trace
          (Driver.stream firebolt BaseDriver_toGenericType query
             streamParameters d).2) = destroyed (Driver.trace d).
Proof.
  assert (forall A (m : Driver.M A),
            emits (fun ev => destroyed [ev] = []) m ->
            destroyed (Driver.trace (m d).2) = destroyed (Driver.trace d))
    as Huse.
  { intros A m Hm. destruct (Hm d) as [evs [Ht Hevs]].
    by rewrite Ht, destroyed_app, (destroyed_none evs Hevs), app_nil_r. }
  assert (forall q ps,
            emits (fun ev => destroyed [ev] = [])
              (Driver.queryResponse_try firebolt q ps)) as Htry.
  { intros q ps. unfold Driver.queryResponse_try.
    apply emits_bind; [by apply emits_getConnection|]. intros c.
    apply emits_bind; [by apply emits_call_sdk|]. intros st.
    apply emits_bind; [by apply emits_call_sdk|]. intros r. apply emits_ret. }
  assert (forall q ps,
            emits (fun ev => destroyed [ev] = [])
              (Driver.streamResponse_try firebolt BaseDriver_toGenericType q ps))
    as Hstry.
  { intros q ps. unfold Driver.streamResponse_try.
    apply emits_bind; [by apply emits_getConnection|]. intros c.
    apply emits_bind; [by apply emits_call_sdk|]. intros st.
    apply emits_bind; [by apply emits_call_sdk|]. intros rs.
    apply emits_bind; [apply emits_await_sdk|]. intros ms. apply emits_ret. }
  split.
  - apply Huse. unfold Driver.query. apply emits_bind; [|intros r; apply emits_ret].
    generalize true. generalize Driver.enough_fuel.
    intros fuel. induction fuel as [|fuel IH]; intros retry; simpl.
    + apply emits_hang.
    + apply emits_try_catch; [apply Htry|]. intros e.
      destruct (Driver.status_is e 401 && retry).
      { apply emits_bind; [apply emits_set_connection|]. intros _. apply IH. }
      destruct (Driver.status_is e 404 && retry); [|apply emits_throw].
      apply emits_bind; [by apply emits_ensureEngineRunning|]. intros _.
      apply IH.
  - apply Huse. unfold Driver.stream.
    generalize true. generalize Driver.enough_fuel.
    intros fuel. induction fuel as [|fuel IH]; intros retry; simpl.
    + apply emits_hang.
    + apply emits_try_catch; [apply Hstry|]. intros e.
      destruct (Driver.status_is e 401 && retry).
      { apply emits_bind; [apply emits_set_connection|]. intros _. apply IH. }
      destruct (Driver.status_is e 404 && retry); [|apply emits_throw].
      apply emits_bind; [by apply emits_ensureEngineRunning|]. intros _.
      apply IH.
Qed.

Lemma quoteIdentifier_does_not_escape_witness :
  Driver.createTableSql (fun t => t) "t"
    [ {| Driver.name := "a" +:+ Driver.double_quote +:+ " int, "
                          +:+ Driver.double_quote +:+ "b";
         Driver.type := "text" |} ] =
  Driver.createTableSql (fun t => t) "t"
    [ {| Driver.name := "a"; Driver.type := "int" |};
      {| Driver.name := "b"; Driver.type := "text" |} ].
Proof.
  destruct (quoteIdentifier_does_not_escape (fun t => t) "t" "a" "b" "int"
              "text") as (_ & _ & Hsame).
  exact Hsame.
Defined.

Lemma dropTable_never_names_a_qualified_table_witness :
  exists name,
    includes "." name = false
    /\ Driver.dropTable_statement "a.b.c" = "DROP TABLE " +:+ name.
Proof.
  destruct (dropTable_never_names_a_qualified_table
              (sample_sdk never 0 never false) "a.b.c" new_driver)
    as (name & Hname & Hstmt & _).
  by exists name.
Defined.
